(** * Hull-White Monte Carlo pricing of an exotic quanto option

    A shallow embedding of the pricing engine:
    - [Bond_Data.py]: the three curve read-outs built on the fitted spline,
      the selection of the newest day in the parsed document, the yields
      and the raw bond prices;
    - [SIngle_time_Monte_Carlo.py]: class [Single_time_Monte_Carlo];
    - [Option_Pricing.py]: the aggregation loop and
      [cumulative_average_of_list];
    - [Nikkei_Data.py]: the search of the dividend yield in the table cells;
    - [Fed_Data.py]: the dates of the federal funds request and the return
      series that are correlated (a missing observation, NaN in the
      downloaded series, is [None]).

    Number model.  Python and NumPy floats are idealised as the real numbers
    of the standard library ([R], [exp], [sqrt], [x ^ 2]): rounding, NaN and
    infinities are outside the model, every formula has the shape and the
    operation order of its source expression.

    Exceptions.  A method that can raise returns a [result].  True division
    raises [ZeroDivisionError] exactly where both operands are plain Python
    numbers (constructor arguments and values computed from them alone): this
    is [py_truediv].  A division with a NumPy operand (spline evaluations,
    [np.exp] and [np.sqrt] results, random draws and whatever is computed from
    them) never raises, it is the total [/] of [R].  The entries of the two
    path lists are of either kind (the constructor's zeros and the current
    values are Python numbers, what the simulation loop stores are NumPy
    scalars), so they carry their kind: [scalar].  List indexing raises
    [IndexError] out of range and wraps negative indices as Python does. *)

From Stdlib Require Import Reals Lra Lia ZArith.
From stdpp Require Import base list strings.

#[local] Open Scope R_scope.

(** ** Exceptions and the error monad *)

Inductive exn : Set :=
| ZeroDivisionError
| IndexError
| ValueError.

Inductive result (A : Type) : Type :=
| Ok (a : A)
| Raise (x : exn).

Arguments Ok {A} a.
Arguments Raise {A} x.

#[global] Instance result_ret : MRet result := fun A a => Ok a.

#[global] Instance result_bind : MBind result := fun A B f m =>
  match m with
  | Ok a => f a
  | Raise x => Raise x
  end.

#[global] Instance result_fmap : FMap result := fun A B f m =>
  match m with
  | Ok a => Ok (f a)
  | Raise x => Raise x
  end.

Definition is_Ok {A} (m : result A) : Prop := exists a, m = Ok a.

Definition raises {A} (m : result A) : Prop := exists x, m = Raise x.

(** ** Python primitives *)

(** [x / y] on two Python numbers. *)
Definition py_truediv (x y : R) : result R :=
  if Req_dec_T y 0 then Raise ZeroDivisionError else Ok (x / y).

(** An entry of a path list: a plain Python number or a NumPy scalar. *)
Inductive scalar : Set :=
| PyNum (x : R)
| NpNum (x : R).

Definition value (s : scalar) : R :=
  match s with
  | PyNum x => x
  | NpNum x => x
  end.

(** [x / y] for a list entry [x] and a Python number [y]. *)
Definition scalar_truediv (x : scalar) (y : R) : result R :=
  match x with
  | PyNum a => py_truediv a y
  | NpNum a => Ok (a / y)
  end.

(** [int(x)] on a float: truncation toward zero. *)
Definition py_int (x : R) : Z :=
  if Rle_dec 0 x then Zfloor x else Zceil x.

(** [max(a, b)]: the builtin keeps its first argument unless the second one
    is strictly greater. *)
Definition py_max (a b : R) : R :=
  if Rlt_dec a b then b else a.

(** [sum(l)]: left to right, starting from 0. *)
Definition py_sum (l : list R) : R := foldl Rplus 0 l.

(** The position a Python index denotes in a list of length [n]. *)
Definition py_index (n : nat) (i : Z) : result nat :=
  if decide (0 <= i < Z.of_nat n)%Z then Ok (Z.to_nat i)
  else if decide (- Z.of_nat n <= i < 0)%Z then Ok (Z.to_nat (Z.of_nat n + i))
  else Raise IndexError.

(** [l[i]] *)
Definition py_getitem {A : Type} (l : list A) (i : Z) : result A :=
  k ← py_index (length l) i;
  match l !! k with
  | Some v => Ok v
  | None => Raise IndexError
  end.

(** [l[i] = v] *)
Definition py_setitem {A : Type} (l : list A) (i : Z) (v : A) : result (list A) :=
  k ← py_index (length l) i;
  Ok (<[k := v]> l).

(** [for i in <is>: s = body(i, s)], stopping at the first exception. *)
Fixpoint for_range {S : Type} (body : nat -> S -> result S)
    (indices : list nat) (s : S) : result S :=
  match indices with
  | [] => Ok s
  | i :: rest => s' ← body i s; for_range body rest s'
  end.

(** [range(n)] for a Python integer [n] (empty when [n <= 0]). *)
Definition py_range (n : Z) : list nat := seq 0 (Z.to_nat n).

(** ** Option_Pricing.py: the cumulative average *)

(** [[sum(listt[:i + 1]) / (i + 1) for i in range(len(listt))]].  The
    divisor [i + 1] is at least 1, the division cannot raise. *)
Definition cumulative_average_of_list (listt : list R) : list R :=
  (fun i : nat => py_sum (take (i + 1) listt) / INR (i + 1)) <$> seq 0 (length listt).

(** The arithmetic mean in the spec's words: the sum of the values over
    their number. *)
Definition arithmetic_mean (xs : list R) : R :=
  foldr Rplus 0 xs / INR (length xs).

(** ** External libraries

    The spline routines of SciPy and the legacy global generator of NumPy are
    not part of the repository: the model is parameterised by them. *)

(** [scipy.interpolate]: [tck] is the spline representation returned by
    [splrep], [splev x tck der] is [interpolate.splev(x, tck, der=der)]. *)
Class SciPy : Type := {
  tck : Type;
  splev : R -> tck -> nat -> R
}.

(** [numpy.random]: the state of the global generator, the state
    [np.random.seed(s)] installs for an integer seed [s], and one standard
    normal draw together with the state after it. *)
Class NumPyRandom : Type := {
  RandomState : Type;
  init_by_seed : Z -> RandomState;
  legacy_gauss : RandomState -> R * RandomState
}.

Section Model.

Context {interpolate : SciPy} {random : NumPyRandom}.

(** ** Bond_Data.py *)

Record Bond_Data : Type := { tck_bond : tck }.

Definition get_value_on_cubic_spline_for_bond_prices (self : Bond_Data) (x_indexes : R) : R :=
  splev x_indexes (tck_bond self) 0.

Definition get_value_for_forward_rate (self : Bond_Data) (x_indexes : R) : R :=
  let bond_prices_approx := splev x_indexes (tck_bond self) 0 in
  let first_derivative_bond_prices_approx := splev x_indexes (tck_bond self) 1 in
  - first_derivative_bond_prices_approx / bond_prices_approx.

Definition get_value_for_T_derivative_of_forward_rate (self : Bond_Data) (x_indexes : R) : R :=
  let bond_prices_approx := splev x_indexes (tck_bond self) 0 in
  let first_derivative_bond_prices_approx := splev x_indexes (tck_bond self) 1 in
  let second_derivative_bond_prices_approx := splev x_indexes (tck_bond self) 2 in
  -1 / bond_prices_approx * second_derivative_bond_prices_approx
  + 1 / bond_prices_approx ^ 2 * first_derivative_bond_prices_approx
    * first_derivative_bond_prices_approx.

(** ** The process-wide random source *)

(** The global generator, and the operating system's entropy that
    [np.random.seed(None)] reads: [os_entropy k] is what the [k]-th read
    returns. *)
Record world : Type := {
  np_random : RandomState;
  os_entropy : nat -> RandomState;
  entropy_reads : nat
}.

(** [np.random.seed(seed)]: an integer seed must lie in [0, 2**32 - 1]. *)
Definition np_random_seed (seed : option Z) (w : world) : result world :=
  match seed with
  | None =>
      Ok {| np_random := os_entropy w (entropy_reads w);
            os_entropy := os_entropy w;
            entropy_reads := S (entropy_reads w) |}
  | Some s =>
      if decide (0 <= s < 2 ^ 32)%Z
      then Ok {| np_random := init_by_seed s;
                 os_entropy := os_entropy w;
                 entropy_reads := entropy_reads w |}
      else Raise ValueError
  end.

(** The rows of a [rows] x 2 array filled in row-major order. *)
Fixpoint draw_rows (rows : nat) (st : RandomState) : list (R * R) * RandomState :=
  match rows with
  | O => ([], st)
  | S rows' =>
      let '(epsilon1, st1) := legacy_gauss st in
      let '(epsilon2, st2) := legacy_gauss st1 in
      let '(rest, st') := draw_rows rows' st2 in
      ((epsilon1, epsilon2) :: rest, st')
  end.

(** [np.random.normal(0, 1, [rows, 2])]: a negative dimension is refused. *)
Definition np_random_normal (rows : Z) (w : world) : result (list (R * R) * world) :=
  if decide (rows < 0)%Z then Raise ValueError
  else
    let '(rands, st) := draw_rows (Z.to_nat rows) (np_random w) in
    Ok (rands, {| np_random := st;
                  os_entropy := os_entropy w;
                  entropy_reads := entropy_reads w |}).

(** ** SIngle_time_Monte_Carlo.py *)

Record Single_time_Monte_Carlo : Type := {
  bond_data : Bond_Data;
  domestic_risk_free_rate_vol : R;
  mean_reversion_speed : R;
  maturity_T : R;
  iteration_times : Z;
  timestep : R;
  timeline : list R;
  domestic_risk_free_rate_list : list scalar;
  nikkei_price_list : list scalar;
  current_federal_funds_rate : R;
  current_nikkei_price : R;
  correlation_foreign_asset_and_domestic_risk_free_rate : R;
  correlation_foreign_asset_and_exchange_rate : R;
  foreign_risk_free_rate : R;
  nikkei_dividends : R;
  foreign_asset_vol : R;
  exchange_rate_vol : R;
  Delta : R;
  strike_price_nikkei : R;
  strike_price_libor : R;
  random_seed : option Z
}.

(** The constructor's arguments, in the order of its signature. *)
Record init_args : Type := {
  arg_bond_data : Bond_Data;
  arg_domestic_risk_free_rate_vol : R;
  arg_mean_reversion_speed : R;
  arg_maturity_T : R;
  arg_Delta : R;
  arg_strike_price_nikkei : R;
  arg_strike_price_libor : R;
  arg_iteration_times : Z;
  arg_current_federal_funds_rate : R;
  arg_current_nikkei_price : R;
  arg_correlation_foreign_asset_and_domestic_risk_free_rate : R;
  arg_correlation_foreign_asset_and_exchange_rate : R;
  arg_foreign_risk_free_rate : R;
  arg_nikkei_dividends : R;
  arg_foreign_asset_vol : R;
  arg_exchange_rate_vol : R;
  arg_random_seed : option Z
}.

(** The object [__init__] leaves behind once [timestep] is computed. *)
Definition constructed (a : init_args) (timestep0 : R) : Single_time_Monte_Carlo :=
  {| bond_data := arg_bond_data a;
     domestic_risk_free_rate_vol := arg_domestic_risk_free_rate_vol a;
     mean_reversion_speed := arg_mean_reversion_speed a;
     maturity_T := arg_maturity_T a;
     iteration_times := arg_iteration_times a;
     timestep := timestep0;
     timeline := (fun i : nat => timestep0 * INR i) <$> py_range (arg_iteration_times a + 1);
     domestic_risk_free_rate_list := replicate (Z.to_nat (arg_iteration_times a + 1)) (PyNum 0);
     nikkei_price_list := replicate (Z.to_nat (arg_iteration_times a + 1)) (PyNum 0);
     current_federal_funds_rate := arg_current_federal_funds_rate a;
     current_nikkei_price := arg_current_nikkei_price a;
     correlation_foreign_asset_and_domestic_risk_free_rate :=
       arg_correlation_foreign_asset_and_domestic_risk_free_rate a;
     correlation_foreign_asset_and_exchange_rate :=
       arg_correlation_foreign_asset_and_exchange_rate a;
     foreign_risk_free_rate := arg_foreign_risk_free_rate a;
     nikkei_dividends := arg_nikkei_dividends a;
     foreign_asset_vol := arg_foreign_asset_vol a;
     exchange_rate_vol := arg_exchange_rate_vol a;
     Delta := arg_Delta a;
     strike_price_nikkei := arg_strike_price_nikkei a;
     strike_price_libor := arg_strike_price_libor a;
     random_seed := arg_random_seed a |}.

(** [Single_time_Monte_Carlo(...)]: the only statement that can raise is
    [maturity_T / iteration_times]; no argument is checked. *)
Definition __init__ (a : init_args) : result Single_time_Monte_Carlo :=
  timestep0 ← py_truediv (arg_maturity_T a) (IZR (arg_iteration_times a));
  Ok (constructed a timestep0).

(** The object with its two path lists replaced. *)
Definition set_lists (self : Single_time_Monte_Carlo) (rates prices : list scalar)
    : Single_time_Monte_Carlo :=
  {| bond_data := bond_data self;
     domestic_risk_free_rate_vol := domestic_risk_free_rate_vol self;
     mean_reversion_speed := mean_reversion_speed self;
     maturity_T := maturity_T self;
     iteration_times := iteration_times self;
     timestep := timestep self;
     timeline := timeline self;
     domestic_risk_free_rate_list := rates;
     nikkei_price_list := prices;
     current_federal_funds_rate := current_federal_funds_rate self;
     current_nikkei_price := current_nikkei_price self;
     correlation_foreign_asset_and_domestic_risk_free_rate :=
       correlation_foreign_asset_and_domestic_risk_free_rate self;
     correlation_foreign_asset_and_exchange_rate :=
       correlation_foreign_asset_and_exchange_rate self;
     foreign_risk_free_rate := foreign_risk_free_rate self;
     nikkei_dividends := nikkei_dividends self;
     foreign_asset_vol := foreign_asset_vol self;
     exchange_rate_vol := exchange_rate_vol self;
     Delta := Delta self;
     strike_price_nikkei := strike_price_nikkei self;
     strike_price_libor := strike_price_libor self;
     random_seed := random_seed self |}.

(** *** Calibration functions *)

Definition B_t_T (self : Single_time_Monte_Carlo) (t T : R) : result R :=
  q ← py_truediv 1 (mean_reversion_speed self);
  Ok (q * (1 - exp (- mean_reversion_speed self * (T - t)))).

Definition G (self : Single_time_Monte_Carlo) (t : R) : result R :=
  b ← B_t_T self 0 t;
  Ok (0.5 * domestic_risk_free_rate_vol self ^ 2 * b ^ 2).

Definition first_derivative_of_G (self : Single_time_Monte_Carlo) (t : R) : result R :=
  b ← B_t_T self 0 t;
  Ok (domestic_risk_free_rate_vol self ^ 2 * b * exp (- mean_reversion_speed self * t)).

Definition Theta (self : Single_time_Monte_Carlo) (t : R) : result R :=
  dg ← first_derivative_of_G self t;
  g ← G self t;
  Ok (get_value_for_T_derivative_of_forward_rate (bond_data self) t + dg
      + mean_reversion_speed self * (get_value_for_forward_rate (bond_data self) t + g)).

Definition p_t_T (self : Single_time_Monte_Carlo) (t T r_t : R) : result R :=
  b1 ← B_t_T self t T;
  q ← py_truediv 1 (4 * mean_reversion_speed self);
  b2 ← B_t_T self t T;
  b3 ← B_t_T self t T;
  Ok (get_value_on_cubic_spline_for_bond_prices (bond_data self) T
      / get_value_on_cubic_spline_for_bond_prices (bond_data self) t
      * exp (b1 * get_value_for_forward_rate (bond_data self) t
             - q * domestic_risk_free_rate_vol self ^ 2 * b2 ^ 2
               * (1 - exp (-2 * mean_reversion_speed self * t))
             - b3 * r_t)).

(** *** The simulation *)

(** The body of the loop of [start_monte_carlo] at index [i], on the two
    path lists.  Both right-hand sides contain [np.sqrt] and a random draw:
    what is stored is a NumPy scalar. *)
Definition monte_carlo_step (self : Single_time_Monte_Carlo) (rands : list (R * R))
    (i : nat) (lists : list scalar * list scalar) : result (list scalar * list scalar) :=
  let '(rates, prices) := lists in
  match rands !! i with
  | None => Raise IndexError
  | Some (epsilon1, epsilon2) =>
      r_i ← py_getitem rates (Z.of_nat i);
      theta ← Theta self (INR i * timestep self);
      r_i' ← py_getitem rates (Z.of_nat i);
      rates' ← py_setitem rates (Z.of_nat i + 1)
        (NpNum
           (value r_i
            + (theta - mean_reversion_speed self * value r_i') * timestep self
            + domestic_risk_free_rate_vol self * sqrt (timestep self)
              * (correlation_foreign_asset_and_domestic_risk_free_rate self * epsilon2
                 + sqrt (1 - correlation_foreign_asset_and_domestic_risk_free_rate self ^ 2)
                   * epsilon1)));
      s_i ← py_getitem prices (Z.of_nat i);
      prices' ← py_setitem prices (Z.of_nat i + 1)
        (NpNum
           (value s_i
            + value s_i
              * (foreign_risk_free_rate self
                 - nikkei_dividends self
                 - correlation_foreign_asset_and_exchange_rate self
                   * foreign_asset_vol self * exchange_rate_vol self)
              * timestep self
            + value s_i * foreign_asset_vol self * sqrt (timestep self) * epsilon2));
      Ok (rates', prices')
  end.

Definition start_monte_carlo (self : Single_time_Monte_Carlo) (w : world)
    : result (Single_time_Monte_Carlo * world) :=
  rates0 ← py_setitem (domestic_risk_free_rate_list self) 0
             (PyNum (current_federal_funds_rate self));
  prices0 ← py_setitem (nikkei_price_list self) 0 (PyNum (current_nikkei_price self));
  w1 ← np_random_seed (random_seed self) w;
  '(rands, w2) ← np_random_normal (iteration_times self) w1;
  '(rates, prices) ← for_range (monte_carlo_step self rands)
                        (py_range (iteration_times self)) (rates0, prices0);
  Ok (set_lists self rates prices, w2).

(** *** Read-outs of the path *)

Definition get_domestic_risk_free_rate_at_a_specified_time
    (self : Single_time_Monte_Carlo) (time : R) : result scalar :=
  q ← py_truediv time (timestep self);
  let index_in_list := py_int q in
  py_getitem (domestic_risk_free_rate_list self) index_in_list.

Definition get_nikkei_price_at_a_specified_time
    (self : Single_time_Monte_Carlo) (time : R) : result scalar :=
  q ← py_truediv time (timestep self);
  let index_in_list := py_int q in
  py_getitem (nikkei_price_list self) index_in_list.

Definition libor_rate_ratio (self : Single_time_Monte_Carlo) (t T : R) : result R :=
  r_t ← get_domestic_risk_free_rate_at_a_specified_time self t;
  p ← p_t_T self t T (value r_t);
  Ok (get_value_on_cubic_spline_for_bond_prices (bond_data self) T
      / (get_value_on_cubic_spline_for_bond_prices (bond_data self) t
         - get_value_on_cubic_spline_for_bond_prices (bond_data self) T)
      * (1 / p - 1)).

(** The division of the price read at maturity by [current_nikkei_price]
    raises only if that entry is still a Python number. *)
Definition price_Exotic_Option_at_maturity (self : Single_time_Monte_Carlo) : result R :=
  s_T ← get_nikkei_price_at_a_specified_time self (maturity_T self);
  q ← scalar_truediv s_T (current_nikkei_price self);
  l ← libor_rate_ratio self (maturity_T self - Delta self) (maturity_T self);
  Ok (py_max 0 ((q - strike_price_nikkei self) * (strike_price_libor self - l))).

Definition discount_factor (self : Single_time_Monte_Carlo) (T : R) : result R :=
  q ← py_truediv T (timestep self);
  let end_index := py_int q in
  sum_of_short_rates ← for_range
    (fun i acc =>
       r_i ← py_getitem (domestic_risk_free_rate_list self) (Z.of_nat i);
       Ok (acc + value r_i * timestep self))
    (py_range end_index) 0;
  Ok (exp (- sum_of_short_rates)).

Definition current_price_Exotic_Option (self : Single_time_Monte_Carlo) : result R :=
  d ← discount_factor self (maturity_T self);
  v ← price_Exotic_Option_at_maturity self;
  Ok (d * v).

(** ** Option_Pricing.py: the aggregation loop *)

(** The state of the loop: the engine, the random source, the columns of
    [df_domestic_short_rate_processes] (column [i] holds the values of the
    rate path of run [i]) and [list_of_prices_Exotic_option]. *)
Record aggregation : Type := {
  single_time_monte_carlo : Single_time_Monte_Carlo;
  random_source : world;
  df_domestic_short_rate_processes : list (list R);
  list_of_prices_Exotic_option : list R
}.

(** The body of [for i in range(NUM_SIMULATION)]. *)
Definition simulation_step (i : nat) (st : aggregation) : result aggregation :=
  '(engine, w) ← start_monte_carlo (single_time_monte_carlo st) (random_source st);
  v ← price_Exotic_Option_at_maturity engine;
  Ok {| single_time_monte_carlo := engine;
        random_source := w;
        df_domestic_short_rate_processes :=
          df_domestic_short_rate_processes st
          ++ [value <$> domestic_risk_free_rate_list engine];
        list_of_prices_Exotic_option := list_of_prices_Exotic_option st ++ [v] |}.

Definition simulation_loop (NUM_SIMULATION : Z) (engine : Single_time_Monte_Carlo)
    (w : world) : result aggregation :=
  for_range simulation_step (py_range NUM_SIMULATION)
    {| single_time_monte_carlo := engine;
       random_source := w;
       df_domestic_short_rate_processes := [];
       list_of_prices_Exotic_option := [] |}.

(** ** Reachable engine states *)

(** An engine is reachable when the constructor returned it, or a simulation
    run on a reachable engine did. *)
Inductive reachable : Single_time_Monte_Carlo -> Prop :=
| reachable_init (a : init_args) (self : Single_time_Monte_Carlo) :
    __init__ a = Ok self -> reachable self
| reachable_run (self self' : Single_time_Monte_Carlo) (w w' : world) :
    reachable self -> start_monte_carlo self w = Ok (self', w') -> reachable self'.

(** An engine is simulated when a run on a reachable engine returned it. *)
Inductive simulated : Single_time_Monte_Carlo -> Prop :=
| simulated_run (self self' : Single_time_Monte_Carlo) (w w' : world) :
    reachable self -> start_monte_carlo self w = Ok (self', w') -> simulated self'.

(** What the constructor establishes and the simulation keeps. *)
Record well_formed (self : Single_time_Monte_Carlo) : Prop := {
  wf_iterations : iteration_times self <> 0%Z;
  wf_timestep : timestep self = maturity_T self / IZR (iteration_times self);
  wf_rates : length (domestic_risk_free_rate_list self) = Z.to_nat (iteration_times self + 1);
  wf_prices : length (nikkei_price_list self) = Z.to_nat (iteration_times self + 1)
}.

(** The seeds [np.random.seed] accepts: [None], or an integer of 32 bits. *)
Definition seed_accepted (seed : option Z) : Prop :=
  match seed with
  | Some s => (0 <= s < 2 ^ 32)%Z
  | None => True
  end.

(** Two engines with the same parameters: they differ at most in the two
    path lists. *)
Definition same_parameters (self other : Single_time_Monte_Carlo) : Prop :=
  other = set_lists self (domestic_risk_free_rate_list other) (nikkei_price_list other).

(** ** The formulas of the specification *)

(** [B(t,T) = (1 - exp(-a*(T-t))) / a] *)
Definition B_spec (a t T : R) : R := (1 - exp (- a * (T - t))) / a.

(** [G(t) = 0.5 * sigma_d^2 * B(0,t)^2] *)
Definition G_spec (a sigma_d t : R) : R := 0.5 * sigma_d ^ 2 * B_spec a 0 t ^ 2.

(** [dG/dt(t) = sigma_d^2 * B(0,t) * exp(-a*t)] *)
Definition dG_dt_spec (a sigma_d t : R) : R := sigma_d ^ 2 * B_spec a 0 t * exp (- a * t).

(** [Theta(t) = forwardRateSlope(t) + dG/dt(t) + a * (forwardRate(t) + G(t))] *)
Definition Theta_spec (curve : Bond_Data) (a sigma_d t : R) : R :=
  get_value_for_T_derivative_of_forward_rate curve t + dG_dt_spec a sigma_d t
  + a * (get_value_for_forward_rate curve t + G_spec a sigma_d t).

(** [p(t,T,r_t) = price(T)/price(t) * exp(B(t,T)*forwardRate(t)
    - B(t,T)^2*sigma_d^2/(4a)*(1-exp(-2a t)) - B(t,T)*r_t)] *)
Definition p_spec (curve : Bond_Data) (a sigma_d t T r_t : R) : R :=
  get_value_on_cubic_spline_for_bond_prices curve T
  / get_value_on_cubic_spline_for_bond_prices curve t
  * exp (B_spec a t T * get_value_for_forward_rate curve t
         - B_spec a t T ^ 2 * sigma_d ^ 2 / (4 * a) * (1 - exp (- 2 * a * t))
         - B_spec a t T * r_t).

(** [liborRatio(t,T) = price(T) / (price(t) - price(T)) * (1/p(t,T,r_t) - 1)] *)
Definition libor_ratio_spec (curve : Bond_Data) (a sigma_d t T r_t : R) : R :=
  get_value_on_cubic_spline_for_bond_prices curve T
  / (get_value_on_cubic_spline_for_bond_prices curve t
     - get_value_on_cubic_spline_for_bond_prices curve T)
  * (1 / p_spec curve a sigma_d t T r_t - 1).

(** One Euler-Maruyama step of the short rate, with the drift value [theta]. *)
Definition rate_step_spec (self : Single_time_Monte_Carlo) (theta r eps1 eps2 : R) : R :=
  r + (theta - mean_reversion_speed self * r) * timestep self
  + domestic_risk_free_rate_vol self * sqrt (timestep self)
    * (correlation_foreign_asset_and_domestic_risk_free_rate self * eps2
       + sqrt (1 - correlation_foreign_asset_and_domestic_risk_free_rate self ^ 2) * eps1).

(** One Euler-Maruyama step of the asset price. *)
Definition price_step_spec (self : Single_time_Monte_Carlo) (s eps2 : R) : R :=
  s + s * (foreign_risk_free_rate self - nikkei_dividends self
           - correlation_foreign_asset_and_exchange_rate self
             * foreign_asset_vol self * exchange_rate_vol self) * timestep self
  + s * foreign_asset_vol self * sqrt (timestep self) * eps2.

(** [Σ_{i < n} f i] *)
Fixpoint big_sum (n : nat) (f : nat -> R) : R :=
  match n with
  | O => 0
  | S n' => big_sum n' f + f n'
  end.

(** The drift value the loop uses at step [i]. *)
Definition drift_at (self : Single_time_Monte_Carlo) (i : nat) : R :=
  Theta_spec (bond_data self) (mean_reversion_speed self)
    (domestic_risk_free_rate_vol self) (INR i * timestep self).

(** The two lists obey the update rule at every step from [k] to [k + m - 1]. *)
Definition follows_recurrence (self : Single_time_Monte_Carlo) (rands : list (R * R))
    (rates prices : list scalar) (k m : nat) : Prop :=
  forall i, (k <= i < k + m)%nat ->
    exists epsilon1 epsilon2 r s,
      rands !! i = Some (epsilon1, epsilon2)
      /\ rates !! i = Some r /\ prices !! i = Some s
      /\ rates !! S i
         = Some (NpNum (rate_step_spec self (drift_at self i) (value r) epsilon1 epsilon2))
      /\ prices !! S i = Some (NpNum (price_step_spec self (value s) epsilon2)).

(** The parameters the specification calls invalid. *)
Definition invalid_parameters (a : init_args) : Prop :=
  arg_mean_reversion_speed a <= 0
  \/ ~ (-1 <= arg_correlation_foreign_asset_and_domestic_risk_free_rate a <= 1)
  \/ ~ (-1 <= arg_correlation_foreign_asset_and_exchange_rate a <= 1)
  \/ arg_domestic_risk_free_rate_vol a <= 0
  \/ arg_foreign_asset_vol a <= 0
  \/ arg_exchange_rate_vol a <= 0
  \/ (arg_iteration_times a <= 0)%Z.

End Model.

(** ** A concrete market and contract

    A flat discount curve at zero yield ([price = 1] everywhere, both
    derivatives 0), a generator whose state is a counter and whose draws are
    the successive counter values, and the contract of [Option_Pricing.py]
    (maturity 3 years, accrual offset 3 months, both strikes 1) on two
    steps. *)

Definition flat_splev (x : R) (t : unit) (der : nat) : R :=
  match der with
  | O => 1
  | S _ => 0
  end.

Definition flat_curve : SciPy := {| tck := unit; splev := flat_splev |}.

Definition counter_seed (s : Z) : nat := Z.to_nat s.

Definition counter_gauss (st : nat) : R * nat := (INR st, S st).

Definition counter_generator : NumPyRandom :=
  {| RandomState := nat; init_by_seed := counter_seed; legacy_gauss := counter_gauss |}.

Section Sample.

#[local] Existing Instance flat_curve.
#[local] Existing Instance counter_generator.

Definition sample_world : world :=
  {| np_random := 0%nat; os_entropy := fun k => k; entropy_reads := 0 |}.

Definition later_world : world :=
  {| np_random := 41%nat; os_entropy := fun k => (2 * k)%nat; entropy_reads := 5 |}.

Definition sample_args : init_args :=
  {| arg_bond_data := {| tck_bond := tt |};
     arg_domestic_risk_free_rate_vol := 0.015;
     arg_mean_reversion_speed := 0.03;
     arg_maturity_T := 3;
     arg_Delta := 0.25;
     arg_strike_price_nikkei := 1;
     arg_strike_price_libor := 1;
     arg_iteration_times := 2;
     arg_current_federal_funds_rate := 0.01;
     arg_current_nikkei_price := 100;
     arg_correlation_foreign_asset_and_domestic_risk_free_rate := 0.3;
     arg_correlation_foreign_asset_and_exchange_rate := 0.5;
     arg_foreign_risk_free_rate := -0.001;
     arg_nikkei_dividends := 0.02;
     arg_foreign_asset_vol := 0.2478;
     arg_exchange_rate_vol := 0.0973;
     arg_random_seed := Some 7%Z |}.

Definition sample_engine : Single_time_Monte_Carlo := constructed sample_args (3 / 2).

(** Every parameter the specification calls invalid, at once. *)
Definition unchecked_args : init_args :=
  {| arg_bond_data := {| tck_bond := tt |};
     arg_domestic_risk_free_rate_vol := -1;
     arg_mean_reversion_speed := -1;
     arg_maturity_T := 3;
     arg_Delta := 0.25;
     arg_strike_price_nikkei := 1;
     arg_strike_price_libor := 1;
     arg_iteration_times := -3;
     arg_current_federal_funds_rate := 0.01;
     arg_current_nikkei_price := 100;
     arg_correlation_foreign_asset_and_domestic_risk_free_rate := 2;
     arg_correlation_foreign_asset_and_exchange_rate := -2;
     arg_foreign_risk_free_rate := -0.001;
     arg_nikkei_dividends := 0.02;
     arg_foreign_asset_vol := -1;
     arg_exchange_rate_vol := 0;
     arg_random_seed := None |}.

End Sample.

(** ** Closed forms of the simulated paths *)

(** [Π_{k < n} f k] *)
Fixpoint big_prod (n : nat) (f : nat -> R) : R :=
  match n with
  | O => 1
  | S n' => big_prod n' f * f n'
  end.

Section Growth.

Context {interpolate : SciPy}.

(** The factor by which one step of the simulation multiplies the asset
    price, for the second draw [eps2] of the step. *)
Definition growth_factor (self : Single_time_Monte_Carlo) (eps2 : R) : R :=
  1
  + (foreign_risk_free_rate self - nikkei_dividends self
     - correlation_foreign_asset_and_exchange_rate self
       * foreign_asset_vol self * exchange_rate_vol self) * timestep self
  + foreign_asset_vol self * sqrt (timestep self) * eps2.

(** The textbook drift of the Hull-White model:
    [f_T(0,t) + a*f(0,t) + sigma_d^2/(2a) * (1 - exp(-2at))]. *)
Definition hull_white_drift (curve : Bond_Data) (a sigma_d t : R) : R :=
  get_value_for_T_derivative_of_forward_rate curve t
  + a * get_value_for_forward_rate curve t
  + sigma_d ^ 2 / (2 * a) * (1 - exp (- 2 * a * t)).

End Growth.

(** * Market data

    The modules that fetch the inputs of the engine.  The network requests
    and the parsers ([requests], [xmltodict], [BeautifulSoup], [fredapi])
    are outside the repository: each function is modelled from the point
    where it holds the parsed document or the downloaded series. *)

(** [[f(x) for x in l]] with an element expression that may raise. *)
Fixpoint comprehension {A B : Type} (f : A -> result B) (l : list A) : result (list B) :=
  match l with
  | [] => Ok []
  | x :: rest => y ← f x; ys ← comprehension f rest; Ok (y :: ys)
  end.

(** ** Bond_Data.py: from the quoted yields to zero-coupon prices *)

(** [self.years], set once by [Bond_Data.__init__]. *)
Definition years : list R :=
  [1 / 12; 2 / 12; 3 / 12; 6 / 12; 12 / 12; 24 / 12; 36 / 12; 60 / 12;
   84 / 12; 120 / 12; 240 / 12; 360 / 12].

Definition get_bond_prices (yields_in_percentage : list R) : result (list R) :=
  comprehension
    (fun i : nat =>
       y ← py_getitem yields_in_percentage (Z.of_nat i);
       t ← py_getitem years (Z.of_nat i);
       Ok (exp (- y / 100 * t)))
    (py_range 12).

(** ** Bond_Data.py: the parsed XML document

    [xmltodict.parse] returns nested dictionaries with string keys; an element
    repeated under one parent becomes a list, a leaf its text, an empty
    element [None]. *)

#[warnings="-register-all"] Inductive xml : Type :=
| XText (s : string)
| XNone
| XDict (items : list (string * xml))
| XList (items : list xml).

(** The exceptions of the document look-ups, beside the builtin ones of
    the engine. *)
Inductive py_exn : Set :=
| Builtin (e : exn)
| KeyError
| TypeError
| UnboundLocalError.

Inductive outcome (A : Type) : Type :=
| Return (a : A)
| Throw (e : py_exn).

Arguments Return {A} a.
Arguments Throw {A} e.

#[global] Instance outcome_ret : MRet outcome := fun A a => Return a.

#[global] Instance outcome_bind : MBind outcome := fun A B f m =>
  match m with
  | Return a => f a
  | Throw e => Throw e
  end.

Definition lift {A : Type} (m : result A) : outcome A :=
  match m with
  | Ok a => Return a
  | Raise e => Throw (Builtin e)
  end.

Fixpoint assoc (items : list (string * xml)) (key : string) : option xml :=
  match items with
  | [] => None
  | (k, v) :: rest => if String.eqb k key then Some v else assoc rest key
  end.

(** [d[key]] for a string [key]. *)
Definition getitem_key (d : xml) (key : string) : outcome xml :=
  match d with
  | XDict items =>
      match assoc items key with
      | Some v => Return v
      | None => Throw KeyError
      end
  | XText _ | XNone | XList _ => Throw TypeError
  end.

(** [d[i]] for an integer [i]: a list is indexed, a string gives its
    character, a dictionary (whose keys are strings) has no such key. *)
Definition getitem_int (d : xml) (i : Z) : outcome xml :=
  match d with
  | XList items => lift (py_getitem items i)
  | XText s => lift (c ← py_getitem (String.list_ascii_of_string s) i; Ok (XText (String c EmptyString)))
  | XDict _ => Throw KeyError
  | XNone => Throw TypeError
  end.

(** [data['QR_BC_CM']['LIST_G_WEEK_OF_MONTH']['G_WEEK_OF_MONTH']] *)
Definition weeks_of_month (data : xml) : outcome xml :=
  d ← getitem_key data "QR_BC_CM";
  d ← getitem_key d "LIST_G_WEEK_OF_MONTH";
  getitem_key d "G_WEEK_OF_MONTH".

(** [week['LIST_G_NEW_DATE']['G_NEW_DATE']] *)
Definition days_of_week (week : xml) : outcome xml :=
  d ← getitem_key week "LIST_G_NEW_DATE";
  getitem_key d "G_NEW_DATE".

(** The loop over [i = 4, 3, 2, 1, 0]: the first index that can be read
    ends it; the bare [except] catches whatever the look-up raised and
    binds the whole entry instead, an exception of the handler itself
    propagates. *)
Fixpoint week_loop (data : xml) (indices : list Z) (last_week_of_the_month_data : option xml)
    : outcome (option xml) :=
  match indices with
  | [] => Return last_week_of_the_month_data
  | i :: rest =>
      match (w ← weeks_of_month data; getitem_int w i) with
      | Return week => Return (Some week)
      | Throw _ =>
          w ← weeks_of_month data;
          week_loop data rest (Some w)
      end
  end.

Definition get_data_for_newest_day (data : xml) : outcome xml :=
  bound ← week_loop data [4; 3; 2; 1; 0]%Z None;
  match bound with
  | None => Throw UnboundLocalError
  | Some last_week_of_the_month_data =>
      match (d ← days_of_week last_week_of_the_month_data; getitem_int d (-1)) with
      | Return day => Return day
      | Throw _ => days_of_week last_week_of_the_month_data
      end
  end.

(** What the two selections amount to: of a list of weeks the entry at
    index 4 when there are five or more and the last one otherwise, of a
    list of days the last one, and a single entry (a dictionary) itself. *)
Definition chosen_week (entry : xml) : option xml :=
  match entry with
  | XList weeks => weeks !! (min (length weeks) 5 - 1)%nat
  | XDict _ => Some entry
  | XText _ | XNone => None
  end.

Definition chosen_day (entry : xml) : option xml :=
  match entry with
  | XList days => last days
  | XDict _ => Some entry
  | XText _ | XNone => None
  end.

(** [data['LIST_G_BC_CAT']['G_BC_CAT'][key]] *)
Definition bc_cat (data : xml) (key : string) : outcome xml :=
  d ← getitem_key data "LIST_G_BC_CAT";
  d ← getitem_key d "G_BC_CAT";
  getitem_key d key.

Definition put_all_data_in_list (data : xml) : outcome (list xml) :=
  bid_curve_date ← getitem_key data "BID_CURVE_DATE";
  day_of_week ← getitem_key data "DAY_OF_WEEK";
  m1 ← bc_cat data "BC_1MONTH";
  m2 ← bc_cat data "BC_2MONTH";
  m3 ← bc_cat data "BC_3MONTH";
  m6 ← bc_cat data "BC_6MONTH";
  y1 ← bc_cat data "BC_1YEAR";
  y2 ← bc_cat data "BC_2YEAR";
  y3 ← bc_cat data "BC_3YEAR";
  y5 ← bc_cat data "BC_5YEAR";
  y7 ← bc_cat data "BC_7YEAR";
  y10 ← bc_cat data "BC_10YEAR";
  y20 ← bc_cat data "BC_20YEAR";
  y30 ← bc_cat data "BC_30YEAR";
  Return [bid_curve_date; day_of_week; m1; m2; m3; m6; y1; y2; y3; y5; y7; y10; y20; y30].

(** [float(s)] on a string: the parsed number, [ValueError] when [s] is no
    numeral. *)
Class PyFloat : Type := {
  float : string -> result R
}.

(** [datetime.date], the FRED series (a missing observation is NaN, here
    [None]) and [numpy.corrcoef(x, y)[0, 1]]. *)
Record date : Set := { year : Z; month : Z; day : Z }.

Class Fred : Type := {
  get_series : string -> date -> date -> result (list (option R))
}.

Class NumPyStats : Type := {
  corrcoef : list R -> list R -> R
}.

Section MarketData.

Context {parser : PyFloat} {fred : Fred} {stats : NumPyStats}.

(** [float(x)] on an entry of the document. *)
Definition float_of (x : xml) : outcome R :=
  match x with
  | XText s => lift (float s)
  | XNone | XDict _ | XList _ => Throw TypeError
  end.

Fixpoint floats (yields_strings : list xml) : outcome (list R) :=
  match yields_strings with
  | [] => Return []
  | i :: rest => y ← float_of i; ys ← floats rest; Return (y :: ys)
  end.

Definition only_yields_in_percentage (data : xml) : outcome (list R) :=
  list1 ← put_all_data_in_list data;
  let yields_strings := drop 2 list1 in
  floats yields_strings.

(** [Bond_Data.__init__] up to the raw prices handed to [splrep]. *)
Definition bond_prices_of_document (document : xml) : outcome (list R) :=
  data ← get_data_for_newest_day document;
  yields_in_percentage ← only_yields_in_percentage data;
  lift (get_bond_prices yields_in_percentage).

(** ** Nikkei_Data.py *)

(** The search for the cell whose text is the update date: [pivot] keeps
    its initial 0 when no cell matches. *)
Fixpoint pivot_loop (cells : list string) (last_update_date : string) (i pivot : nat) : nat :=
  match cells with
  | [] => pivot
  | cell :: rest =>
      if String.eqb cell last_update_date then i
      else pivot_loop rest last_update_date (S i) pivot
  end.

(** [get_latest_dividend_yield] from the text of the update date and the
    texts of the table cells. *)
Definition get_latest_dividend_yield
    (last_update_date : string) (list_of_html_table_data_cells : list string) : result R :=
  let pivot := pivot_loop list_of_html_table_data_cells last_update_date 0 0 in
  cell ← py_getitem list_of_html_table_data_cells (Z.of_nat pivot + 1);
  percentage ← float cell;
  Ok (percentage / 100).

(** ** Fed_Data.py *)

Definition is_leap (y : Z) : bool :=
  ((y mod 4 =? 0) && negb (y mod 100 =? 0) || (y mod 400 =? 0))%Z.

Definition days_in_month (y m : Z) : Z :=
  if (m =? 2)%Z then (if is_leap y then 29 else 28)%Z
  else if ((m =? 4) || (m =? 6) || (m =? 9) || (m =? 11))%Z then 30%Z
  else 31%Z.

(** [datetime.date(y, m, d)] *)
Definition new_date (y m d : Z) : result date :=
  if ((1 <=? y) && (y <=? 9999) && (1 <=? m) && (m <=? 12)
      && (1 <=? d) && (d <=? days_in_month y m))%Z
  then Ok {| year := y; month := m; day := d |}
  else Raise ValueError.

Definition valid_date (d : date) : Prop := new_date (year d) (month d) (day d) = Ok d.

Definition replace_day (self : date) (d : Z) : result date :=
  new_date (year self) (month self) d.

Definition replace_month (self : date) (m : Z) : result date :=
  new_date (year self) m (day self).

(** [Series.item()]: the only element, [ValueError] for any other size. *)
Definition item {A : Type} (series : list A) : result A :=
  match series with
  | [x] => Ok x
  | _ => Raise ValueError
  end.

(** [get_current_federal_funds_rate], for the day [today] the clock gives
    to its calls. *)
Definition get_current_federal_funds_rate (today : date) : result (option R) :=
  first_day_of_this_month ← replace_day today 1;
  let last_month := (month today - 1)%Z in
  last_month_same_day ← replace_month today last_month;
  series ← get_series "FEDFUNDS" last_month_same_day first_day_of_this_month;
  rate ← item series;
  Ok (match rate with
      | Some x => Some (x / 100)
      | None => None
      end).

(** The observations that are not NaN, in order. *)
Definition list_nikkei_prices (df_nikkei_prices : list (option R)) : list R :=
  omap (fun x : option R => x) df_nikkei_prices.

(** The same for the JPY per USD quotes, each one inverted. *)
Definition list_usd_jpy (df_jpy_usd : list (option R)) : list R :=
  omap (fun x : option R =>
          match x with
          | Some v => Some (1 / v)
          | None => None
          end) df_jpy_usd.

(** [l[len(l) - minimum_length : len(l)]] *)
Definition adjusted {A : Type} (l : list A) (minimum_length : nat) : list A :=
  drop (length l - minimum_length) l.

(** [[(l[i+1] - l[i]) / l[i] for i in range(minimum_length - 1)]] *)
Definition target_process (l : list R) (minimum_length : nat) : result (list R) :=
  comprehension
    (fun i : nat =>
       next ← py_getitem l (Z.of_nat i + 1);
       this ← py_getitem l (Z.of_nat i);
       base ← py_getitem l (Z.of_nat i);
       Ok ((next - this) / base))
    (py_range (Z.of_nat minimum_length - 1)).

Definition get_correlation_foreign_asset_and_exchange_rate
    (df_nikkei_prices df_jpy_usd : list (option R)) : result R :=
  let nikkei := list_nikkei_prices df_nikkei_prices in
  let usd_jpy := list_usd_jpy df_jpy_usd in
  let minimum_length := min (length nikkei) (length usd_jpy) in
  let adjusted_list_nikkei_prices := adjusted nikkei minimum_length in
  let adjusted_list_usd_jpy := adjusted usd_jpy minimum_length in
  target_process_nikkei ← target_process adjusted_list_nikkei_prices minimum_length;
  target_process_usd_jpy ← target_process adjusted_list_usd_jpy minimum_length;
  Ok (corrcoef target_process_nikkei target_process_usd_jpy).

End MarketData.

(** ** Concrete market data

    A curve that is not flat ([price(x) = 1 - x/100], whose forward rate at
    0 is 1%), the sample contract on it, the sample contract without any
    volatility, a parser of unsigned decimals (Python's [float] accepts
    more), a document of two weeks whose last week has a single day, a small
    table of dividend yields, two short series and Pearson's coefficient. *)

Definition linear_splev (x : R) (t : unit) (der : nat) : R :=
  match der with
  | O => 1 - x / 100
  | S O => - (1 / 100)
  | S (S _) => 0
  end.

Definition linear_curve : SciPy := {| tck := unit; splev := linear_splev |}.

Section SlopedSample.

#[local] Existing Instance linear_curve.
#[local] Existing Instance counter_generator.

Definition sloped_world : world :=
  {| np_random := 0%nat; os_entropy := fun k => k; entropy_reads := 0 |}.

Definition sloped_args : init_args :=
  {| arg_bond_data := {| tck_bond := tt |};
     arg_domestic_risk_free_rate_vol := 0.015;
     arg_mean_reversion_speed := 0.03;
     arg_maturity_T := 3;
     arg_Delta := 0.25;
     arg_strike_price_nikkei := 1;
     arg_strike_price_libor := 1;
     arg_iteration_times := 2;
     arg_current_federal_funds_rate := 0.01;
     arg_current_nikkei_price := 100;
     arg_correlation_foreign_asset_and_domestic_risk_free_rate := 0.3;
     arg_correlation_foreign_asset_and_exchange_rate := 0.5;
     arg_foreign_risk_free_rate := -0.001;
     arg_nikkei_dividends := 0.02;
     arg_foreign_asset_vol := 0.2478;
     arg_exchange_rate_vol := 0.0973;
     arg_random_seed := Some 7%Z |}.

Definition sloped_engine : Single_time_Monte_Carlo := constructed sloped_args (3 / 2).

End SlopedSample.

Section QuietSample.

#[local] Existing Instance flat_curve.
#[local] Existing Instance counter_generator.

Definition quiet_args : init_args :=
  {| arg_bond_data := {| tck_bond := tt |};
     arg_domestic_risk_free_rate_vol := 0;
     arg_mean_reversion_speed := 0.03;
     arg_maturity_T := 3;
     arg_Delta := 0.25;
     arg_strike_price_nikkei := 1;
     arg_strike_price_libor := 1;
     arg_iteration_times := 2;
     arg_current_federal_funds_rate := 0.01;
     arg_current_nikkei_price := 100;
     arg_correlation_foreign_asset_and_domestic_risk_free_rate := 0.3;
     arg_correlation_foreign_asset_and_exchange_rate := 0.5;
     arg_foreign_risk_free_rate := -0.001;
     arg_nikkei_dividends := 0.02;
     arg_foreign_asset_vol := 0;
     arg_exchange_rate_vol := 0.0973;
     arg_random_seed := None |}.

Definition quiet_engine : Single_time_Monte_Carlo := constructed quiet_args (3 / 2).

End QuietSample.

(** The digits of an unsigned decimal: its mantissa and the number of
    digits after the point. *)
Fixpoint decimal (s : string) (after_point : bool) (digits : nat) (mantissa : Z) (scale : nat)
    : option (Z * nat) :=
  match s with
  | EmptyString => if digits is O then None else Some (mantissa, scale)
  | String c rest =>
      let n := Z.of_nat (Ascii.nat_of_ascii c) in
      if ((48 <=? n) && (n <=? 57))%Z
      then decimal rest after_point (S digits) (10 * mantissa + (n - 48))
             (if after_point then S scale else scale)
      else if ((n =? 46)%Z && negb after_point)%bool
           then decimal rest true digits mantissa scale
           else None
  end.

Definition decimal_float (s : string) : result R :=
  match decimal s false 0 0%Z 0 with
  | Some (mantissa, scale) => Ok (IZR mantissa / 10 ^ scale)
  | None => Raise ValueError
  end.

Definition decimal_parser : PyFloat := {| float := decimal_float |}.

Definition sample_day (bid_curve_date day_of_week bc_30year : string) : xml :=
  XDict [("BID_CURVE_DATE", XText bid_curve_date);
         ("DAY_OF_WEEK", XText day_of_week);
         ("LIST_G_BC_CAT",
          XDict [("G_BC_CAT",
                  XDict [("BC_1MONTH", XText "0.50"); ("BC_2MONTH", XText "0.67");
                         ("BC_3MONTH", XText "0.85"); ("BC_6MONTH", XText "1.41");
                         ("BC_1YEAR", XText "2.08"); ("BC_2YEAR", XText "2.72");
                         ("BC_3YEAR", XText "2.94"); ("BC_5YEAR", XText "3.06");
                         ("BC_7YEAR", XText "3.13"); ("BC_10YEAR", XText "3.12");
                         ("BC_20YEAR", XText "3.43"); ("BC_30YEAR", XText bc_30year)])])].

Definition sample_week (days : xml) : xml :=
  XDict [("LIST_G_NEW_DATE", XDict [("G_NEW_DATE", days)])].

Definition sample_document : xml :=
  XDict [("QR_BC_CM",
          XDict [("LIST_G_WEEK_OF_MONTH",
                  XDict [("G_WEEK_OF_MONTH",
                          XList [sample_week (XList [sample_day "05-MAY-22" "THURSDAY" "3.15";
                                                     sample_day "06-MAY-22" "FRIDAY" "3.23"]);
                                 sample_week (sample_day "09-MAY-22" "MONDAY" "3.19")])])])].

Definition sample_cells : list string :=
  ["May/02/2022"; "2.01"; "May/06/2022"; "1.98"]%string.

Definition sample_get_series (series_id : string) (observation_start observation_end : date)
    : result (list (option R)) :=
  if String.eqb series_id "FEDFUNDS" then Ok [Some 0.33]
  else Ok [Some 26000; None; Some 26500].

Definition sample_fred : Fred := {| get_series := sample_get_series |}.

Definition covariance (xs ys : list R) : R :=
  let mean := fun l : list R => foldr Rplus 0 l / INR (length l) in
  foldr Rplus 0 (zip_with (fun x y => (x - mean xs) * (y - mean ys)) xs ys).

Definition pearson (xs ys : list R) : R :=
  covariance xs ys / sqrt (covariance xs xs * covariance ys ys).

Definition pearson_stats : NumPyStats := {| corrcoef := pearson |}.

(** * Properties *)

Section Properties.

Context {interpolate : SciPy} {random : NumPyRandom}.

(** ** Lemmas on the primitives *)

Lemma py_truediv_ok (x y : R) : y <> 0 -> py_truediv x y = Ok (x / y).
Proof.
  intros Hy. unfold py_truediv. destruct (Req_dec_T y 0); [contradiction | reflexivity].
Qed.

Lemma py_truediv_zero (x : R) : py_truediv x 0 = Raise ZeroDivisionError.
Proof.
  unfold py_truediv. destruct (Req_dec_T 0 0); [reflexivity | contradiction].
Qed.

Lemma foldl_Rplus_shift (l : list R) (a : R) : foldl Rplus a l = a + foldl Rplus 0 l.
Proof.
  revert a. induction l as [|x l IH]; intros a; simpl.
  - lra.
  - rewrite (IH (a + x)), (IH (0 + x)). lra.
Qed.

Lemma py_sum_foldr (l : list R) : py_sum l = foldr Rplus 0 l.
Proof.
  unfold py_sum. induction l as [|x l IH]; simpl; [reflexivity|].
  rewrite foldl_Rplus_shift, IH. lra.
Qed.

Lemma foldr_Rplus_perm (l1 l2 : list R) :
  l1 ≡ₚ l2 -> foldr Rplus 0 l1 = foldr Rplus 0 l2.
Proof.
  induction 1; simpl; lra.
Qed.

Lemma cumulative_average_length (l : list R) :
  length (cumulative_average_of_list l) = length l.
Proof.
  unfold cumulative_average_of_list. by rewrite length_fmap, length_seq.
Qed.

Lemma cumulative_average_lookup (l : list R) (i : nat) :
  (i < length l)%nat ->
  cumulative_average_of_list l !! i = Some (py_sum (take (i + 1) l) / INR (i + 1)).
Proof.
  intros Hi. unfold cumulative_average_of_list.
  rewrite list_lookup_fmap.
  assert (Hs : seq 0 (length l) !! i = Some i) by (apply lookup_seq; split; [reflexivity | assumption]).
  by rewrite Hs.
Qed.

(** ** The primitives on concrete inputs *)

Example py_int_truncates : py_int (-3 / 2) = (-1)%Z /\ py_int (3 / 2) = 1%Z.
Proof.
  unfold py_int. split.
  - destruct (Rle_dec 0 (-3 / 2)) as [H|_]; [lra|]. apply Zceil_eq. simpl. lra.
  - destruct (Rle_dec 0 (3 / 2)) as [_|H]; [|lra]. apply Zfloor_eq. simpl. lra.
Qed.

Example py_index_wraps :
  py_index 3 (-1) = Ok 2%nat /\ py_index 3 3 = Raise IndexError
  /\ py_index 3 (-4) = Raise IndexError.
Proof.
  repeat split.
Qed.

Example py_getitem_last : py_getitem [PyNum 1; PyNum 2; NpNum 3] (-1) = Ok (NpNum 3).
Proof.
  reflexivity.
Qed.

Example py_max_floors : py_max 0 (-1) = 0 /\ py_max 0 2 = 2.
Proof.
  unfold py_max. split.
  - destruct (Rlt_dec 0 (-1)); lra.
  - destruct (Rlt_dec 0 2); lra.
Qed.

Example cumulative_average_of_three :
  cumulative_average_of_list [1; 2; 6] = [1; 3 / 2; 3].
Proof.
  unfold cumulative_average_of_list, py_sum. simpl.
  repeat (f_equal; try lra).
Qed.

(** ** Claims on the aggregation *)

(** C5.  For a non-empty list of per-run values, entry [i] of the
    cumulative-average sequence is the arithmetic mean of the first [i + 1]
    values, and the last entry (the final point estimate, read at index
    [len - 1]) is the arithmetic mean of all values and is the same for
    every permutation of the run order. *)
Theorem cumulative_average_mean_and_permutation (l : list R) :
  l <> [] ->
  (forall i, (i < length l)%nat ->
     cumulative_average_of_list l !! i = Some (arithmetic_mean (take (i + 1) l)))
  /\ cumulative_average_of_list l !! (length l - 1)%nat = Some (arithmetic_mean l)
  /\ (forall l', l ≡ₚ l' ->
        cumulative_average_of_list l' !! (length l' - 1)%nat
        = cumulative_average_of_list l !! (length l - 1)%nat).
Proof.
  intros Hne.
  assert (Hlen : (0 < length l)%nat) by (destruct l; [congruence | simpl; lia]).
  assert (Hmean : forall k : list R, (0 < length k)%nat ->
            cumulative_average_of_list k !! (length k - 1)%nat = Some (arithmetic_mean k)).
  { intros k Hk. rewrite cumulative_average_lookup by lia.
    replace (length k - 1 + 1)%nat with (length k) by lia.
    rewrite firstn_all, py_sum_foldr. reflexivity. }
  split; [|split].
  - intros i Hi. rewrite cumulative_average_lookup by assumption.
    unfold arithmetic_mean. rewrite py_sum_foldr, length_take.
    replace (Nat.min (i + 1) (length l)) with (i + 1)%nat by lia. reflexivity.
  - by apply Hmean.
  - intros l' Hp.
    assert (Hl' : length l' = length l) by (symmetry; by apply Permutation_length).
    rewrite !Hmean by lia. unfold arithmetic_mean.
    by rewrite Hl', (foldr_Rplus_perm l l').
Qed.

(** ** Calibration *)

Lemma B_t_T_ok (self : Single_time_Monte_Carlo) (t T : R) :
  mean_reversion_speed self <> 0 ->
  B_t_T self t T = Ok (B_spec (mean_reversion_speed self) t T).
Proof.
  intros Ha. unfold B_t_T, B_spec. rewrite py_truediv_ok by assumption. simpl.
  f_equal. field. assumption.
Qed.

Lemma B_t_T_zero_speed (self : Single_time_Monte_Carlo) (t T : R) :
  mean_reversion_speed self = 0 -> B_t_T self t T = Raise ZeroDivisionError.
Proof.
  intros Ha. unfold B_t_T. rewrite Ha, py_truediv_zero. reflexivity.
Qed.

Lemma G_ok (self : Single_time_Monte_Carlo) (t : R) :
  mean_reversion_speed self <> 0 ->
  G self t = Ok (G_spec (mean_reversion_speed self) (domestic_risk_free_rate_vol self) t).
Proof.
  intros Ha. unfold G. rewrite B_t_T_ok by assumption. reflexivity.
Qed.

Lemma first_derivative_of_G_ok (self : Single_time_Monte_Carlo) (t : R) :
  mean_reversion_speed self <> 0 ->
  first_derivative_of_G self t
  = Ok (dG_dt_spec (mean_reversion_speed self) (domestic_risk_free_rate_vol self) t).
Proof.
  intros Ha. unfold first_derivative_of_G. rewrite B_t_T_ok by assumption. reflexivity.
Qed.

Lemma derivable_pt_lim_pointwise (f g : R -> R) (x l : R) :
  (forall y, f y = g y) -> derivable_pt_lim f x l -> derivable_pt_lim g x l.
Proof.
  intros Hfg Hf eps Heps. destruct (Hf eps Heps) as [delta Hd].
  exists delta. intros h Hh Hlt. rewrite <- !Hfg. apply Hd; assumption.
Qed.

(** What [first_derivative_of_G] returns is the derivative of what [G]
    returns, as its name and its docstring say. *)
Lemma dG_dt_is_derivative (a sigma_d t : R) :
  a <> 0 -> derivable_pt_lim (G_spec a sigma_d) t (dG_dt_spec a sigma_d t).
Proof.
  intros Ha.
  pose (u := mult_real_fct (- a) id).
  pose (b := mult_real_fct (/ a) (minus_fct (fct_cte 1) (comp exp u))).
  pose (g := mult_real_fct (0.5 * sigma_d ^ 2) (comp (fun y => y ^ 2) b)).
  assert (Hu : derivable_pt_lim u t (- a * 1)).
  { apply derivable_pt_lim_scal. apply derivable_pt_lim_id. }
  assert (Hb : derivable_pt_lim b t (/ a * (0 - exp (u t) * (- a * 1)))).
  { apply derivable_pt_lim_scal. apply derivable_pt_lim_minus.
    - apply derivable_pt_lim_const.
    - apply (derivable_pt_lim_comp u exp); [exact Hu | apply derivable_pt_lim_exp]. }
  assert (Hg : derivable_pt_lim g t
                 (0.5 * sigma_d ^ 2
                  * (INR 2 * b t ^ pred 2 * (/ a * (0 - exp (u t) * (- a * 1)))))).
  { apply derivable_pt_lim_scal.
    apply (derivable_pt_lim_comp b (fun y => y ^ 2)); [exact Hb | apply derivable_pt_lim_pow]. }
  apply (derivable_pt_lim_pointwise g).
  - intros y. unfold g, b, u, G_spec, B_spec, mult_real_fct, comp, minus_fct, fct_cte, id.
    rewrite Rminus_0_r. do 2 f_equal. field. exact Ha.
  - replace (dG_dt_spec a sigma_d t)
      with (0.5 * sigma_d ^ 2
            * (INR 2 * b t ^ pred 2 * (/ a * (0 - exp (u t) * (- a * 1)))));
      [exact Hg|].
    unfold dG_dt_spec, b, u, B_spec, mult_real_fct, comp, minus_fct, fct_cte, id.
    rewrite Rminus_0_r. simpl. replace 0.5 with (/ 2) by lra. field. exact Ha.
Qed.

Lemma Theta_ok (self : Single_time_Monte_Carlo) (t : R) :
  mean_reversion_speed self <> 0 ->
  Theta self t
  = Ok (Theta_spec (bond_data self) (mean_reversion_speed self)
          (domestic_risk_free_rate_vol self) t).
Proof.
  intros Ha. unfold Theta.
  rewrite first_derivative_of_G_ok, G_ok by assumption. reflexivity.
Qed.

Lemma Theta_zero_speed (self : Single_time_Monte_Carlo) (t : R) :
  mean_reversion_speed self = 0 -> Theta self t = Raise ZeroDivisionError.
Proof.
  intros Ha. unfold Theta, first_derivative_of_G.
  rewrite B_t_T_zero_speed by assumption. reflexivity.
Qed.

Lemma p_t_T_ok (self : Single_time_Monte_Carlo) (t T r_t : R) :
  mean_reversion_speed self <> 0 ->
  p_t_T self t T r_t
  = Ok (p_spec (bond_data self) (mean_reversion_speed self)
          (domestic_risk_free_rate_vol self) t T r_t).
Proof.
  intros Ha. unfold p_t_T. rewrite B_t_T_ok by assumption. simpl.
  rewrite py_truediv_ok by lra. simpl.
  unfold p_spec. do 3 f_equal. field. assumption.
Qed.

(** C2.  With a non-zero mean-reversion speed [a], for every [t] the method
    [Theta] returns [forwardRateSlope(t) + dG/dt(t) + a * (forwardRate(t) +
    G(t))], where [B_t_T], [G] and [first_derivative_of_G] return
    [B(t,T) = (1 - exp(-a*(T-t)))/a], [G(t) = 0.5*sigma_d^2*B(0,t)^2] and
    [dG/dt(t) = sigma_d^2*B(0,t)*exp(-a*t)], and the forward rate and its
    slope are the read-outs of the fitted curve. *)
Theorem Theta_calibrated_drift (self : Single_time_Monte_Carlo) (t : R) :
  mean_reversion_speed self <> 0 ->
  let a := mean_reversion_speed self in
  let sigma_d := domestic_risk_free_rate_vol self in
  Theta self t
  = Ok (get_value_for_T_derivative_of_forward_rate (bond_data self) t
        + sigma_d ^ 2 * ((1 - exp (- a * (t - 0))) / a) * exp (- a * t)
        + a * (get_value_for_forward_rate (bond_data self) t
               + 0.5 * sigma_d ^ 2 * ((1 - exp (- a * (t - 0))) / a) ^ 2))
  /\ (forall T, B_t_T self t T = Ok ((1 - exp (- a * (T - t))) / a))
  /\ G self t = Ok (0.5 * sigma_d ^ 2 * B_spec a 0 t ^ 2)
  /\ first_derivative_of_G self t = Ok (sigma_d ^ 2 * B_spec a 0 t * exp (- a * t))
  /\ Theta self t = Ok (Theta_spec (bond_data self) a sigma_d t).
Proof.
  intros Ha a sigma_d. repeat split.
  - rewrite Theta_ok by assumption. reflexivity.
  - intros T. apply B_t_T_ok. assumption.
  - apply G_ok. assumption.
  - apply first_derivative_of_G_ok. assumption.
  - apply Theta_ok. assumption.
Qed.

(** ** Indexing *)

Lemma py_index_nat (n k : nat) : (k < n)%nat -> py_index n (Z.of_nat k) = Ok k.
Proof.
  intros Hk. unfold py_index.
  destruct (decide (0 <= Z.of_nat k < Z.of_nat n)%Z) as [_|Hn]; [|lia].
  by rewrite Nat2Z.id.
Qed.

Lemma py_index_in_range (n : nat) (i : Z) :
  (0 <= i < Z.of_nat n)%Z -> py_index n i = Ok (Z.to_nat i).
Proof.
  intros Hi. unfold py_index. destruct (decide (0 <= i < Z.of_nat n)%Z); [reflexivity | lia].
Qed.

Lemma py_index_bound (n : nat) (i : Z) (k : nat) : py_index n i = Ok k -> (k < n)%nat.
Proof.
  unfold py_index. intros H.
  destruct (decide (0 <= i < Z.of_nat n)%Z).
  - inversion H. lia.
  - destruct (decide (- Z.of_nat n <= i < 0)%Z); inversion H. lia.
Qed.

Lemma py_getitem_nat {A : Type} (l : list A) (k : nat) (v : A) :
  l !! k = Some v -> py_getitem l (Z.of_nat k) = Ok v.
Proof.
  intros Hv. unfold py_getitem.
  rewrite py_index_nat by (eapply lookup_lt_Some; eassumption).
  simpl. by rewrite Hv.
Qed.

Lemma py_getitem_in_range {A : Type} (l : list A) (i : Z) :
  (0 <= i < Z.of_nat (length l))%Z ->
  exists v, l !! Z.to_nat i = Some v /\ py_getitem l i = Ok v.
Proof.
  intros Hi.
  destruct (lookup_lt_is_Some_2 l (Z.to_nat i)) as [v Hv]; [lia|].
  exists v. split; [assumption|].
  unfold py_getitem. rewrite py_index_in_range by assumption. simpl. by rewrite Hv.
Qed.

Lemma py_index_empty (i : Z) : py_index 0 i = Raise IndexError.
Proof.
  unfold py_index.
  destruct (decide (0 <= i < Z.of_nat 0)%Z); [lia|].
  destruct (decide (- Z.of_nat 0 <= i < 0)%Z); [lia | reflexivity].
Qed.

Lemma py_setitem_nat {A : Type} (l : list A) (k : nat) (v : A) :
  (k < length l)%nat -> py_setitem l (Z.of_nat k) v = Ok (<[k := v]> l).
Proof.
  intros Hk. unfold py_setitem. by rewrite py_index_nat.
Qed.

Lemma py_setitem_empty {A : Type} (i : Z) (v : A) : py_setitem [] i v = Raise IndexError.
Proof.
  unfold py_setitem. change (length (@nil A)) with 0%nat.
  by rewrite py_index_empty.
Qed.

(** ** The random source *)

Lemma draw_rows_length (rows : nat) (st : RandomState) :
  length (draw_rows rows st).1 = rows.
Proof.
  revert st. induction rows as [|rows IH]; intros st; simpl; [reflexivity|].
  destruct (legacy_gauss st) as [epsilon1 st1].
  destruct (legacy_gauss st1) as [epsilon2 st2].
  specialize (IH st2). destruct (draw_rows rows st2) as [rest st']. simpl in *. lia.
Qed.

(** After an integer seed the generator state does not depend on the world
    the call started from. *)
Lemma np_random_seed_some (s : Z) (w : world) :
  (0 <= s < 2 ^ 32)%Z ->
  exists w1, np_random_seed (Some s) w = Ok w1 /\ np_random w1 = init_by_seed s.
Proof.
  intros Hs. unfold np_random_seed. destruct (decide (0 <= s < 2 ^ 32)%Z); [|lia].
  eexists. split; reflexivity.
Qed.

Lemma np_random_seed_invalid (s : Z) (w : world) :
  ~ (0 <= s < 2 ^ 32)%Z -> np_random_seed (Some s) w = Raise ValueError.
Proof.
  intros Hs. unfold np_random_seed. destruct (decide (0 <= s < 2 ^ 32)%Z); [contradiction | reflexivity].
Qed.

Lemma np_random_normal_ok (rows : Z) (w : world) :
  (0 <= rows)%Z ->
  exists w2, np_random_normal rows w = Ok ((draw_rows (Z.to_nat rows) (np_random w)).1, w2)
             /\ np_random w2 = (draw_rows (Z.to_nat rows) (np_random w)).2.
Proof.
  intros Hr. unfold np_random_normal. destruct (decide (rows < 0)%Z); [lia|].
  destruct (draw_rows (Z.to_nat rows) (np_random w)) as [rands st].
  eexists. split; reflexivity.
Qed.

(** ** The simulation loop *)

Lemma monte_carlo_step_ok (self : Single_time_Monte_Carlo) (rands : list (R * R))
    (i : nat) (rates prices : list scalar) (epsilon1 epsilon2 : R) (r s : scalar) :
  mean_reversion_speed self <> 0 ->
  rands !! i = Some (epsilon1, epsilon2) ->
  rates !! i = Some r -> prices !! i = Some s ->
  (S i < length rates)%nat -> (S i < length prices)%nat ->
  monte_carlo_step self rands i (rates, prices)
  = Ok (<[S i := NpNum (rate_step_spec self (drift_at self i) (value r) epsilon1 epsilon2)]>
          rates,
        <[S i := NpNum (price_step_spec self (value s) epsilon2)]> prices).
Proof.
  intros Ha Hr Hrate Hprice Hlr Hlp. unfold monte_carlo_step. rewrite Hr.
  rewrite (py_getitem_nat _ _ _ Hrate). simpl.
  rewrite Theta_ok by assumption. simpl.
  replace (Z.of_nat i + 1)%Z with (Z.of_nat (S i)) by lia.
  rewrite py_setitem_nat by assumption. simpl.
  rewrite (py_getitem_nat _ _ _ Hprice). simpl.
  rewrite py_setitem_nat by assumption. reflexivity.
Qed.

Lemma monte_carlo_step_zero_speed (self : Single_time_Monte_Carlo) (rands : list (R * R))
    (i : nat) (rates prices : list scalar) :
  mean_reversion_speed self = 0 ->
  (i < length rands)%nat -> (i < length rates)%nat ->
  monte_carlo_step self rands i (rates, prices) = Raise ZeroDivisionError.
Proof.
  intros Ha Hr Hl. unfold monte_carlo_step.
  destruct (lookup_lt_is_Some_2 rands i Hr) as [[epsilon1 epsilon2] He]. rewrite He.
  destruct (lookup_lt_is_Some_2 rates i Hl) as [r Hrate].
  rewrite (py_getitem_nat _ _ _ Hrate). simpl.
  rewrite Theta_zero_speed by assumption. reflexivity.
Qed.

Lemma monte_carlo_loop_ok (self : Single_time_Monte_Carlo) (rands : list (R * R)) (m : nat) :
  mean_reversion_speed self <> 0 ->
  forall (k : nat) (rates prices : list scalar),
    (k + m < length rates)%nat -> (k + m < length prices)%nat ->
    (k + m <= length rands)%nat ->
    exists rates' prices',
      for_range (monte_carlo_step self rands) (seq k m) (rates, prices) = Ok (rates', prices')
      /\ length rates' = length rates /\ length prices' = length prices
      /\ (forall j, (j <= k)%nat -> rates' !! j = rates !! j /\ prices' !! j = prices !! j)
      /\ follows_recurrence self rands rates' prices' k m.
Proof.
  intros Ha. induction m as [|m IH]; intros k rates prices Hlr Hlp Hrands.
  - exists rates, prices. simpl. repeat split; try reflexivity.
    intros i Hi. lia.
  - destruct (lookup_lt_is_Some_2 rands k) as [[epsilon1 epsilon2] He]; [lia|].
    destruct (lookup_lt_is_Some_2 rates k) as [r Hrate]; [lia|].
    destruct (lookup_lt_is_Some_2 prices k) as [s Hprice]; [lia|].
    cbn [seq for_range].
    rewrite (monte_carlo_step_ok _ _ _ _ _ _ _ _ _ Ha He Hrate Hprice) by lia.
    cbn [mbind result_bind].
    destruct (IH (S k)
                (<[S k := NpNum (rate_step_spec self (drift_at self k) (value r) epsilon1 epsilon2)]>
                   rates)
                (<[S k := NpNum (price_step_spec self (value s) epsilon2)]> prices))
      as (rates' & prices' & Hrun & Hlr' & Hlp' & Hkeep & Hrec);
      try (rewrite length_insert; lia); [lia|].
    exists rates', prices'. rewrite length_insert in Hlr', Hlp'.
    split; [exact Hrun|]. split; [exact Hlr'|]. split; [exact Hlp'|]. split.
    + intros j Hj. destruct (Hkeep j) as [H1 H2]; [lia|].
      rewrite H1, H2. rewrite !list_lookup_insert_ne by lia. by split.
    + intros i Hi. destruct (decide (i = k)) as [->|Hne].
      * destruct (Hkeep k) as [H1 H2]; [lia|].
        destruct (Hkeep (S k)) as [H3 H4]; [lia|].
        exists epsilon1, epsilon2, r, s.
        rewrite H1, H2, H3, H4.
        rewrite !list_lookup_insert_ne by lia.
        rewrite !list_lookup_insert_eq by lia. by repeat split.
      * apply Hrec. lia.
Qed.

Lemma monte_carlo_loop_zero_speed (self : Single_time_Monte_Carlo) (rands : list (R * R))
    (m : nat) (rates prices : list scalar) :
  mean_reversion_speed self = 0 ->
  (0 < m)%nat -> (0 < length rands)%nat -> (0 < length rates)%nat ->
  for_range (monte_carlo_step self rands) (seq 0 m) (rates, prices) = Raise ZeroDivisionError.
Proof.
  intros Ha Hm Hr Hl. destruct m as [|m]; [lia|]. cbn [seq for_range].
  rewrite monte_carlo_step_zero_speed by assumption. reflexivity.
Qed.

(** Two pairs of lists of the same length that start alike and obey the
    update rule are equal. *)
Lemma recurrence_unique (self : Single_time_Monte_Carlo) (rands : list (R * R))
    (n : nat) (rates1 prices1 rates2 prices2 : list scalar) :
  length rates1 = S n -> length prices1 = S n ->
  length rates2 = S n -> length prices2 = S n ->
  rates1 !! 0%nat = rates2 !! 0%nat -> prices1 !! 0%nat = prices2 !! 0%nat ->
  follows_recurrence self rands rates1 prices1 0 n ->
  follows_recurrence self rands rates2 prices2 0 n ->
  rates1 = rates2 /\ prices1 = prices2.
Proof.
  intros L1 L2 L3 L4 Hr0 Hp0 Hrec1 Hrec2.
  assert (Hall : forall i, (i <= n)%nat ->
            rates1 !! i = rates2 !! i /\ prices1 !! i = prices2 !! i).
  { induction i as [|i IHi]; intros Hi; [by split|].
    destruct IHi as [Hri Hpi]; [lia|].
    destruct (Hrec1 i) as (a1 & a2 & r1 & s1 & Ha & Hr1 & Hs1 & Hr1' & Hs1'); [lia|].
    destruct (Hrec2 i) as (b1 & b2 & r2 & s2 & Hb & Hr2 & Hs2 & Hr2' & Hs2'); [lia|].
    rewrite Ha in Hb. inversion Hb; subst b1 b2.
    rewrite Hr1, Hr2 in Hri. inversion Hri; subst r2.
    rewrite Hs1, Hs2 in Hpi. inversion Hpi; subst s2.
    by rewrite Hr1', Hr2', Hs1', Hs2'. }
  split; apply list_eq; intros i; destruct (decide (i <= n)%nat) as [Hi|Hi].
  - by apply Hall.
  - rewrite !lookup_ge_None_2 by lia. reflexivity.
  - by apply Hall.
  - rewrite !lookup_ge_None_2 by lia. reflexivity.
Qed.

(** ** The error monad *)

Lemma bind_Ok_inv {A B : Type} (m : result A) (f : A -> result B) (b : B) :
  m ≫= f = Ok b -> exists a, m = Ok a /\ f a = Ok b.
Proof.
  destruct m as [a|x]; simpl; intros H; [eauto | discriminate].
Qed.

Ltac bind_inv H :=
  let a := fresh "v" in
  let Ha := fresh "Hv" in
  apply bind_Ok_inv in H; destruct H as (a & Ha & H).

Lemma py_setitem_length {A : Type} (l l' : list A) (i : Z) (v : A) :
  py_setitem l i v = Ok l' -> length l' = length l.
Proof.
  unfold py_setitem. intros H. bind_inv H. inversion H. apply length_insert.
Qed.

(** ** The constructor *)

Lemma init_ok (a : init_args) :
  arg_iteration_times a <> 0%Z ->
  __init__ a = Ok (constructed a (arg_maturity_T a / IZR (arg_iteration_times a))).
Proof.
  intros Hn. unfold __init__. rewrite py_truediv_ok; [reflexivity|].
  intros H. apply eq_IZR_R0 in H. contradiction.
Qed.

Lemma init_zero_iterations (a : init_args) :
  arg_iteration_times a = 0%Z -> __init__ a = Raise ZeroDivisionError.
Proof.
  intros Hn. unfold __init__. rewrite Hn, py_truediv_zero. reflexivity.
Qed.

Lemma init_well_formed (a : init_args) (self : Single_time_Monte_Carlo) :
  __init__ a = Ok self -> well_formed self.
Proof.
  intros H. destruct (decide (arg_iteration_times a = 0%Z)) as [Hz|Hnz].
  - rewrite init_zero_iterations in H by assumption. discriminate.
  - rewrite init_ok in H by assumption. inversion H; subst self.
    split; simpl; try reflexivity; try assumption; apply length_replicate.
Qed.

(** ** One simulation run *)

Lemma monte_carlo_step_length (self : Single_time_Monte_Carlo) (rands : list (R * R))
    (i : nat) (rates prices rates' prices' : list scalar) :
  monte_carlo_step self rands i (rates, prices) = Ok (rates', prices') ->
  length rates' = length rates /\ length prices' = length prices.
Proof.
  unfold monte_carlo_step. destruct (rands !! i) as [[epsilon1 epsilon2]|]; [|discriminate].
  intros H. do 6 bind_inv H. inversion H; subst.
  split; eapply py_setitem_length; eassumption.
Qed.

Lemma monte_carlo_loop_length (self : Single_time_Monte_Carlo) (rands : list (R * R))
    (indices : list nat) (rates prices rates' prices' : list scalar) :
  for_range (monte_carlo_step self rands) indices (rates, prices) = Ok (rates', prices') ->
  length rates' = length rates /\ length prices' = length prices.
Proof.
  revert rates prices. induction indices as [|i rest IH]; intros rates prices H.
  - inversion H. by split.
  - cbn [for_range] in H. bind_inv H. destruct v as [rates1 prices1].
    apply monte_carlo_step_length in Hv. apply IH in H. lia.
Qed.

(** A run only replaces the two path lists, and keeps their lengths. *)
Lemma start_monte_carlo_frame (self self' : Single_time_Monte_Carlo) (w w' : world) :
  start_monte_carlo self w = Ok (self', w') ->
  self' = set_lists self (domestic_risk_free_rate_list self') (nikkei_price_list self')
  /\ length (domestic_risk_free_rate_list self') = length (domestic_risk_free_rate_list self)
  /\ length (nikkei_price_list self') = length (nikkei_price_list self)
  /\ (0 < length (domestic_risk_free_rate_list self))%nat.
Proof.
  unfold start_monte_carlo. intros H.
  bind_inv H. bind_inv H. bind_inv H. bind_inv H. destruct v2 as [rands w2].
  bind_inv H. destruct v2 as [rates prices]. inversion H; subst self' w'. simpl.
  apply monte_carlo_loop_length in Hv3.
  pose proof (py_setitem_length _ _ _ _ Hv) as L1.
  pose proof (py_setitem_length _ _ _ _ Hv0) as L2.
  split; [reflexivity|]. split; [lia|]. split; [lia|].
  unfold py_setitem in Hv. bind_inv Hv. apply py_index_bound in Hv4. lia.
Qed.

Lemma start_monte_carlo_well_formed (self self' : Single_time_Monte_Carlo) (w w' : world) :
  well_formed self -> start_monte_carlo self w = Ok (self', w') -> well_formed self'.
Proof.
  intros [Hn Hdt Hr Hp] H. apply start_monte_carlo_frame in H.
  destruct H as (Heq & L1 & L2 & _). rewrite Heq.
  split; simpl; try assumption; lia.
Qed.

Lemma reachable_well_formed (self : Single_time_Monte_Carlo) :
  reachable self -> well_formed self.
Proof.
  induction 1 as [a self H | self self' w w' _ IH H].
  - eapply init_well_formed; eassumption.
  - eapply start_monte_carlo_well_formed; eassumption.
Qed.

(** The outcome of a run on a well-formed engine with at least one step, a
    non-zero mean-reversion speed and an accepted seed. *)
Lemma start_monte_carlo_success (self : Single_time_Monte_Carlo) (w : world) :
  well_formed self -> (1 <= iteration_times self)%Z ->
  mean_reversion_speed self <> 0 -> seed_accepted (random_seed self) ->
  exists w1 w2 rates prices,
    np_random_seed (random_seed self) w = Ok w1
    /\ np_random w2 = (draw_rows (Z.to_nat (iteration_times self)) (np_random w1)).2
    /\ start_monte_carlo self w = Ok (set_lists self rates prices, w2)
    /\ length rates = S (Z.to_nat (iteration_times self))
    /\ length prices = S (Z.to_nat (iteration_times self))
    /\ rates !! 0%nat = Some (PyNum (current_federal_funds_rate self))
    /\ prices !! 0%nat = Some (PyNum (current_nikkei_price self))
    /\ follows_recurrence self
         (draw_rows (Z.to_nat (iteration_times self)) (np_random w1)).1
         rates prices 0 (Z.to_nat (iteration_times self)).
Proof.
  intros [Hn Hdt Hr Hp] HN Ha Hseed.
  assert (Hlen : Z.to_nat (iteration_times self + 1) = S (Z.to_nat (iteration_times self))) by lia.
  rewrite Hlen in Hr, Hp.
  assert (Hw1 : exists w1, np_random_seed (random_seed self) w = Ok w1).
  { destruct (random_seed self) as [s|].
    - destruct (np_random_seed_some s w Hseed) as (w1 & H1 & _). eauto.
    - eexists. reflexivity. }
  destruct Hw1 as [w1 Hw1].
  destruct (np_random_normal_ok (iteration_times self) w1) as (w2 & Hnorm & Hw2); [lia|].
  set (rands := (draw_rows (Z.to_nat (iteration_times self)) (np_random w1)).1) in *.
  destruct (monte_carlo_loop_ok self rands (Z.to_nat (iteration_times self)) Ha 0
              (<[0%nat := PyNum (current_federal_funds_rate self)]>
                 (domestic_risk_free_rate_list self))
              (<[0%nat := PyNum (current_nikkei_price self)]> (nikkei_price_list self)))
    as (rates & prices & Hrun & L1 & L2 & Hkeep & Hrec).
  { rewrite length_insert. lia. }
  { rewrite length_insert. lia. }
  { unfold rands. rewrite draw_rows_length. lia. }
  exists w1, w2, rates, prices.
  rewrite length_insert in L1, L2.
  destruct (Hkeep 0%nat) as [K1 K2]; [lia|].
  rewrite list_lookup_insert_eq in K1, K2 by lia.
  repeat split; try assumption; try lia.
  unfold start_monte_carlo.
  rewrite (py_setitem_nat _ 0) by lia. cbn [mbind result_bind].
  rewrite (py_setitem_nat _ 0) by lia. cbn [mbind result_bind].
  rewrite Hw1. cbn [mbind result_bind]. rewrite Hnorm. cbn [mbind result_bind].
  unfold py_range. rewrite Hrun. reflexivity.
Qed.

Lemma start_monte_carlo_empty (self : Single_time_Monte_Carlo) (w : world) :
  domestic_risk_free_rate_list self = [] -> start_monte_carlo self w = Raise IndexError.
Proof.
  intros Hl. unfold start_monte_carlo. rewrite Hl, py_setitem_empty. reflexivity.
Qed.

Lemma start_monte_carlo_refused_seed (self : Single_time_Monte_Carlo) (w : world) :
  well_formed self -> (1 <= iteration_times self)%Z ->
  ~ seed_accepted (random_seed self) ->
  start_monte_carlo self w = Raise ValueError.
Proof.
  intros [Hn Hdt Hr Hp] HN Hseed. unfold start_monte_carlo.
  rewrite (py_setitem_nat _ 0) by lia. cbn [mbind result_bind].
  rewrite (py_setitem_nat _ 0) by lia. cbn [mbind result_bind].
  destruct (random_seed self) as [s|]; [|exfalso; by apply Hseed].
  rewrite np_random_seed_invalid by exact Hseed. reflexivity.
Qed.

Lemma start_monte_carlo_zero_speed (self : Single_time_Monte_Carlo) (w : world) :
  well_formed self -> (1 <= iteration_times self)%Z ->
  seed_accepted (random_seed self) -> mean_reversion_speed self = 0 ->
  start_monte_carlo self w = Raise ZeroDivisionError.
Proof.
  intros [Hn Hdt Hr Hp] HN Hseed Ha. unfold start_monte_carlo.
  rewrite (py_setitem_nat _ 0) by lia. cbn [mbind result_bind].
  rewrite (py_setitem_nat _ 0) by lia. cbn [mbind result_bind].
  assert (Hw1 : exists w1, np_random_seed (random_seed self) w = Ok w1).
  { destruct (random_seed self) as [s|].
    - destruct (np_random_seed_some s w Hseed) as (w1 & H1 & _). eauto.
    - eexists. reflexivity. }
  destruct Hw1 as [w1 Hw1]. rewrite Hw1. cbn [mbind result_bind].
  destruct (np_random_normal_ok (iteration_times self) w1) as (w2 & Hnorm & _); [lia|].
  rewrite Hnorm. cbn [mbind result_bind]. unfold py_range.
  rewrite monte_carlo_loop_zero_speed; [reflexivity | assumption | lia | | ].
  - rewrite draw_rows_length. lia.
  - rewrite length_insert. lia.
Qed.

(** With an accepted integer seed, the engine a run returns does not depend
    on the state of the random source nor on the previous contents of the
    path lists. *)
Lemma seeded_run_independent (self other : Single_time_Monte_Carlo) (w w' : world) (s : Z) :
  well_formed self -> well_formed other -> same_parameters self other ->
  (1 <= iteration_times self)%Z -> mean_reversion_speed self <> 0 ->
  random_seed self = Some s -> (0 <= s < 2 ^ 32)%Z ->
  exists rates prices w1 w1',
    start_monte_carlo self w = Ok (set_lists self rates prices, w1)
    /\ start_monte_carlo other w' = Ok (set_lists self rates prices, w1')
    /\ np_random w1 = np_random w1'
    /\ length rates = S (Z.to_nat (iteration_times self))
    /\ length prices = S (Z.to_nat (iteration_times self)).
Proof.
  intros Hself Hother Hsame HN Ha Hseed Hs.
  assert (Pa : mean_reversion_speed other = mean_reversion_speed self) by (rewrite Hsame; reflexivity).
  assert (Pn : iteration_times other = iteration_times self) by (rewrite Hsame; reflexivity).
  assert (Ps : random_seed other = random_seed self) by (rewrite Hsame; reflexivity).
  destruct (start_monte_carlo_success self w Hself HN Ha)
    as (w1 & w2 & rates & prices & Hw1 & Hw2 & Hrun & L1 & L2 & Hr0 & Hp0 & Hrec).
  { rewrite Hseed. exact Hs. }
  destruct (start_monte_carlo_success other w' Hother)
    as (w1' & w2' & rates' & prices' & Hw1' & Hw2' & Hrun' & L1' & L2' & Hr0' & Hp0' & Hrec');
    [lia | congruence | rewrite Ps, Hseed; exact Hs |].
  rewrite Hseed in Hw1. rewrite Ps, Hseed in Hw1'.
  destruct (np_random_seed_some s w Hs) as (u & Hu & Hust).
  destruct (np_random_seed_some s w' Hs) as (u' & Hu' & Hust').
  assert (u = w1) by congruence. assert (u' = w1') by congruence. subst u u'.
  rewrite Pn in *. rewrite Hust in *. rewrite Hust' in *.
  assert (Hparams : forall l1 l2, set_lists other l1 l2 = set_lists self l1 l2)
    by (intros l1 l2; rewrite Hsame; reflexivity).
  destruct (recurrence_unique self
              (draw_rows (Z.to_nat (iteration_times self)) (init_by_seed s)).1
              (Z.to_nat (iteration_times self)) rates prices rates' prices')
    as [E1 E2]; try assumption.
  - rewrite Hr0, Hr0'. rewrite Hsame. reflexivity.
  - rewrite Hp0, Hp0'. rewrite Hsame. reflexivity.
  - intros i Hi. destruct (Hrec' i Hi) as (e1 & e2 & r & s0 & H1 & H2 & H3 & H4 & H5).
    exists e1, e2, r, s0. repeat split; try assumption.
    + rewrite H4. rewrite Hsame. reflexivity.
    + rewrite H5. rewrite Hsame. reflexivity.
  - subst rates' prices'. rewrite Hparams in Hrun'.
    exists rates, prices, w2, w2'. repeat split; try assumption. congruence.
Qed.

(** ** Claims on the path simulation *)

(** C1.  On a reachable engine with at least one step, a non-zero
    mean-reversion speed and an accepted seed, [start_monte_carlo] returns,
    and for every step [i] from 0 to [iteration_times - 1] the new lists
    satisfy
    [r[i+1] = r[i] + (Theta(i*Delta_t) - a*r[i])*Delta_t
              + sigma_d*sqrt(Delta_t)*(rho_sr*eps2 + sqrt(1-rho_sr^2)*eps1)] and
    [S[i+1] = S[i] + S[i]*(r_f - q_f - rho_sx*sigma_f*sigma_x)*Delta_t
              + S[i]*sigma_f*sqrt(Delta_t)*eps2],
    where [(eps1, eps2)] is row [i] of the array of normal draws made after
    seeding (two consecutive draws of the generator), the same [eps2] is used
    in both updates, [Delta_t = maturity_T / iteration_times], and entry 0 of
    either list is the current value. *)
Theorem start_monte_carlo_step_update (self : Single_time_Monte_Carlo) (w : world) :
  reachable self -> (1 <= iteration_times self)%Z ->
  mean_reversion_speed self <> 0 -> seed_accepted (random_seed self) ->
  exists self' w1 w2,
    np_random_seed (random_seed self) w = Ok w1
    /\ start_monte_carlo self w = Ok (self', w2)
    /\ same_parameters self self'
    /\ timestep self' = maturity_T self' / IZR (iteration_times self')
    /\ value <$> (domestic_risk_free_rate_list self' !! 0%nat)
       = Some (current_federal_funds_rate self')
    /\ value <$> (nikkei_price_list self' !! 0%nat) = Some (current_nikkei_price self')
    /\ forall i : nat, (Z.of_nat i < iteration_times self')%Z ->
         exists epsilon1 epsilon2 theta r_i S_i,
           (draw_rows (Z.to_nat (iteration_times self')) (np_random w1)).1 !! i
             = Some (epsilon1, epsilon2)
           /\ Theta self' (INR i * timestep self') = Ok theta
           /\ value <$> (domestic_risk_free_rate_list self' !! i) = Some r_i
           /\ value <$> (nikkei_price_list self' !! i) = Some S_i
           /\ value <$> (domestic_risk_free_rate_list self' !! (i + 1)%nat)
              = Some (r_i
                      + (theta - mean_reversion_speed self' * r_i) * timestep self'
                      + domestic_risk_free_rate_vol self' * sqrt (timestep self')
                        * (correlation_foreign_asset_and_domestic_risk_free_rate self' * epsilon2
                           + sqrt (1 - correlation_foreign_asset_and_domestic_risk_free_rate self' ^ 2)
                             * epsilon1))
           /\ value <$> (nikkei_price_list self' !! (i + 1)%nat)
              = Some (S_i
                      + S_i * (foreign_risk_free_rate self' - nikkei_dividends self'
                               - correlation_foreign_asset_and_exchange_rate self'
                                 * foreign_asset_vol self' * exchange_rate_vol self')
                        * timestep self'
                      + S_i * foreign_asset_vol self' * sqrt (timestep self') * epsilon2).
Proof.
  intros Hreach HN Ha Hseed.
  pose proof (reachable_well_formed self Hreach) as Hwf.
  destruct (start_monte_carlo_success self w Hwf HN Ha Hseed)
    as (w1 & w2 & rates & prices & Hw1 & _ & Hrun & L1 & L2 & Hr0 & Hp0 & Hrec).
  exists (set_lists self rates prices), w1, w2.
  split; [exact Hw1|]. split; [exact Hrun|]. split; [reflexivity|].
  split; [apply (wf_timestep self Hwf)|].
  cbn [domestic_risk_free_rate_list nikkei_price_list set_lists].
  split; [by rewrite Hr0|]. split; [by rewrite Hp0|].
  intros i Hi. cbn [iteration_times set_lists] in Hi.
  destruct (Hrec i) as (epsilon1 & epsilon2 & r & s0 & He & Hr & Hs & Hr' & Hs'); [lia|].
  exists epsilon1, epsilon2, (drift_at self i), (value r), (value s0).
  replace (i + 1)%nat with (S i) by lia.
  split; [exact He|]. split; [rewrite Theta_ok by exact Ha; reflexivity|].
  rewrite Hr, Hs, Hr', Hs'. by repeat split.
Qed.

(** C6.  Two invocations of [start_monte_carlo] on reachable engines with
    the same parameters and the same explicit seed, started from any two
    states of the random source and any previous contents of the path lists,
    have the same outcome: the generator is put in the same state, so the
    draws are the same, and either both raise the same exception or both
    return engines that are equal (equal short-rate and asset-price paths)
    and leave the generator in the same state. *)
Theorem start_monte_carlo_deterministic
    (self other : Single_time_Monte_Carlo) (w w' : world) (s : Z) :
  reachable self -> reachable other -> same_parameters self other ->
  random_seed self = Some s ->
  (np_random <$> np_random_seed (Some s) w) = (np_random <$> np_random_seed (Some s) w')
  /\ match start_monte_carlo self w, start_monte_carlo other w' with
     | Ok (self1, w1), Ok (other1, w1') => self1 = other1 /\ np_random w1 = np_random w1'
     | Raise x, Raise y => x = y
     | _, _ => False
     end.
Proof.
  intros Hself Hother Hsame Hseed.
  apply reachable_well_formed in Hself, Hother.
  split.
  { unfold np_random_seed. destruct (decide (0 <= s < 2 ^ 32)%Z); reflexivity. }
  assert (Pa : mean_reversion_speed other = mean_reversion_speed self) by (rewrite Hsame; reflexivity).
  assert (Pn : iteration_times other = iteration_times self) by (rewrite Hsame; reflexivity).
  assert (Ps : random_seed other = random_seed self) by (rewrite Hsame; reflexivity).
  destruct (decide (1 <= iteration_times self)%Z) as [HN|HN].
  - destruct (decide (0 <= s < 2 ^ 32)%Z) as [Hs|Hs].
    + destruct (Req_dec_T (mean_reversion_speed self) 0) as [Ha|Ha].
      * rewrite !start_monte_carlo_zero_speed; try assumption; try reflexivity;
          try congruence; try lia.
        -- rewrite Ps, Hseed. exact Hs.
        -- rewrite Hseed. exact Hs.
      * destruct (seeded_run_independent self other w w' s Hself Hother Hsame HN Ha Hseed Hs)
          as (rates & prices & w1 & w1' & Hrun & Hrun' & Hst & _).
        rewrite Hrun, Hrun'. by split.
    + rewrite !start_monte_carlo_refused_seed; try assumption; try reflexivity; try lia.
      * rewrite Ps, Hseed. exact Hs.
      * rewrite Hseed. exact Hs.
  - destruct Hself as [Hn _ Hr _]. destruct Hother as [_ _ Hr' _].
    rewrite !start_monte_carlo_empty; [reflexivity | |].
    + apply nil_length_inv. rewrite Hr'. lia.
    + apply nil_length_inv. rewrite Hr. lia.
Qed.

(** ** Reading the path *)

Lemma py_int_nonneg (x : R) : 0 <= x -> py_int x = Zfloor x.
Proof.
  intros Hx. unfold py_int. destruct (Rle_dec 0 x); [reflexivity | contradiction].
Qed.

(** Truncation and floor give the same [range]. *)
Lemma py_range_int_floor (x : R) : py_range (py_int x) = py_range (Zfloor x).
Proof.
  unfold py_range, py_int. destruct (Rle_dec 0 x) as [Hx|Hx]; [reflexivity|].
  assert (Hc : (Zceil x <= 0)%Z).
  { pose proof (Zceil_bound x) as [Hb _].
    assert (H : IZR (Zceil x) < IZR 1) by (simpl; lra).
    apply lt_IZR in H. lia. }
  assert (Hf : (Zfloor x <= 0)%Z).
  { pose proof (Zfloor_bound x) as [Hb _].
    assert (H : IZR (Zfloor x) < IZR 0) by (simpl; lra).
    apply lt_IZR in H. lia. }
  replace (Z.to_nat (Zceil x)) with 0%nat by lia.
  replace (Z.to_nat (Zfloor x)) with 0%nat by lia. reflexivity.
Qed.

Lemma timestep_positive (self : Single_time_Monte_Carlo) :
  well_formed self -> (1 <= iteration_times self)%Z -> 0 < maturity_T self ->
  0 < timestep self.
Proof.
  intros Hwf HN HT. rewrite (wf_timestep self Hwf).
  apply Rdiv_lt_0_compat; [assumption|]. apply IZR_lt. lia.
Qed.

Lemma timestep_zero (self : Single_time_Monte_Carlo) :
  well_formed self -> maturity_T self = 0 -> timestep self = 0.
Proof.
  intros Hwf HT. rewrite (wf_timestep self Hwf), HT. unfold Rdiv. apply Rmult_0_l.
Qed.

(** The index of a time between 0 and the maturity. *)
Lemma index_in_path (self : Single_time_Monte_Carlo) (time : R) :
  well_formed self -> (1 <= iteration_times self)%Z ->
  0 <= time <= maturity_T self ->
  (0 <= Zfloor (time / timestep self) <= iteration_times self)%Z
  /\ py_int (time / timestep self) = Zfloor (time / timestep self).
Proof.
  intros Hwf HN [H0 HT].
  assert (HNR : 0 < IZR (iteration_times self)) by (apply IZR_lt; lia).
  assert (Hq : 0 <= time / timestep self <= IZR (iteration_times self)).
  { destruct (Req_dec_T (maturity_T self) 0) as [Hz|Hnz].
    - rewrite (timestep_zero self Hwf Hz).
      assert (time = 0) by lra. subst time. unfold Rdiv. rewrite Rmult_0_l. lra.
    - assert (Hdt : 0 < timestep self) by (apply timestep_positive; try assumption; lra).
      split.
      + unfold Rdiv. apply Rmult_le_pos; [assumption|].
        left. apply Rinv_0_lt_compat. assumption.
      + apply (Rmult_le_reg_r (timestep self)); [assumption|].
        replace (time / timestep self * timestep self) with time by (field; lra).
        rewrite (wf_timestep self Hwf).
        replace (IZR (iteration_times self) * (maturity_T self / IZR (iteration_times self)))
          with (maturity_T self) by (field; lra).
        exact HT. }
  destruct Hq as [Hq0 HqN]. split; [split|].
  - apply Zfloor_lub. simpl. exact Hq0.
  - rewrite <- (ZfloorZ (iteration_times self)). apply Zfloor_le. exact HqN.
  - apply py_int_nonneg. exact Hq0.
Qed.

(** The index of the maturity itself is [iteration_times]. *)
Lemma index_at_maturity (self : Single_time_Monte_Carlo) :
  well_formed self -> maturity_T self <> 0 ->
  timestep self <> 0 /\ maturity_T self / timestep self = IZR (iteration_times self).
Proof.
  intros Hwf HT.
  assert (HNR : IZR (iteration_times self) <> 0).
  { intros H. apply eq_IZR_R0 in H. exact (wf_iterations self Hwf H). }
  rewrite (wf_timestep self Hwf). split.
  - intros H. apply HT.
    replace (maturity_T self)
      with (maturity_T self / IZR (iteration_times self) * IZR (iteration_times self))
      by (field; assumption).
    rewrite H. lra.
  - field. split; assumption.
Qed.

Lemma for_range_app {S : Type} (body : nat -> S -> result S) (l1 l2 : list nat) (s : S) :
  for_range body (l1 ++ l2) s = for_range body l1 s ≫= for_range body l2.
Proof.
  revert s. induction l1 as [|i l1 IH]; intros s; [reflexivity|].
  cbn [app for_range]. destruct (body i s) as [s'|x]; [|reflexivity].
  cbn [mbind result_bind]. apply IH.
Qed.

(** The summation loop of [discount_factor]. *)
Lemma short_rate_sum (rates : list scalar) (dt : R) (n : nat) :
  (n <= length rates)%nat ->
  for_range (fun i acc => r_i ← py_getitem rates (Z.of_nat i); Ok (acc + value r_i * dt))
    (seq 0 n) 0
  = Ok (big_sum n (fun i => value (nth i rates (PyNum 0)) * dt)).
Proof.
  induction n as [|n IH]; intros Hn; [reflexivity|].
  rewrite seq_S, for_range_app, IH by lia. cbn [mbind result_bind Nat.add for_range].
  destruct (lookup_lt_is_Some_2 rates n) as [r Hr]; [lia|].
  rewrite (py_getitem_nat _ _ _ Hr). cbn [mbind result_bind big_sum].
  by rewrite (nth_lookup_Some _ _ _ _ Hr).
Qed.

Lemma big_sum_zero (n : nat) (f : nat -> R) :
  (forall i, (i < n)%nat -> f i = 0) -> big_sum n f = 0.
Proof.
  induction n as [|n IH]; intros Hf; [reflexivity|].
  cbn [big_sum]. rewrite IH by (intros; apply Hf; lia). rewrite Hf by lia. lra.
Qed.

(** With a non-zero maturity both accessors return the entry at the index
    of the time. *)
Lemma accessors_return (self : Single_time_Monte_Carlo) (time : R) :
  well_formed self -> (1 <= iteration_times self)%Z ->
  0 <= time <= maturity_T self -> maturity_T self <> 0 ->
  exists r s,
    domestic_risk_free_rate_list self !! Z.to_nat (Zfloor (time / timestep self)) = Some r
    /\ nikkei_price_list self !! Z.to_nat (Zfloor (time / timestep self)) = Some s
    /\ get_domestic_risk_free_rate_at_a_specified_time self time = Ok r
    /\ get_nikkei_price_at_a_specified_time self time = Ok s.
Proof.
  intros Hwf HN Htime HT.
  destruct (index_in_path self time Hwf HN Htime) as [Hidx Hint].
  pose proof (wf_rates self Hwf) as Lr. pose proof (wf_prices self Hwf) as Lp.
  destruct (py_getitem_in_range (domestic_risk_free_rate_list self)
              (Zfloor (time / timestep self))) as (r & Hr & Hgr); [lia|].
  destruct (py_getitem_in_range (nikkei_price_list self)
              (Zfloor (time / timestep self))) as (s0 & Hs & Hgs); [lia|].
  exists r, s0. split; [exact Hr|]. split; [exact Hs|].
  destruct (index_at_maturity self Hwf HT) as [Hdt _].
  unfold get_domestic_risk_free_rate_at_a_specified_time,
    get_nikkei_price_at_a_specified_time.
  rewrite py_truediv_ok by exact Hdt. cbn [mbind result_bind].
  rewrite Hint. by split.
Qed.

Lemma py_max_Rmax (a b : R) : py_max a b = Rmax a b.
Proof.
  unfold py_max, Rmax. destruct (Rlt_dec a b), (Rle_dec a b); lra.
Qed.

Lemma py_max_floor (x : R) : 0 <= py_max 0 x.
Proof.
  unfold py_max. destruct (Rlt_dec 0 x); lra.
Qed.

Lemma scalar_truediv_value (x : scalar) (y q : R) :
  scalar_truediv x y = Ok q -> q = value x / y.
Proof.
  destruct x as [a|a]; simpl.
  - unfold py_truediv. destruct (Req_dec_T y 0); intros H; inversion H. reflexivity.
  - intros H. inversion H. reflexivity.
Qed.

Lemma libor_rate_ratio_ok (self : Single_time_Monte_Carlo) (t T : R) (r_t : scalar) :
  mean_reversion_speed self <> 0 ->
  get_domestic_risk_free_rate_at_a_specified_time self t = Ok r_t ->
  libor_rate_ratio self t T
  = Ok (libor_ratio_spec (bond_data self) (mean_reversion_speed self)
          (domestic_risk_free_rate_vol self) t T (value r_t)).
Proof.
  intros Ha Hr. unfold libor_rate_ratio. rewrite Hr. cbn [mbind result_bind].
  rewrite p_t_T_ok by exact Ha. reflexivity.
Qed.

Lemma seed_accepted_dec (seed : option Z) : {seed_accepted seed} + {~ seed_accepted seed}.
Proof.
  destruct seed as [s0|]; simpl; [apply decide; apply _ | left; exact I].
Defined.

(** What a returned run tells about the engine it leaves. *)
Lemma simulated_facts (self : Single_time_Monte_Carlo) :
  simulated self ->
  well_formed self
  /\ (1 <= iteration_times self)%Z
  /\ mean_reversion_speed self <> 0
  /\ seed_accepted (random_seed self)
  /\ domestic_risk_free_rate_list self !! 0%nat
     = Some (PyNum (current_federal_funds_rate self))
  /\ nikkei_price_list self !! 0%nat = Some (PyNum (current_nikkei_price self))
  /\ (forall i, (1 <= i <= Z.to_nat (iteration_times self))%nat ->
        exists x y, domestic_risk_free_rate_list self !! i = Some (NpNum x)
                    /\ nikkei_price_list self !! i = Some (NpNum y)).
Proof.
  intros [self0 self' w w' Hreach Hrun].
  pose proof (reachable_well_formed self0 Hreach) as Hwf0.
  pose proof (start_monte_carlo_well_formed _ _ _ _ Hwf0 Hrun) as Hwf.
  destruct (start_monte_carlo_frame _ _ _ _ Hrun) as (Heq & _ & _ & Hpos).
  assert (HN : (1 <= iteration_times self0)%Z).
  { pose proof (wf_iterations self0 Hwf0). pose proof (wf_rates self0 Hwf0). lia. }
  assert (Hseed : seed_accepted (random_seed self0)).
  { destruct (seed_accepted_dec (random_seed self0)) as [Hs|Hs]; [exact Hs|].
    rewrite start_monte_carlo_refused_seed in Hrun by assumption. discriminate. }
  assert (Ha : mean_reversion_speed self0 <> 0).
  { intros Ha. rewrite start_monte_carlo_zero_speed in Hrun by assumption. discriminate. }
  destruct (start_monte_carlo_success self0 w Hwf0 HN Ha Hseed)
    as (w1 & w2 & rates & prices & _ & _ & Hrun' & L1 & L2 & Hr0 & Hp0 & Hrec).
  rewrite Hrun in Hrun'. inversion Hrun' as [[Hself Hw]]. clear Hrun'.
  cbn [iteration_times mean_reversion_speed random_seed domestic_risk_free_rate_list
       nikkei_price_list current_federal_funds_rate current_nikkei_price set_lists].
  split; [rewrite <- Hself; exact Hwf|].
  split; [exact HN|]. split; [exact Ha|]. split; [exact Hseed|].
  split; [exact Hr0|]. split; [exact Hp0|].
  intros i Hi. destruct i as [|i]; [lia|].
  destruct (Hrec i) as (e1 & e2 & r & s0 & _ & _ & _ & Hr' & Hs'); [lia|].
  eauto.
Qed.

(** The payoff on a simulated engine whose contract dates lie on the path. *)
Lemma payoff_returns (self : Single_time_Monte_Carlo) :
  simulated self ->
  0 < maturity_T self -> 0 <= Delta self <= maturity_T self ->
  exists S_T r_t,
    nikkei_price_list self !! Z.to_nat (iteration_times self) = Some (NpNum S_T)
    /\ get_nikkei_price_at_a_specified_time self (maturity_T self) = Ok (NpNum S_T)
    /\ get_domestic_risk_free_rate_at_a_specified_time self (maturity_T self - Delta self)
       = Ok r_t
    /\ price_Exotic_Option_at_maturity self
       = Ok (py_max 0
               ((S_T / current_nikkei_price self - strike_price_nikkei self)
                * (strike_price_libor self
                   - libor_ratio_spec (bond_data self) (mean_reversion_speed self)
                       (domestic_risk_free_rate_vol self)
                       (maturity_T self - Delta self) (maturity_T self) (value r_t)))).
Proof.
  intros Hsim HT HD.
  destruct (simulated_facts self Hsim) as (Hwf & HN & Ha & _ & _ & _ & Hnp).
  destruct (accessors_return self (maturity_T self) Hwf HN) as (r & S_T & _ & HS & _ & HgS);
    [lra | lra |].
  destruct (accessors_return self (maturity_T self - Delta self) Hwf HN)
    as (r_t & s0 & _ & _ & Hgr & _); [lra | lra |].
  destruct (index_at_maturity self Hwf) as [_ Hq]; [lra|].
  rewrite Hq, ZfloorZ in HS.
  destruct (Hnp (Z.to_nat (iteration_times self))) as (x & y & _ & Hy); [lia|].
  rewrite HS in Hy. inversion Hy; subst S_T.
  exists y, r_t. split; [exact HS|]. split; [exact HgS|]. split; [exact Hgr|].
  unfold price_Exotic_Option_at_maturity. rewrite HgS. cbn [mbind result_bind scalar_truediv].
  rewrite (libor_rate_ratio_ok self _ _ r_t Ha Hgr). reflexivity.
Qed.

(** Whatever the engine, a payoff that is returned is the floored product of
    the two legs, hence not negative. *)
Lemma payoff_returned (self : Single_time_Monte_Carlo) (v : R) :
  price_Exotic_Option_at_maturity self = Ok v ->
  0 <= v
  /\ exists S_T l,
       get_nikkei_price_at_a_specified_time self (maturity_T self) = Ok S_T
       /\ libor_rate_ratio self (maturity_T self - Delta self) (maturity_T self) = Ok l
       /\ v = Rmax 0 ((value S_T / current_nikkei_price self - strike_price_nikkei self)
                      * (strike_price_libor self - l)).
Proof.
  unfold price_Exotic_Option_at_maturity. intros H.
  bind_inv H. bind_inv H. bind_inv H. inversion H. split; [apply py_max_floor|].
  exists v0, v2. split; [exact Hv|]. split; [exact Hv1|].
  rewrite py_max_Rmax, (scalar_truediv_value _ _ _ Hv0). reflexivity.
Qed.

Lemma discount_factor_total (self : Single_time_Monte_Carlo) (T : R) :
  timestep self <> 0 ->
  (Zfloor (T / timestep self) <= Z.of_nat (length (domestic_risk_free_rate_list self)))%Z ->
  exists d, discount_factor self T = Ok d.
Proof.
  intros Hdt Hend. unfold discount_factor.
  rewrite py_truediv_ok by exact Hdt. cbn [mbind result_bind].
  rewrite py_range_int_floor. unfold py_range.
  rewrite short_rate_sum by lia. eexists. reflexivity.
Qed.

(** ** Claims on the read-outs *)

(** C10.  On a reachable engine with [iteration_times >= 1], for every time
    with [0 <= time <= maturity_T] the accessor index
    [floor(time / Delta_t)] lies between 0 and [iteration_times], which is a
    position of both path lists (their length is [iteration_times + 1]); so
    with a non-zero maturity both read-outs return the entry at that index,
    also at [time = maturity_T], and with a zero maturity they stop at the
    division by the zero [timestep] before any list is read. *)
Theorem accessor_index_in_bounds (self : Single_time_Monte_Carlo) (time : R) :
  reachable self -> (1 <= iteration_times self)%Z ->
  0 <= time <= maturity_T self ->
  let index_in_list := Zfloor (time / timestep self) in
  (0 <= index_in_list <= iteration_times self)%Z
  /\ length (domestic_risk_free_rate_list self) = Z.to_nat (iteration_times self + 1)
  /\ length (nikkei_price_list self) = Z.to_nat (iteration_times self + 1)
  /\ exists r s,
       domestic_risk_free_rate_list self !! Z.to_nat index_in_list = Some r
       /\ nikkei_price_list self !! Z.to_nat index_in_list = Some s
       /\ (maturity_T self <> 0 ->
           get_domestic_risk_free_rate_at_a_specified_time self time = Ok r
           /\ get_nikkei_price_at_a_specified_time self time = Ok s)
       /\ (maturity_T self = 0 ->
           get_domestic_risk_free_rate_at_a_specified_time self time = Raise ZeroDivisionError
           /\ get_nikkei_price_at_a_specified_time self time = Raise ZeroDivisionError).
Proof.
  intros Hreach HN Htime index_in_list.
  pose proof (reachable_well_formed self Hreach) as Hwf.
  destruct (index_in_path self time Hwf HN Htime) as [Hidx Hint].
  fold index_in_list in Hidx, Hint.
  pose proof (wf_rates self Hwf) as Lr. pose proof (wf_prices self Hwf) as Lp.
  split; [exact Hidx|]. split; [exact Lr|]. split; [exact Lp|].
  destruct (lookup_lt_is_Some_2 (domestic_risk_free_rate_list self) (Z.to_nat index_in_list))
    as [r Hr]; [lia|].
  destruct (lookup_lt_is_Some_2 (nikkei_price_list self) (Z.to_nat index_in_list))
    as [s0 Hs]; [lia|].
  exists r, s0. split; [exact Hr|]. split; [exact Hs|]. split.
  - intros HT.
    destruct (accessors_return self time Hwf HN Htime HT) as (r' & s' & Hr' & Hs' & Hgr & Hgs).
    fold index_in_list in Hr', Hs'. rewrite Hgr, Hgs. split; congruence.
  - intros HT.
    unfold get_domestic_risk_free_rate_at_a_specified_time,
      get_nikkei_price_at_a_specified_time.
    rewrite (timestep_zero self Hwf HT), py_truediv_zero. by split.
Qed.

(** C4.  Whenever [timestep] is not zero and [end = floor(T / Delta_t)] does
    not exceed the length of the rate list, [discount_factor(T)] returns
    [exp(- Σ_{i=0}^{end-1} r[i] * Delta_t)], the left Riemann sum with no
    floor or cap on the result: it exceeds 1 when the sum is negative, and it
    is exactly 1 when every entry of the short-rate path is zero. *)
Theorem discount_factor_riemann_sum (self : Single_time_Monte_Carlo) (T : R) :
  timestep self <> 0 ->
  (Zfloor (T / timestep self) <= Z.of_nat (length (domestic_risk_free_rate_list self)))%Z ->
  let end_index := Z.to_nat (Zfloor (T / timestep self)) in
  let riemann_sum :=
    big_sum end_index
      (fun i => value (nth i (domestic_risk_free_rate_list self) (PyNum 0)) * timestep self) in
  discount_factor self T = Ok (exp (- riemann_sum))
  /\ (riemann_sum < 0 -> exists d, discount_factor self T = Ok d /\ 1 < d)
  /\ ((forall i r, domestic_risk_free_rate_list self !! i = Some r -> value r = 0) ->
      discount_factor self T = Ok 1).
Proof.
  intros Hdt Hend end_index riemann_sum.
  assert (Hdf : discount_factor self T = Ok (exp (- riemann_sum))).
  { unfold discount_factor. rewrite py_truediv_ok by exact Hdt. cbn [mbind result_bind].
    rewrite py_range_int_floor. unfold py_range. fold end_index.
    rewrite short_rate_sum by (unfold end_index; lia). reflexivity. }
  split; [exact Hdf|]. split.
  - intros Hneg. exists (exp (- riemann_sum)). split; [exact Hdf|].
    rewrite <- exp_0. apply exp_increasing. lra.
  - intros Hzero. rewrite Hdf. unfold riemann_sum. rewrite big_sum_zero.
    + rewrite Ropp_0, exp_0. reflexivity.
    + intros i Hi.
      destruct (lookup_lt_is_Some_2 (domestic_risk_free_rate_list self) i) as [r Hr];
        [unfold end_index in Hi; lia|].
      rewrite (nth_lookup_Some _ _ _ _ Hr), (Hzero i r Hr). lra.
Qed.

(** C7 (as amended).  With a non-zero mean-reversion speed, whenever the
    read of the short rate at time [t] returns [r_t], [libor_rate_ratio(t, T)]
    returns [price(T) / (price(t) - price(T)) * (1/p(t,T,r_t) - 1)] with
    [p(t,T,r_t)] the analytic bond price; the denominator is not inspected,
    so a value is returned also when [price(t)] equals [price(T)]. *)
Theorem libor_rate_ratio_unguarded
    (self : Single_time_Monte_Carlo) (t T : R) (r_t : scalar) :
  mean_reversion_speed self <> 0 ->
  get_domestic_risk_free_rate_at_a_specified_time self t = Ok r_t ->
  let price := get_value_on_cubic_spline_for_bond_prices (bond_data self) in
  let p := p_spec (bond_data self) (mean_reversion_speed self)
             (domestic_risk_free_rate_vol self) t T (value r_t) in
  p_t_T self t T (value r_t) = Ok p
  /\ libor_rate_ratio self t T = Ok (price T / (price t - price T) * (1 / p - 1)).
Proof.
  intros Ha Hr price p. split.
  - apply p_t_T_ok. exact Ha.
  - rewrite (libor_rate_ratio_ok self t T r_t Ha Hr). reflexivity.
Qed.

(** C3.  On a simulated engine (one a run of [start_monte_carlo] has
    returned) with a positive maturity and an accrual offset between 0 and
    the maturity, the terminal payoff is returned and equals
    [max(0, (S(T)/S(0) - strike_asset) * (strike_rate - liborRatio(T - Delta, T)))],
    with [S(T)] the price read at the maturity and [S(0)] the first entry of
    the price path, the current price; and whatever the engine, its path,
    its contract and its parameters, a payoff that is returned is that
    floored product and is greater than or equal to zero. *)
Theorem payoff_at_maturity_floored (self : Single_time_Monte_Carlo) :
  simulated self ->
  0 < maturity_T self -> 0 <= Delta self <= maturity_T self ->
  (exists S_T S_0 l v,
     value <$> (nikkei_price_list self !! 0%nat) = Some S_0
     /\ S_0 = current_nikkei_price self
     /\ value <$> get_nikkei_price_at_a_specified_time self (maturity_T self) = Ok S_T
     /\ libor_rate_ratio self (maturity_T self - Delta self) (maturity_T self) = Ok l
     /\ price_Exotic_Option_at_maturity self = Ok v
     /\ v = Rmax 0 ((S_T / S_0 - strike_price_nikkei self) * (strike_price_libor self - l))
     /\ 0 <= v)
  /\ (forall (other : Single_time_Monte_Carlo) (v : R),
        price_Exotic_Option_at_maturity other = Ok v ->
        0 <= v
        /\ exists S_T l,
             get_nikkei_price_at_a_specified_time other (maturity_T other) = Ok S_T
             /\ libor_rate_ratio other (maturity_T other - Delta other) (maturity_T other)
                = Ok l
             /\ v = Rmax 0 ((value S_T / current_nikkei_price other - strike_price_nikkei other)
                            * (strike_price_libor other - l))).
Proof.
  intros Hsim HT HD.
  split; [|exact payoff_returned].
  destruct (simulated_facts self Hsim) as (Hwf & HN & Ha & _ & _ & Hp0 & _).
  destruct (payoff_returns self Hsim HT HD) as (S_T & r_t & HS & HgS & Hgr & Hv).
  eexists S_T, (current_nikkei_price self), _, _.
  split; [by rewrite Hp0|]. split; [reflexivity|].
  split; [by rewrite HgS|].
  split; [exact (libor_rate_ratio_ok self _ _ r_t Ha Hgr)|].
  split; [exact Hv|]. split; [apply py_max_Rmax | apply py_max_floor].
Qed.

(** ** Claims on the constructor *)

(** C8 (as amended).  The constructor checks no model parameter: for every
    argument list with [iteration_times <> 0] it returns an engine that
    stores the mean-reversion speed, the two correlations, the three
    volatilities and [iteration_times] exactly as given (nothing is clamped),
    and with [iteration_times = 0] it raises [ZeroDivisionError] from
    [maturity_T / iteration_times]. *)
Theorem init_stores_arguments_unchecked (a : init_args) :
  (arg_iteration_times a <> 0%Z ->
   exists self,
     __init__ a = Ok self
     /\ mean_reversion_speed self = arg_mean_reversion_speed a
     /\ correlation_foreign_asset_and_domestic_risk_free_rate self
        = arg_correlation_foreign_asset_and_domestic_risk_free_rate a
     /\ correlation_foreign_asset_and_exchange_rate self
        = arg_correlation_foreign_asset_and_exchange_rate a
     /\ domestic_risk_free_rate_vol self = arg_domestic_risk_free_rate_vol a
     /\ foreign_asset_vol self = arg_foreign_asset_vol a
     /\ exchange_rate_vol self = arg_exchange_rate_vol a
     /\ iteration_times self = arg_iteration_times a)
  /\ (arg_iteration_times a = 0%Z -> __init__ a = Raise ZeroDivisionError).
Proof.
  split.
  - intros Hn. eexists. split; [apply init_ok; exact Hn|]. by repeat split.
  - apply init_zero_iterations.
Qed.

(** ** The aggregation loop *)

Lemma foldr_Rplus_replicate (n : nat) (v : R) : foldr Rplus 0 (replicate n v) = INR n * v.
Proof.
  induction n as [|n IH]; [simpl; lra|].
  cbn [replicate foldr]. rewrite IH, S_INR. lra.
Qed.

Lemma cumulative_average_replicate (n i : nat) (v : R) :
  (i < n)%nat -> cumulative_average_of_list (replicate n v) !! i = Some v.
Proof.
  intros Hi. rewrite cumulative_average_lookup by (rewrite length_replicate; exact Hi).
  rewrite take_replicate, py_sum_foldr, foldr_Rplus_replicate.
  replace (Nat.min (i + 1) n) with (i + 1)%nat by lia.
  f_equal. field. apply not_0_INR. lia.
Qed.

Lemma simulation_step_ok (i : nat) (st : aggregation)
    (engine : Single_time_Monte_Carlo) (w : world) (v : R) :
  start_monte_carlo (single_time_monte_carlo st) (random_source st) = Ok (engine, w) ->
  price_Exotic_Option_at_maturity engine = Ok v ->
  simulation_step i st
  = Ok {| single_time_monte_carlo := engine;
          random_source := w;
          df_domestic_short_rate_processes :=
            df_domestic_short_rate_processes st
            ++ [value <$> domestic_risk_free_rate_list engine];
          list_of_prices_Exotic_option := list_of_prices_Exotic_option st ++ [v] |}.
Proof.
  intros Hrun Hv. unfold simulation_step. rewrite Hrun. cbn [mbind result_bind].
  rewrite Hv. reflexivity.
Qed.

(** If every run returns the engine [fixed] and the payoff on it is [v], the
    loop appends the same column and the same price at each pass. *)
Lemma simulation_loop_constant (self fixed : Single_time_Monte_Carlo) (v : R) :
  well_formed fixed -> same_parameters self fixed ->
  (forall other w, well_formed other -> same_parameters self other ->
     exists w', start_monte_carlo other w = Ok (fixed, w')) ->
  price_Exotic_Option_at_maturity fixed = Ok v ->
  forall (m k : nat) (st : aggregation),
    well_formed (single_time_monte_carlo st) ->
    same_parameters self (single_time_monte_carlo st) ->
    exists st',
      for_range simulation_step (seq k m) st = Ok st'
      /\ df_domestic_short_rate_processes st'
         = df_domestic_short_rate_processes st
           ++ replicate m (value <$> domestic_risk_free_rate_list fixed)
      /\ list_of_prices_Exotic_option st'
         = list_of_prices_Exotic_option st ++ replicate m v
      /\ ((0 < m)%nat -> single_time_monte_carlo st' = fixed).
Proof.
  intros Hwf Hsame Hrun Hv. induction m as [|m IH]; intros k st Hst Hsp.
  - exists st. cbn [seq for_range replicate]. rewrite !app_nil_r.
    repeat split; try reflexivity. lia.
  - destruct (Hrun (single_time_monte_carlo st) (random_source st) Hst Hsp) as [w' Hw'].
    cbn [seq for_range]. rewrite (simulation_step_ok k st fixed w' v Hw' Hv).
    cbn [mbind result_bind].
    match goal with |- context [for_range _ _ ?x] => destruct (IH (S k) x) as (st' & H1 & H2 & H3 & H4) end;
      [exact Hwf | exact Hsame |].
    exists st'. split; [exact H1|]. cbn in H2, H3, H4.
    split; [|split].
    + rewrite H2, <- app_assoc. reflexivity.
    + rewrite H3, <- app_assoc. reflexivity.
    + intros _. destruct m as [|m]; [|apply H4; lia].
      cbn [seq for_range] in H1. inversion H1. reflexivity.
Qed.

(** With an accepted integer seed, a run on any engine with the parameters
    of [self], from any state of the random source, draws its rows from the
    state of the seed: the lists it leaves start at the current values and
    obey the update rule for those rows, and the generator is left in the
    state after them. *)
Lemma seeded_run_from_seed (self other : Single_time_Monte_Carlo) (w : world) (s : Z) :
  well_formed other -> same_parameters self other ->
  (1 <= iteration_times self)%Z -> mean_reversion_speed self <> 0 ->
  random_seed self = Some s -> (0 <= s < 2 ^ 32)%Z ->
  exists rates prices w1,
    start_monte_carlo other w = Ok (set_lists self rates prices, w1)
    /\ np_random w1 = (draw_rows (Z.to_nat (iteration_times self)) (init_by_seed s)).2
    /\ length rates = S (Z.to_nat (iteration_times self))
    /\ length prices = S (Z.to_nat (iteration_times self))
    /\ rates !! 0%nat = Some (PyNum (current_federal_funds_rate self))
    /\ prices !! 0%nat = Some (PyNum (current_nikkei_price self))
    /\ follows_recurrence self
         (draw_rows (Z.to_nat (iteration_times self)) (init_by_seed s)).1
         rates prices 0 (Z.to_nat (iteration_times self)).
Proof.
  intros Hother Hsame HN Ha Hseed Hs.
  assert (Pa : mean_reversion_speed other = mean_reversion_speed self) by (rewrite Hsame; reflexivity).
  assert (Pn : iteration_times other = iteration_times self) by (rewrite Hsame; reflexivity).
  assert (Ps : random_seed other = random_seed self) by (rewrite Hsame; reflexivity).
  destruct (start_monte_carlo_success other w Hother)
    as (w1 & w2 & rates & prices & Hw1 & Hw2 & Hrun & L1 & L2 & Hr0 & Hp0 & Hrec);
    [lia | congruence | rewrite Ps, Hseed; exact Hs |].
  rewrite Ps, Hseed in Hw1.
  destruct (np_random_seed_some s w Hs) as (u & Hu & Hust).
  assert (u = w1) by congruence. subst u.
  rewrite Pn in *. rewrite Hust in *.
  exists rates, prices, w2.
  split; [rewrite Hrun, Hsame; reflexivity|].
  split; [exact Hw2|]. split; [exact L1|]. split; [exact L2|].
  split; [rewrite Hr0, Hsame; reflexivity|].
  split; [rewrite Hp0, Hsame; reflexivity|].
  intros i Hi. destruct (Hrec i Hi) as (e1 & e2 & r & s0 & H1 & H2 & H3 & H4 & H5).
  exists e1, e2, r, s0.
  split; [exact H1|]. split; [exact H2|]. split; [exact H3|].
  split; [rewrite H4, Hsame; reflexivity | rewrite H5, Hsame; reflexivity].
Qed.

(** If every run returns the engine [fixed] and leaves the random source in
    a state satisfying [P], and the payoff on [fixed] is [v], the loop
    appends the same column and the same price at each pass, and after at
    least one pass it holds [fixed] and a random source satisfying [P]. *)
Lemma simulation_loop_seeded (self fixed : Single_time_Monte_Carlo) (v : R)
    (P : world -> Prop) :
  well_formed fixed -> same_parameters self fixed ->
  (forall other w, well_formed other -> same_parameters self other ->
     exists w', start_monte_carlo other w = Ok (fixed, w') /\ P w') ->
  price_Exotic_Option_at_maturity fixed = Ok v ->
  forall (m k : nat) (st : aggregation),
    well_formed (single_time_monte_carlo st) ->
    same_parameters self (single_time_monte_carlo st) ->
    exists st',
      for_range simulation_step (seq k m) st = Ok st'
      /\ df_domestic_short_rate_processes st'
         = df_domestic_short_rate_processes st
           ++ replicate m (value <$> domestic_risk_free_rate_list fixed)
      /\ list_of_prices_Exotic_option st'
         = list_of_prices_Exotic_option st ++ replicate m v
      /\ ((0 < m)%nat ->
          single_time_monte_carlo st' = fixed /\ P (random_source st')).
Proof.
  intros Hwf Hsame Hrun Hv. induction m as [|m IH]; intros k st Hst Hsp.
  - exists st. cbn [seq for_range replicate]. rewrite !app_nil_r.
    repeat split; try reflexivity; lia.
  - destruct (Hrun (single_time_monte_carlo st) (random_source st) Hst Hsp) as (w' & Hw' & HP).
    cbn [seq for_range]. rewrite (simulation_step_ok k st fixed w' v Hw' Hv).
    cbn [mbind result_bind].
    match goal with |- context [for_range _ _ ?x] => destruct (IH (S k) x) as (st' & H1 & H2 & H3 & H4) end;
      [exact Hwf | exact Hsame |].
    exists st'. split; [exact H1|]. cbn in H2, H3.
    split; [|split].
    + rewrite H2, <- app_assoc. reflexivity.
    + rewrite H3, <- app_assoc. reflexivity.
    + intros _. destruct m as [|m]; [|apply H4; lia].
      cbn [seq for_range] in H1. inversion H1. split; [reflexivity | exact HP].
Qed.

(** C9.  With a configured integer seed [s], every call of
    [start_monte_carlo] reseeds before drawing: whatever state the generator
    was in, the call puts it in the state of [s], draws its
    [iteration_times] rows from that state and leaves the generator in the
    state after those rows; the lists it leaves start at the current values
    and obey the update rule for exactly those rows.  So the aggregation
    loop over one engine returns, all its [NUM_SIMULATION] runs leave the
    same engine, after at least one run the loop holds that engine and the
    generator is in the state after the rows of [s], the stored rate paths
    are all the same list, the aggregated values are all the same number [v]
    (and so is the discounted present value, computed from that one engine),
    and every entry of the cumulative-average sequence is [v]. *)
Theorem fixed_seed_runs_identical
    (self : Single_time_Monte_Carlo) (w : world) (s : Z) (NUM_SIMULATION : Z) :
  reachable self -> (1 <= iteration_times self)%Z ->
  mean_reversion_speed self <> 0 ->
  random_seed self = Some s -> (0 <= s < 2 ^ 32)%Z ->
  0 < maturity_T self -> 0 <= Delta self <= maturity_T self ->
  (forall w0, exists w1,
      np_random_seed (random_seed self) w0 = Ok w1 /\ np_random w1 = init_by_seed s)
  /\ exists (fixed : Single_time_Monte_Carlo) (v pv : R) (st : aggregation),
       (forall other w0, reachable other -> same_parameters self other ->
          exists w1,
            start_monte_carlo other w0 = Ok (fixed, w1)
            /\ np_random w1
               = (draw_rows (Z.to_nat (iteration_times self)) (init_by_seed s)).2)
       /\ domestic_risk_free_rate_list fixed !! 0%nat
          = Some (PyNum (current_federal_funds_rate self))
       /\ nikkei_price_list fixed !! 0%nat = Some (PyNum (current_nikkei_price self))
       /\ follows_recurrence self
            (draw_rows (Z.to_nat (iteration_times self)) (init_by_seed s)).1
            (domestic_risk_free_rate_list fixed) (nikkei_price_list fixed)
            0 (Z.to_nat (iteration_times self))
       /\ price_Exotic_Option_at_maturity fixed = Ok v
       /\ current_price_Exotic_Option fixed = Ok pv
       /\ simulation_loop NUM_SIMULATION self w = Ok st
       /\ ((1 <= NUM_SIMULATION)%Z ->
           single_time_monte_carlo st = fixed
           /\ np_random (random_source st)
              = (draw_rows (Z.to_nat (iteration_times self)) (init_by_seed s)).2)
       /\ df_domestic_short_rate_processes st
          = replicate (Z.to_nat NUM_SIMULATION) (value <$> domestic_risk_free_rate_list fixed)
       /\ list_of_prices_Exotic_option st = replicate (Z.to_nat NUM_SIMULATION) v
       /\ (forall i, (i < Z.to_nat NUM_SIMULATION)%nat ->
             cumulative_average_of_list (list_of_prices_Exotic_option st) !! i = Some v).
Proof.
  intros Hreach HN Ha Hseed Hs HT HD.
  pose proof (reachable_well_formed self Hreach) as Hwf.
  split.
  { intros w0. rewrite Hseed. apply np_random_seed_some. exact Hs. }
  assert (Hrefl : same_parameters self self) by (unfold same_parameters; by destruct self).
  destruct (seeded_run_from_seed self self w s Hwf Hrefl HN Ha Hseed Hs)
    as (rates & prices & w1 & Hrun & _ & L1 & L2 & Hr0 & Hp0 & Hrec).
  set (fixed := set_lists self rates prices).
  assert (Hfwf : well_formed fixed).
  { eapply start_monte_carlo_well_formed; eassumption. }
  assert (Hfixed : forall other w0, well_formed other -> same_parameters self other ->
            exists w1',
              start_monte_carlo other w0 = Ok (fixed, w1')
              /\ np_random w1'
                 = (draw_rows (Z.to_nat (iteration_times self)) (init_by_seed s)).2).
  { intros other w0 Ho Hsp.
    destruct (seeded_run_from_seed self other w0 s Ho Hsp HN Ha Hseed Hs)
      as (rates' & prices' & u' & Hrun' & Hstate & L1' & L2' & Hr0' & Hp0' & Hrec').
    destruct (recurrence_unique self
                (draw_rows (Z.to_nat (iteration_times self)) (init_by_seed s)).1
                (Z.to_nat (iteration_times self)) rates prices rates' prices')
      as [E1 E2]; try assumption; [congruence | congruence |].
    exists u'. split; [|exact Hstate].
    rewrite Hrun'. unfold fixed. rewrite E1, E2. reflexivity. }
  assert (Hsim : simulated fixed) by (eapply simulated_run; eassumption).
  destruct (payoff_returns fixed Hsim HT HD) as (S_T & r_t & _ & _ & _ & Hv).
  assert (Hd : exists d, discount_factor fixed (maturity_T fixed) = Ok d).
  { destruct (index_at_maturity fixed Hfwf) as [Hdt Hq]; [cbn; lra|].
    destruct (discount_factor_total fixed (maturity_T fixed) Hdt) as [d Hd]; [|eauto].
    rewrite Hq, ZfloorZ, (wf_rates fixed Hfwf). cbn [iteration_times fixed set_lists]. lia. }
  destruct Hd as [d Hd].
  destruct (simulation_loop_seeded self fixed _
              (fun w' => np_random w'
                         = (draw_rows (Z.to_nat (iteration_times self)) (init_by_seed s)).2)
              Hfwf eq_refl Hfixed Hv
              (Z.to_nat NUM_SIMULATION) 0
              {| single_time_monte_carlo := self;
                 random_source := w;
                 df_domestic_short_rate_processes := [];
                 list_of_prices_Exotic_option := [] |} Hwf Hrefl)
    as (st & Hloop & Hdf & Hprices & Hlast).
  cbn in Hdf, Hprices.
  eexists fixed, _, _, st.
  split; [intros other w0 Ho; apply Hfixed; by apply reachable_well_formed|].
  split; [exact Hr0|]. split; [exact Hp0|]. split; [exact Hrec|].
  split; [exact Hv|].
  split; [unfold current_price_Exotic_Option; rewrite Hd, Hv; reflexivity|].
  split; [exact Hloop|].
  split; [intros HNUM; apply Hlast; lia|].
  split; [exact Hdf|]. split; [exact Hprices|].
  intros i Hi. rewrite Hprices. by apply cumulative_average_replicate.
Qed.

End Properties.

(** ** The concrete market *)

Section SampleProperties.

#[local] Existing Instance flat_curve.
#[local] Existing Instance counter_generator.

Lemma sample_engine_constructed : __init__ sample_args = Ok sample_engine.
Proof.
  apply (init_ok sample_args). discriminate.
Qed.

Lemma sample_engine_reachable : reachable sample_engine.
Proof.
  apply (reachable_init sample_args). exact sample_engine_constructed.
Qed.

Lemma sample_speed_nonzero : mean_reversion_speed sample_engine <> 0.
Proof.
  cbn. lra.
Qed.

Lemma sample_rate_at_start :
  get_domestic_risk_free_rate_at_a_specified_time sample_engine 0 = Ok (PyNum 0).
Proof.
  unfold get_domestic_risk_free_rate_at_a_specified_time.
  rewrite py_truediv_ok by (cbn; lra). cbn [mbind result_bind].
  replace (0 / timestep sample_engine) with (IZR 0) by (cbn; lra).
  rewrite py_int_nonneg by (simpl; lra). rewrite ZfloorZ. reflexivity.
Qed.

Lemma sample_iterations : (1 <= iteration_times sample_engine)%Z.
Proof.
  cbn. lia.
Qed.

Lemma sample_seed_accepted : seed_accepted (random_seed sample_engine).
Proof.
  cbn. lia.
Qed.

Lemma sample_maturity_positive : 0 < maturity_T sample_engine.
Proof.
  cbn. lra.
Qed.

Lemma sample_offset_in_range : 0 <= Delta sample_engine <= maturity_T sample_engine.
Proof.
  cbn. lra.
Qed.

(** ** The claims at the concrete market *)

(** C1 at the sample engine: the run returns and keeps the parameters. *)
Lemma start_monte_carlo_step_update_witness :
  exists self' w2,
    start_monte_carlo sample_engine sample_world = Ok (self', w2)
    /\ same_parameters sample_engine self'
    /\ value <$> (domestic_risk_free_rate_list self' !! 0%nat) = Some 0.01.
Proof.
  destruct (start_monte_carlo_step_update sample_engine sample_world
              sample_engine_reachable)
    as (self' & w1 & w2 & _ & Hrun & Hsame & _ & Hr0 & _).
  - exact sample_iterations.
  - exact sample_speed_nonzero.
  - exact sample_seed_accepted.
  - exists self', w2. split; [exact Hrun|]. split; [exact Hsame|].
    rewrite Hr0, Hsame. reflexivity.
Defined.

(** C2 at the sample engine, one year from now. *)
Lemma Theta_calibrated_drift_witness :
  Theta sample_engine 1 = Ok (Theta_spec (bond_data sample_engine) 0.03 0.015 1).
Proof.
  destruct (Theta_calibrated_drift sample_engine 1 sample_speed_nonzero)
    as (_ & _ & _ & _ & H).
  exact H.
Defined.

(** C3 at the engine a run on the sample engine leaves. *)
Lemma payoff_at_maturity_floored_witness :
  exists self' w' v,
    start_monte_carlo sample_engine sample_world = Ok (self', w')
    /\ price_Exotic_Option_at_maturity self' = Ok v
    /\ 0 <= v.
Proof.
  destruct (start_monte_carlo_success sample_engine sample_world
              (reachable_well_formed _ sample_engine_reachable)
              sample_iterations sample_speed_nonzero sample_seed_accepted)
    as (w1 & w2 & rates & prices & _ & _ & Hrun & _).
  destruct (payoff_at_maturity_floored (set_lists sample_engine rates prices))
    as [(S_T & S_0 & l & v & _ & _ & _ & _ & Hv & _ & Hpos) _].
  - exact (simulated_run sample_engine _ sample_world w2 sample_engine_reachable Hrun).
  - exact sample_maturity_positive.
  - exact sample_offset_in_range.
  - exists (set_lists sample_engine rates prices), w2, v.
    split; [exact Hrun|]. split; [exact Hv | exact Hpos].
Defined.

(** C4 at the freshly constructed sample engine, whose rate path is zero. *)
Lemma discount_factor_riemann_sum_witness : discount_factor sample_engine 3 = Ok 1.
Proof.
  assert (Hq : 3 / timestep sample_engine = IZR 2) by (cbn; lra).
  destruct (discount_factor_riemann_sum sample_engine 3) as (_ & _ & H).
  - cbn. lra.
  - rewrite Hq, ZfloorZ. change (2 <= 3)%Z. lia.
  - apply H. intros i r. cbn.
    destruct i as [|[|[|i]]]; cbn; intros Hr; inversion Hr; reflexivity.
Defined.

(** C5 on three values. *)
Lemma cumulative_average_mean_and_permutation_witness :
  cumulative_average_of_list [1; 2; 3] !! 2%nat = Some (arithmetic_mean [1; 2; 3])
  /\ cumulative_average_of_list [3; 1; 2] !! 2%nat
     = cumulative_average_of_list [1; 2; 3] !! 2%nat.
Proof.
  destruct (cumulative_average_mean_and_permutation [1; 2; 3]) as (_ & Hlast & Hperm).
  - discriminate.
  - split; [exact Hlast|].
    apply (Hperm [3; 1; 2]).
    symmetry. apply (Permutation_cons_append [1; 2] 3).
Defined.

(** C6 at the sample engine, started from two different random sources. *)
Lemma start_monte_carlo_deterministic_witness :
  (np_random <$> np_random_seed (Some 7%Z) sample_world)
  = (np_random <$> np_random_seed (Some 7%Z) later_world)
  /\ match start_monte_carlo sample_engine sample_world,
           start_monte_carlo sample_engine later_world with
     | Ok (self1, w1), Ok (other1, w1') => self1 = other1 /\ np_random w1 = np_random w1'
     | Raise x, Raise y => x = y
     | _, _ => False
     end.
Proof.
  apply (start_monte_carlo_deterministic sample_engine sample_engine
           sample_world later_world 7%Z).
  - exact sample_engine_reachable.
  - exact sample_engine_reachable.
  - reflexivity.
  - reflexivity.
Defined.

(** C7 (as amended) at the sample engine. *)
Lemma libor_rate_ratio_unguarded_witness :
  exists v, libor_rate_ratio sample_engine 0 3 = Ok v.
Proof.
  destruct (libor_rate_ratio_unguarded sample_engine 0 3 (PyNum 0)
              sample_speed_nonzero sample_rate_at_start) as [_ H].
  eexists. exact H.
Defined.

(** C7 as stated fails: on the flat curve the two prices at the contract's
    own dates are equal, the denominator [price(T - Delta) - price(T)] is
    zero, and [libor_rate_ratio(T - Delta, T)] returns a value instead of
    raising. *)
Lemma libor_rate_ratio_returns_on_equal_prices :
  get_value_on_cubic_spline_for_bond_prices (bond_data sample_engine) 2.75
  - get_value_on_cubic_spline_for_bond_prices (bond_data sample_engine) 3 = 0
  /\ is_Ok (libor_rate_ratio sample_engine 2.75 3)
  /\ ~ raises (libor_rate_ratio sample_engine 2.75 3).
Proof.
  split; [cbn; lra|].
  destruct (accessors_return sample_engine 2.75) as (r_t & s & _ & _ & Hr & _).
  - apply reachable_well_formed. exact sample_engine_reachable.
  - exact sample_iterations.
  - cbn. lra.
  - cbn. lra.
  - rewrite (libor_rate_ratio_ok sample_engine 2.75 3 r_t sample_speed_nonzero Hr).
    split; [eexists; reflexivity|]. intros [x Hx]. discriminate.
Qed.

(** C8 (as amended) at the sample arguments. *)
Lemma init_stores_arguments_unchecked_witness :
  exists self, __init__ sample_args = Ok self /\ mean_reversion_speed self = 0.03.
Proof.
  destruct (init_stores_arguments_unchecked sample_args) as [H _].
  destruct H as (self & Hinit & Ha & _); [discriminate|].
  exists self. split; [exact Hinit | exact Ha].
Defined.

(** C8 as stated fails: with a negative mean-reversion speed, correlations 2
    and -2, negative or zero volatilities and [iteration_times = -3], the
    constructor returns an engine, and the engine holds the speed -1. *)
Lemma init_accepts_invalid_parameters :
  (arg_mean_reversion_speed unchecked_args <= 0
   /\ ~ (-1 <= arg_correlation_foreign_asset_and_domestic_risk_free_rate unchecked_args <= 1)
   /\ ~ (-1 <= arg_correlation_foreign_asset_and_exchange_rate unchecked_args <= 1)
   /\ arg_domestic_risk_free_rate_vol unchecked_args <= 0
   /\ arg_foreign_asset_vol unchecked_args <= 0
   /\ arg_exchange_rate_vol unchecked_args <= 0
   /\ (arg_iteration_times unchecked_args <= 0)%Z)
  /\ invalid_parameters unchecked_args
  /\ ~ raises (__init__ unchecked_args)
  /\ exists self, __init__ unchecked_args = Ok self /\ mean_reversion_speed self = -1.
Proof.
  assert (Hinit : __init__ unchecked_args
                  = Ok (constructed unchecked_args (3 / IZR (-3)))).
  { apply (init_ok unchecked_args). discriminate. }
  split; [|split; [|split]].
  - cbn. repeat split; try lra; try lia.
  - left. cbn. lra.
  - rewrite Hinit. intros [x Hx]. discriminate.
  - eexists. split; [exact Hinit | reflexivity].
Qed.

(** C9 at the sample engine, three runs: seed 7 puts the counter at 7, the
    two rows of a run take four draws. *)
Lemma fixed_seed_runs_identical_witness :
  exists st v,
    simulation_loop 3 sample_engine sample_world = Ok st
    /\ np_random (random_source st) = 11%nat
    /\ list_of_prices_Exotic_option st = [v; v; v]
    /\ cumulative_average_of_list (list_of_prices_Exotic_option st) = [v; v; v].
Proof.
  destruct (fixed_seed_runs_identical sample_engine sample_world 7%Z 3%Z
              sample_engine_reachable)
    as (_ & fixed & v & pv & st & _ & _ & _ & _ & _ & _ & Hloop & Hlast & _ & Hprices & Hcum).
  - exact sample_iterations.
  - exact sample_speed_nonzero.
  - reflexivity.
  - split; [discriminate | reflexivity].
  - exact sample_maturity_positive.
  - exact sample_offset_in_range.
  - exists st, v. split; [exact Hloop|].
    split; [destruct Hlast as [_ Hstate]; [lia | exact Hstate]|].
    split; [exact Hprices|].
    apply list_eq. intros i.
    destruct (decide (i < 3)%nat) as [Hi|Hi].
    + rewrite (Hcum i Hi). destruct i as [|[|[|i]]]; [reflexivity.. | lia].
    + rewrite !lookup_ge_None_2; [reflexivity | cbn [length]; lia |].
      rewrite cumulative_average_length, Hprices, length_replicate. lia.
Defined.

(** C10 at the sample engine, one year from now. *)
Lemma accessor_index_in_bounds_witness :
  (0 <= Zfloor (1 / timestep sample_engine) <= 2)%Z.
Proof.
  destruct (accessor_index_in_bounds sample_engine 1 sample_engine_reachable) as [H _].
  - exact sample_iterations.
  - cbn. lra.
  - exact H.
Defined.

End SampleProperties.

(** * Further properties of the engine *)

Section Calibration.

Context {interpolate : SciPy}.

Lemma exp_double (x : R) : exp (2 * x) = exp x * exp x.
Proof.
  replace (2 * x) with (x + x) by lra. apply exp_plus.
Qed.

(** The drift the code computes from [G] and its derivative is the
    closed-form drift of the Hull-White model. *)
Theorem Theta_is_hull_white_drift (self : Single_time_Monte_Carlo) (t : R) :
  mean_reversion_speed self <> 0 ->
  Theta self t
  = Ok (hull_white_drift (bond_data self) (mean_reversion_speed self)
          (domestic_risk_free_rate_vol self) t).
Proof.
  intros Ha. rewrite Theta_ok by exact Ha. f_equal.
  unfold Theta_spec, hull_white_drift, dG_dt_spec, G_spec, B_spec.
  rewrite Rminus_0_r.
  replace (- 2 * mean_reversion_speed self * t)
    with (2 * (- mean_reversion_speed self * t)) by lra.
  rewrite exp_double. replace 0.5 with (/ 2) by lra. field. exact Ha.
Qed.

(** What [first_derivative_of_G] returns is, at every time, the derivative
    of what [G] returns. *)
Theorem first_derivative_of_G_is_derivative (self : Single_time_Monte_Carlo) :
  mean_reversion_speed self <> 0 ->
  exists g g' : R -> R,
    (forall t, G self t = Ok (g t))
    /\ (forall t, first_derivative_of_G self t = Ok (g' t))
    /\ (forall t, derivable_pt_lim g t (g' t)).
Proof.
  intros Ha.
  exists (G_spec (mean_reversion_speed self) (domestic_risk_free_rate_vol self)),
         (dG_dt_spec (mean_reversion_speed self) (domestic_risk_free_rate_vol self)).
  split; [intros t; apply G_ok; exact Ha|].
  split; [intros t; apply first_derivative_of_G_ok; exact Ha|].
  intros t. apply dG_dt_is_derivative. exact Ha.
Qed.

(** With a positive mean-reversion speed, [B(t,T)] for [t <= T] lies
    between 0 and [1/a], and is 0 exactly when [T = t]. *)
Theorem B_t_T_bounds (self : Single_time_Monte_Carlo) (t T : R) :
  0 < mean_reversion_speed self -> t <= T ->
  exists b,
    B_t_T self t T = Ok b
    /\ 0 <= b < 1 / mean_reversion_speed self
    /\ (b = 0 <-> T = t).
Proof.
  intros Ha HtT.
  exists (B_spec (mean_reversion_speed self) t T). split; [apply B_t_T_ok; lra|].
  generalize dependent (mean_reversion_speed self). intros a Ha.
  assert (Hinv : 0 < / a) by (apply Rinv_0_lt_compat; exact Ha).
  assert (Hexp : 0 < exp (- a * (T - t)) <= 1).
  { split; [apply exp_pos|].
    destruct HtT as [Hlt|<-].
    - left. rewrite <- exp_0. apply exp_increasing.
      assert (0 < a * (T - t)) by (apply Rmult_lt_0_compat; lra). lra.
    - replace (- a * (t - t)) with 0 by lra. rewrite exp_0. lra. }
  unfold B_spec, Rdiv. split; [split|].
  - apply Rmult_le_pos; lra.
  - rewrite Rmult_1_l. rewrite <- (Rmult_1_l (/ a)) at 2.
    apply Rmult_lt_compat_r; lra.
  - split.
    + intros Hb. apply Rmult_integral in Hb. destruct Hb as [Hb|Hb]; [|lra].
      assert (He : exp (- a * (T - t)) = exp 0) by (rewrite exp_0; lra).
      apply exp_inv in He. nra.
    + intros ->. replace (- a * (t - t)) with 0 by lra. rewrite exp_0. lra.
Qed.

(** The analytic bond price at its own maturity is 1, whatever the short
    rate, as soon as the curve's price there is not zero. *)
Theorem p_t_T_at_maturity (self : Single_time_Monte_Carlo) (t r_t : R) :
  mean_reversion_speed self <> 0 ->
  get_value_on_cubic_spline_for_bond_prices (bond_data self) t <> 0 ->
  p_t_T self t t r_t = Ok 1.
Proof.
  intros Ha Hp. rewrite p_t_T_ok by exact Ha. f_equal. unfold p_spec, B_spec.
  replace (- mean_reversion_speed self * (t - t)) with 0 by lra. rewrite exp_0.
  match goal with |- _ * exp ?e = _ => replace e with 0 by (field; exact Ha) end.
  rewrite exp_0. field. exact Hp.
Qed.

(** At time 0, with the short rate equal to the forward rate of the curve,
    the analytic bond price is the curve's own [price(T) / price(0)]. *)
Lemma p_t_T_reproduces_curve_eq (self : Single_time_Monte_Carlo) (T : R) :
  mean_reversion_speed self <> 0 ->
  p_t_T self 0 T (get_value_for_forward_rate (bond_data self) 0)
  = Ok (get_value_on_cubic_spline_for_bond_prices (bond_data self) T
        / get_value_on_cubic_spline_for_bond_prices (bond_data self) 0).
Proof.
  intros Ha. rewrite p_t_T_ok by exact Ha. f_equal. unfold p_spec.
  replace (- 2 * mean_reversion_speed self * 0) with 0 by lra. rewrite exp_0.
  match goal with |- _ * exp ?e = _ => replace e with 0 by (field; exact Ha) end.
  rewrite exp_0. lra.
Qed.

End Calibration.

Ltac bind_split H :=
  let a := fresh "v" in
  let Ha := fresh "Hv" in
  apply bind_Ok_inv in H; destruct H as (a & Ha & H).

Section Runs.

Context {interpolate : SciPy} {random : NumPyRandom}.

(** What a returned run on a reachable engine tells: the engine was fit to
    run, and the lists it leaves start at the current values and obey the
    update rule for the draws made after seeding. *)
Lemma run_facts (self self' : Single_time_Monte_Carlo) (w w' : world) :
  reachable self -> start_monte_carlo self w = Ok (self', w') ->
  (1 <= iteration_times self)%Z
  /\ mean_reversion_speed self <> 0
  /\ seed_accepted (random_seed self)
  /\ exists w1,
       np_random_seed (random_seed self) w = Ok w1
       /\ np_random w' = (draw_rows (Z.to_nat (iteration_times self)) (np_random w1)).2
       /\ self' = set_lists self (domestic_risk_free_rate_list self') (nikkei_price_list self')
       /\ length (domestic_risk_free_rate_list self') = S (Z.to_nat (iteration_times self))
       /\ length (nikkei_price_list self') = S (Z.to_nat (iteration_times self))
       /\ domestic_risk_free_rate_list self' !! 0%nat
          = Some (PyNum (current_federal_funds_rate self))
       /\ nikkei_price_list self' !! 0%nat = Some (PyNum (current_nikkei_price self))
       /\ follows_recurrence self
            (draw_rows (Z.to_nat (iteration_times self)) (np_random w1)).1
            (domestic_risk_free_rate_list self') (nikkei_price_list self')
            0 (Z.to_nat (iteration_times self)).
Proof.
  intros Hreach Hrun.
  pose proof (reachable_well_formed self Hreach) as Hwf.
  destruct (start_monte_carlo_frame _ _ _ _ Hrun) as (_ & _ & _ & Hpos).
  assert (HN : (1 <= iteration_times self)%Z).
  { pose proof (wf_iterations self Hwf). pose proof (wf_rates self Hwf). lia. }
  assert (Hseed : seed_accepted (random_seed self)).
  { destruct (seed_accepted_dec (random_seed self)) as [Hs|Hs]; [exact Hs|].
    rewrite start_monte_carlo_refused_seed in Hrun by assumption. discriminate. }
  assert (Ha : mean_reversion_speed self <> 0).
  { intros Ha. rewrite start_monte_carlo_zero_speed in Hrun by assumption. discriminate. }
  split; [exact HN|]. split; [exact Ha|]. split; [exact Hseed|].
  destruct (start_monte_carlo_success self w Hwf HN Ha Hseed)
    as (w1 & w2 & rates & prices & Hw1 & Hw2 & Hrun' & L1 & L2 & Hr0 & Hp0 & Hrec).
  rewrite Hrun in Hrun'. inversion Hrun' as [[Hself Hw]]. clear Hrun'.
  exists w1. cbn [domestic_risk_free_rate_list nikkei_price_list set_lists].
  repeat split; assumption.
Qed.

Lemma np_random_seed_entropy (seed : option Z) (w w1 : world) :
  np_random_seed seed w = Ok w1 ->
  os_entropy w1 = os_entropy w
  /\ entropy_reads w1
     = (entropy_reads w + match seed with Some _ => 0 | None => 1 end)%nat.
Proof.
  unfold np_random_seed. destruct seed as [s|].
  - destruct (decide (0 <= s < 2 ^ 32)%Z); intros H; inversion H. simpl. split; [reflexivity | lia].
  - intros H. inversion H. simpl. split; [reflexivity | lia].
Qed.

Lemma np_random_normal_entropy (rows : Z) (w w2 : world) (rands : list (R * R)) :
  np_random_normal rows w = Ok (rands, w2) ->
  os_entropy w2 = os_entropy w /\ entropy_reads w2 = entropy_reads w.
Proof.
  unfold np_random_normal. destruct (decide (rows < 0)%Z); [discriminate|].
  destruct (draw_rows (Z.to_nat rows) (np_random w)) as [r st].
  intros H. inversion H. simpl. by split.
Qed.

(** A run on a reachable engine returns exactly when there is at least one
    step, the mean-reversion speed is not zero and the seed is accepted;
    otherwise it raises [IndexError] (negative [iteration_times], the lists
    are empty), else [ValueError] (seed out of range), else
    [ZeroDivisionError] (zero speed, raised by the first drift evaluation). *)
Theorem start_monte_carlo_returns_iff (self : Single_time_Monte_Carlo) (w : world) :
  reachable self ->
  (is_Ok (start_monte_carlo self w)
   <-> (1 <= iteration_times self)%Z /\ mean_reversion_speed self <> 0
       /\ seed_accepted (random_seed self))
  /\ ((iteration_times self < 0)%Z -> start_monte_carlo self w = Raise IndexError)
  /\ ((1 <= iteration_times self)%Z -> ~ seed_accepted (random_seed self) ->
      start_monte_carlo self w = Raise ValueError)
  /\ ((1 <= iteration_times self)%Z -> seed_accepted (random_seed self) ->
      mean_reversion_speed self = 0 ->
      start_monte_carlo self w = Raise ZeroDivisionError).
Proof.
  intros Hreach. pose proof (reachable_well_formed self Hreach) as Hwf.
  split; [split|].
  - intros [[self' w'] Hrun].
    destruct (run_facts self self' w w' Hreach Hrun) as (HN & Ha & Hs & _). by repeat split.
  - intros (HN & Ha & Hs).
    destruct (start_monte_carlo_success self w Hwf HN Ha Hs)
      as (w1 & w2 & rates & prices & _ & _ & Hrun & _).
    eexists. exact Hrun.
  - split; [|split].
    + intros HN. apply start_monte_carlo_empty. apply nil_length_inv.
      rewrite (wf_rates self Hwf). lia.
    + intros HN Hs. by apply start_monte_carlo_refused_seed.
    + intros HN Hs Ha. by apply start_monte_carlo_zero_speed.
Qed.

(** A run that returns has replaced the two path lists and nothing else:
    every parameter, the time step and the timeline are those of before, the
    lists keep their length; of the random source it has moved the generator
    and has read the operating system's entropy once exactly when no seed is
    configured. *)
Theorem start_monte_carlo_rewrites_only_paths
    (self self' : Single_time_Monte_Carlo) (w w' : world) :
  start_monte_carlo self w = Ok (self', w') ->
  same_parameters self self'
  /\ timeline self' = timeline self
  /\ length (domestic_risk_free_rate_list self') = length (domestic_risk_free_rate_list self)
  /\ length (nikkei_price_list self') = length (nikkei_price_list self)
  /\ os_entropy w' = os_entropy w
  /\ entropy_reads w'
     = (entropy_reads w + match random_seed self with Some _ => 0 | None => 1 end)%nat.
Proof.
  intros Hrun.
  destruct (start_monte_carlo_frame _ _ _ _ Hrun) as (Heq & L1 & L2 & _).
  split; [exact Heq|]. split; [rewrite Heq; reflexivity|].
  split; [exact L1|]. split; [exact L2|].
  unfold start_monte_carlo in Hrun.
  bind_split Hrun. bind_split Hrun. bind_split Hrun. bind_split Hrun.
  destruct v2 as [rands w2]. bind_split Hrun. destruct v2 as [rates prices].
  inversion Hrun; subst.
  destruct (np_random_seed_entropy _ _ _ Hv1) as [E1 E2].
  destruct (np_random_normal_entropy _ _ _ _ Hv2) as [E3 E4].
  split; congruence.
Qed.

End Runs.

Section Paths.

Context {interpolate : SciPy} {random : NumPyRandom}.

Lemma price_step_is_growth (self : Single_time_Monte_Carlo) (s eps2 : R) :
  price_step_spec self s eps2 = s * growth_factor self eps2.
Proof.
  unfold price_step_spec, growth_factor. ring.
Qed.

(** Along lists that obey the update rule, the asset price is the initial
    price times the growth factors of the steps made so far. *)
Lemma asset_path_product (self : Single_time_Monte_Carlo) (rands : list (R * R))
    (rates prices : list scalar) (n : nat) (S_0 : R) :
  value <$> (prices !! 0%nat) = Some S_0 ->
  follows_recurrence self rands rates prices 0 n ->
  forall i, (i <= n)%nat ->
    value <$> (prices !! i)
    = Some (S_0 * big_prod i (fun k => growth_factor self (nth k rands (0, 0)).2)).
Proof.
  intros H0 Hrec. induction i as [|i IH]; intros Hi.
  - rewrite H0. cbn [big_prod]. by rewrite Rmult_1_r.
  - destruct (Hrec i) as (e1 & e2 & r & s & He & _ & Hs & _ & Hs'); [lia|].
    specialize (IH ltac:(lia)). rewrite Hs in IH. cbn in IH. inversion IH as [Hval].
    rewrite Hs'. cbn [fmap option_fmap option_map value big_prod].
    rewrite (nth_lookup_Some _ _ _ _ He). cbn [snd].
    rewrite price_step_is_growth, Hval. f_equal. ring.
Qed.

(** Whatever the draws, with zero rate volatility the rates, and with zero
    asset volatility the prices, of two lists that obey the update rule from
    the same start are the same. *)
Lemma zero_volatility_paths (self : Single_time_Monte_Carlo) (rands1 rands2 : list (R * R))
    (n : nat) (rates1 prices1 rates2 prices2 : list scalar) :
  length rates1 = S n -> length prices1 = S n ->
  length rates2 = S n -> length prices2 = S n ->
  rates1 !! 0%nat = rates2 !! 0%nat -> prices1 !! 0%nat = prices2 !! 0%nat ->
  follows_recurrence self rands1 rates1 prices1 0 n ->
  follows_recurrence self rands2 rates2 prices2 0 n ->
  (domestic_risk_free_rate_vol self = 0 -> rates1 = rates2)
  /\ (foreign_asset_vol self = 0 -> prices1 = prices2).
Proof.
  intros L1 L2 L3 L4 Hr0 Hp0 Hrec1 Hrec2. split; intros Hvol.
  - assert (Hall : forall i, (i <= n)%nat -> rates1 !! i = rates2 !! i).
    { induction i as [|i IHi]; intros Hi; [exact Hr0|].
      specialize (IHi ltac:(lia)).
      destruct (Hrec1 i) as (a1 & a2 & r1 & s1 & _ & Hr1 & _ & Hr1' & _); [lia|].
      destruct (Hrec2 i) as (b1 & b2 & r2 & s2 & _ & Hr2 & _ & Hr2' & _); [lia|].
      rewrite Hr1, Hr2 in IHi. inversion IHi; subst r2.
      rewrite Hr1', Hr2'. do 2 f_equal. unfold rate_step_spec. rewrite Hvol. ring. }
    apply list_eq. intros i. destruct (decide (i <= n)%nat) as [Hi|Hi]; [by apply Hall|].
    rewrite !lookup_ge_None_2 by lia. reflexivity.
  - assert (Hall : forall i, (i <= n)%nat -> prices1 !! i = prices2 !! i).
    { induction i as [|i IHi]; intros Hi; [exact Hp0|].
      specialize (IHi ltac:(lia)).
      destruct (Hrec1 i) as (a1 & a2 & r1 & s1 & _ & _ & Hs1 & _ & Hs1'); [lia|].
      destruct (Hrec2 i) as (b1 & b2 & r2 & s2 & _ & _ & Hs2 & _ & Hs2'); [lia|].
      rewrite Hs1, Hs2 in IHi. inversion IHi; subst s2.
      rewrite Hs1', Hs2'. do 2 f_equal. unfold price_step_spec. rewrite Hvol. ring. }
    apply list_eq. intros i. destruct (decide (i <= n)%nat) as [Hi|Hi]; [by apply Hall|].
    rewrite !lookup_ge_None_2 by lia. reflexivity.
Qed.

(** After a run, entry [i] of the asset path is the current price times the
    product of the first [i] growth factors
    [1 + (r_f - q_f - rho_sx*sigma_f*sigma_x)*Delta_t + sigma_f*sqrt(Delta_t)*eps2_k],
    [eps2_k] the second draw of step [k]: the whole path scales with the
    current price, and is zero when the current price is zero. *)
Theorem asset_path_is_product (self self' : Single_time_Monte_Carlo) (w w' : world) :
  reachable self -> start_monte_carlo self w = Ok (self', w') ->
  exists w1,
    np_random_seed (random_seed self) w = Ok w1
    /\ forall i, (Z.of_nat i <= iteration_times self)%Z ->
         value <$> (nikkei_price_list self' !! i)
         = Some (current_nikkei_price self
                 * big_prod i
                     (fun k =>
                        growth_factor self
                          (nth k (draw_rows (Z.to_nat (iteration_times self)) (np_random w1)).1
                             (0, 0)).2)).
Proof.
  intros Hreach Hrun.
  destruct (run_facts self self' w w' Hreach Hrun)
    as (HN & _ & _ & w1 & Hw1 & _ & _ & _ & _ & _ & Hp0 & Hrec).
  exists w1. split; [exact Hw1|]. intros i Hi.
  apply (asset_path_product self _ (domestic_risk_free_rate_list self')
           (nikkei_price_list self') (Z.to_nat (iteration_times self))).
  - by rewrite Hp0.
  - exact Hrec.
  - lia.
Qed.

(** With zero asset volatility the asset path a run leaves does not depend
    on the draws: entry [i] is
    [current_nikkei_price * (1 + (r_f - q_f) * Delta_t) ^ i]. *)
Theorem asset_path_without_volatility (self self' : Single_time_Monte_Carlo) (w w' : world) :
  reachable self -> start_monte_carlo self w = Ok (self', w') ->
  foreign_asset_vol self = 0 ->
  forall i, (Z.of_nat i <= iteration_times self)%Z ->
    value <$> (nikkei_price_list self' !! i)
    = Some (current_nikkei_price self
            * (1 + (foreign_risk_free_rate self - nikkei_dividends self) * timestep self) ^ i).
Proof.
  intros Hreach Hrun Hvol i Hi.
  destruct (run_facts self self' w w' Hreach Hrun)
    as (HN & _ & _ & w1 & Hw1 & _ & _ & _ & _ & _ & Hp0 & Hrec).
  rewrite (asset_path_product self
             (draw_rows (Z.to_nat (iteration_times self)) (np_random w1)).1
             (domestic_risk_free_rate_list self')
             (nikkei_price_list self') (Z.to_nat (iteration_times self))
             (current_nikkei_price self)); [|by rewrite Hp0 | exact Hrec | lia].
  do 2 f_equal. clear Hi. induction i as [|i IH]; [reflexivity|].
  cbn [big_prod]. rewrite IH. unfold growth_factor. rewrite Hvol. simpl. ring.
Qed.

(** With zero rate volatility the short-rate path does not depend on the
    random source: two runs on reachable engines with the same parameters,
    from any two states of the random source and whatever the seed, leave
    the same rate list, which follows
    [r[i+1] = r[i] + (Theta(i*Delta_t) - a*r[i]) * Delta_t]. *)
Theorem rate_path_without_volatility
    (self other self1 other1 : Single_time_Monte_Carlo) (w w' w1 w1' : world) :
  reachable self -> reachable other -> same_parameters self other ->
  domestic_risk_free_rate_vol self = 0 ->
  start_monte_carlo self w = Ok (self1, w1) ->
  start_monte_carlo other w' = Ok (other1, w1') ->
  domestic_risk_free_rate_list self1 = domestic_risk_free_rate_list other1
  /\ forall i, (Z.of_nat i < iteration_times self)%Z ->
       exists r_i theta,
         value <$> (domestic_risk_free_rate_list self1 !! i) = Some r_i
         /\ Theta self (INR i * timestep self) = Ok theta
         /\ value <$> (domestic_risk_free_rate_list self1 !! S i)
            = Some (r_i + (theta - mean_reversion_speed self * r_i) * timestep self).
Proof.
  intros Hself Hother Hsame Hvol Hrun Hrun'.
  destruct (run_facts self self1 w w1 Hself Hrun)
    as (HN & Ha & _ & u & _ & _ & _ & L1 & L2 & Hr0 & Hp0 & Hrec).
  destruct (run_facts other other1 w' w1' Hother Hrun')
    as (_ & _ & _ & u' & _ & _ & _ & L1' & L2' & Hr0' & Hp0' & Hrec').
  assert (Pn : iteration_times other = iteration_times self) by (rewrite Hsame; reflexivity).
  rewrite Pn in *. split.
  - refine (proj1 (zero_volatility_paths self _ _ (Z.to_nat (iteration_times self))
                     _ (nikkei_price_list self1) _ (nikkei_price_list other1)
                     L1 L2 L1' L2' _ _ Hrec _) Hvol).
    + rewrite Hr0, Hr0', Hsame. reflexivity.
    + rewrite Hp0, Hp0', Hsame. reflexivity.
    + intros i Hi. destruct (Hrec' i Hi) as (e1 & e2 & r & s0 & H1 & H2 & H3 & H4 & H5).
      exists e1, e2, r, s0.
      split; [exact H1|]. split; [exact H2|]. split; [exact H3|].
      split; [rewrite H4, Hsame; reflexivity | rewrite H5, Hsame; reflexivity].
  - intros i Hi.
    destruct (Hrec i) as (e1 & e2 & r & s0 & _ & Hr & _ & Hr' & _); [lia|].
    exists (value r), (drift_at self i).
    rewrite Hr, Hr'. split; [reflexivity|]. split; [apply Theta_ok; exact Ha|].
    cbn. f_equal. unfold rate_step_spec. rewrite Hvol. ring.
Qed.

End Paths.

Section ReadOuts.

Context {interpolate : SciPy} {random : NumPyRandom}.

Lemma accessors_unfold (self : Single_time_Monte_Carlo) (time : R) :
  timestep self <> 0 ->
  get_domestic_risk_free_rate_at_a_specified_time self time
  = py_getitem (domestic_risk_free_rate_list self) (py_int (time / timestep self))
  /\ get_nikkei_price_at_a_specified_time self time
     = py_getitem (nikkei_price_list self) (py_int (time / timestep self)).
Proof.
  intros Hdt.
  unfold get_domestic_risk_free_rate_at_a_specified_time,
    get_nikkei_price_at_a_specified_time.
  rewrite py_truediv_ok by exact Hdt. by split.
Qed.

Lemma py_getitem_beyond {A : Type} (l : list A) (i : Z) :
  (Z.of_nat (length l) <= i)%Z -> py_getitem l i = Raise IndexError.
Proof.
  intros Hi. unfold py_getitem, py_index.
  destruct (decide (0 <= i < Z.of_nat (length l))%Z); [lia|].
  destruct (decide (- Z.of_nat (length l) <= i < 0)%Z); [lia | reflexivity].
Qed.

Lemma py_getitem_below {A : Type} (l : list A) (i : Z) :
  (i < - Z.of_nat (length l))%Z -> py_getitem l i = Raise IndexError.
Proof.
  intros Hi. unfold py_getitem, py_index.
  destruct (decide (0 <= i < Z.of_nat (length l))%Z); [lia|].
  destruct (decide (- Z.of_nat (length l) <= i < 0)%Z); [lia | reflexivity].
Qed.

Lemma py_getitem_negative {A : Type} (l : list A) (i : Z) :
  (- Z.of_nat (length l) <= i < 0)%Z ->
  exists v, l !! Z.to_nat (Z.of_nat (length l) + i) = Some v /\ py_getitem l i = Ok v.
Proof.
  intros Hi.
  destruct (lookup_lt_is_Some_2 l (Z.to_nat (Z.of_nat (length l) + i))) as [v Hv]; [lia|].
  exists v. split; [exact Hv|]. unfold py_getitem, py_index.
  destruct (decide (0 <= i < Z.of_nat (length l))%Z); [lia|].
  destruct (decide (- Z.of_nat (length l) <= i < 0)%Z); [|lia].
  cbn [mbind result_bind]. by rewrite Hv.
Qed.

Lemma Zceil_IZR (z : Z) : Zceil (IZR z) = z.
Proof.
  apply Zceil_eq. lra.
Qed.

(** The quotient [time / timestep] against [k], for a positive time step. *)
Lemma quotient_bounds (self : Single_time_Monte_Carlo) (time k : R) :
  0 < timestep self ->
  (k * timestep self <= time -> k <= time / timestep self)
  /\ (time < k * timestep self -> time / timestep self < k)
  /\ (time <= k * timestep self -> time / timestep self <= k)
  /\ (k * timestep self < time -> k < time / timestep self).
Proof.
  intros Hdt.
  assert (Hq : time = time / timestep self * timestep self) by (field; lra).
  repeat split; intros H.
  - apply (Rmult_le_reg_r (timestep self)); [exact Hdt | lra].
  - apply (Rmult_lt_reg_r (timestep self)); [exact Hdt | lra].
  - apply (Rmult_le_reg_r (timestep self)); [exact Hdt | lra].
  - apply (Rmult_lt_reg_r (timestep self)); [exact Hdt | lra].
Qed.

(** Past the maturity the read-outs do not extrapolate: for less than one
    time step past it they still return the last entry of the path, from one
    time step past it on they raise [IndexError]. *)
Theorem accessors_past_maturity (self : Single_time_Monte_Carlo) (time : R) :
  reachable self -> (1 <= iteration_times self)%Z -> 0 < maturity_T self ->
  (maturity_T self <= time < maturity_T self + timestep self ->
   exists r s,
     domestic_risk_free_rate_list self !! Z.to_nat (iteration_times self) = Some r
     /\ nikkei_price_list self !! Z.to_nat (iteration_times self) = Some s
     /\ get_domestic_risk_free_rate_at_a_specified_time self time = Ok r
     /\ get_nikkei_price_at_a_specified_time self time = Ok s)
  /\ (maturity_T self + timestep self <= time ->
      get_domestic_risk_free_rate_at_a_specified_time self time = Raise IndexError
      /\ get_nikkei_price_at_a_specified_time self time = Raise IndexError).
Proof.
  intros Hreach HN HT.
  pose proof (reachable_well_formed self Hreach) as Hwf.
  pose proof (timestep_positive self Hwf HN HT) as Hdt.
  destruct (index_at_maturity self Hwf) as [_ Hq]; [lra|].
  assert (HTN : maturity_T self = IZR (iteration_times self) * timestep self)
    by (rewrite <- Hq; field; lra).
  destruct (accessors_unfold self time) as [Hr Hs]; [lra|]. rewrite Hr, Hs.
  pose proof (wf_rates self Hwf) as Lr. pose proof (wf_prices self Hwf) as Lp.
  split.
  - intros [Hlo Hhi].
    destruct (quotient_bounds self time (IZR (iteration_times self)) Hdt) as (B1 & _).
    destruct (quotient_bounds self time (IZR (iteration_times self) + 1) Hdt) as (_ & B2 & _).
    assert (Hfl : Zfloor (time / timestep self) = iteration_times self).
    { apply Zfloor_eq. split; [apply B1 | apply B2]; lra. }
    assert (Hpos : 0 <= time / timestep self).
    { assert (0 < IZR (iteration_times self)) by (apply IZR_lt; lia).
      specialize (B1 ltac:(lra)). lra. }
    rewrite py_int_nonneg, Hfl by exact Hpos.
    destruct (py_getitem_in_range (domestic_risk_free_rate_list self) (iteration_times self))
      as (r & Hr1 & Hr2); [lia|].
    destruct (py_getitem_in_range (nikkei_price_list self) (iteration_times self))
      as (s & Hs1 & Hs2); [lia|].
    exists r, s. by repeat split.
  - intros Hlo.
    destruct (quotient_bounds self time (IZR (iteration_times self) + 1) Hdt) as (B1 & _).
    specialize (B1 ltac:(lra)).
    assert (Hpos : 0 <= time / timestep self).
    { assert (0 < IZR (iteration_times self)) by (apply IZR_lt; lia). lra. }
    assert (Hfl : (iteration_times self + 1 <= Zfloor (time / timestep self))%Z).
    { apply Zfloor_lub. rewrite plus_IZR. exact B1. }
    rewrite py_int_nonneg by exact Hpos.
    rewrite !py_getitem_beyond by lia. by split.
Qed.

(** A negative time is not refused: within one time step before 0 the
    read-outs return entry 0 ([int] truncates toward zero); from one time
    step before 0 down to [iteration_times + 2] steps before 0 they return
    the entry counted from the end of the path (Python's negative index),
    the last entry at [-timestep]; further back they raise [IndexError]. *)
Theorem accessors_at_negative_time (self : Single_time_Monte_Carlo) (time : R) :
  reachable self -> (1 <= iteration_times self)%Z -> 0 < maturity_T self ->
  (- timestep self < time < 0 ->
   exists r s,
     domestic_risk_free_rate_list self !! 0%nat = Some r
     /\ nikkei_price_list self !! 0%nat = Some s
     /\ get_domestic_risk_free_rate_at_a_specified_time self time = Ok r
     /\ get_nikkei_price_at_a_specified_time self time = Ok s)
  /\ (- (IZR (iteration_times self) + 2) * timestep self < time <= - timestep self ->
      let position := Z.to_nat (iteration_times self + 1 + Zceil (time / timestep self)) in
      (0 <= iteration_times self + 1 + Zceil (time / timestep self) <= iteration_times self)%Z
      /\ exists r s,
           domestic_risk_free_rate_list self !! position = Some r
           /\ nikkei_price_list self !! position = Some s
           /\ get_domestic_risk_free_rate_at_a_specified_time self time = Ok r
           /\ get_nikkei_price_at_a_specified_time self time = Ok s)
  /\ (time <= - (IZR (iteration_times self) + 2) * timestep self ->
      get_domestic_risk_free_rate_at_a_specified_time self time = Raise IndexError
      /\ get_nikkei_price_at_a_specified_time self time = Raise IndexError).
Proof.
  intros Hreach HN HT.
  pose proof (reachable_well_formed self Hreach) as Hwf.
  pose proof (timestep_positive self Hwf HN HT) as Hdt.
  destruct (accessors_unfold self time) as [Hr Hs]; [lra|]. rewrite Hr, Hs.
  pose proof (wf_rates self Hwf) as Lr. pose proof (wf_prices self Hwf) as Lp.
  assert (Hneg : time < 0 -> py_int (time / timestep self) = Zceil (time / timestep self)).
  { intros Ht. unfold py_int.
    destruct (quotient_bounds self time 0 Hdt) as (_ & B & _).
    destruct (Rle_dec 0 (time / timestep self)) as [Hq|_]; [|reflexivity].
    specialize (B ltac:(lra)). lra. }
  split; [|split].
  - intros [Hlo Hhi]. rewrite Hneg by exact Hhi.
    destruct (quotient_bounds self time 0 Hdt) as (_ & B1 & _).
    destruct (quotient_bounds self time (-1) Hdt) as (_ & _ & _ & B2).
    assert (Hc : Zceil (time / timestep self) = 0%Z).
    { apply Zceil_eq. simpl. specialize (B1 ltac:(lra)). specialize (B2 ltac:(lra)). lra. }
    rewrite Hc.
    destruct (py_getitem_in_range (domestic_risk_free_rate_list self) 0) as (r & Hr1 & Hr2); [lia|].
    destruct (py_getitem_in_range (nikkei_price_list self) 0) as (s & Hs1 & Hs2); [lia|].
    exists r, s. by repeat split.
  - intros [Hlo Hhi] position. rewrite Hneg by lra.
    destruct (quotient_bounds self time (-1) Hdt) as (_ & _ & B1 & _).
    destruct (quotient_bounds self time (- (IZR (iteration_times self) + 2)) Hdt)
      as (_ & _ & _ & B2).
    specialize (B1 ltac:(lra)). specialize (B2 ltac:(lra)).
    pose proof (Zceil_bound (time / timestep self)) as [C1 C2].
    assert (Hc1 : (Zceil (time / timestep self) <= -1)%Z).
    { rewrite <- (Zceil_IZR (-1)). apply Zceil_le. exact B1. }
    assert (Hc2 : (- (iteration_times self + 1) <= Zceil (time / timestep self))%Z).
    { assert (H : IZR (- (iteration_times self + 2)) < IZR (Zceil (time / timestep self))).
      { rewrite opp_IZR, plus_IZR. lra. }
      apply lt_IZR in H. lia. }
    split; [lia|].
    destruct (py_getitem_negative (domestic_risk_free_rate_list self)
                (Zceil (time / timestep self))) as (r & Hr1 & Hr2); [lia|].
    destruct (py_getitem_negative (nikkei_price_list self)
                (Zceil (time / timestep self))) as (s & Hs1 & Hs2); [lia|].
    exists r, s. unfold position.
    replace (iteration_times self + 1 + Zceil (time / timestep self))%Z
      with (Z.of_nat (length (domestic_risk_free_rate_list self))
            + Zceil (time / timestep self))%Z by lia.
    split; [exact Hr1|]. split; [|by split].
    rewrite Lr, <- Lp. exact Hs1.
  - intros Hhi. rewrite Hneg by (assert (0 < IZR (iteration_times self)) by (apply IZR_lt; lia); nra).
    destruct (quotient_bounds self time (- (IZR (iteration_times self) + 2)) Hdt)
      as (_ & _ & B & _).
    specialize (B Hhi).
    assert (Hc : (Zceil (time / timestep self) <= - (iteration_times self + 2))%Z).
    { rewrite <- (Zceil_IZR (- (iteration_times self + 2))). apply Zceil_le.
      rewrite opp_IZR, plus_IZR. exact B. }
    rewrite !py_getitem_below by lia. by split.
Qed.

End ReadOuts.

Section Discounting.

Context {interpolate : SciPy} {random : NumPyRandom}.

Lemma big_sum_ext (n : nat) (f g : nat -> R) :
  (forall i, (i < n)%nat -> f i = g i) -> big_sum n f = big_sum n g.
Proof.
  induction n as [|n IH]; intros H; [reflexivity|].
  cbn [big_sum]. rewrite IH, H by (intros; try apply H; lia). reflexivity.
Qed.

Lemma big_sum_nonneg (n : nat) (f : nat -> R) :
  (forall i, (i < n)%nat -> 0 <= f i) -> 0 <= big_sum n f.
Proof.
  induction n as [|n IH]; intros H; [simpl; lra|].
  cbn [big_sum]. specialize (IH ltac:(intros; apply H; lia)). specialize (H n ltac:(lia)). lra.
Qed.

Lemma big_sum_const (n : nat) (c : R) : big_sum n (fun _ => c) = INR n * c.
Proof.
  induction n as [|n IH]; [simpl; lra|].
  cbn [big_sum]. rewrite IH, S_INR. lra.
Qed.

(** The value of [discount_factor] in terms of the entries it reads. *)
Lemma discount_factor_value (self : Single_time_Monte_Carlo) (T : R) :
  timestep self <> 0 ->
  (Zfloor (T / timestep self) <= Z.of_nat (length (domestic_risk_free_rate_list self)))%Z ->
  discount_factor self T
  = Ok (exp (- big_sum (Z.to_nat (Zfloor (T / timestep self)))
                 (fun i => value (nth i (domestic_risk_free_rate_list self) (PyNum 0))
                           * timestep self))).
Proof.
  intros Hdt Hend. unfold discount_factor.
  rewrite py_truediv_ok by exact Hdt. cbn [mbind result_bind].
  rewrite py_range_int_floor. unfold py_range.
  rewrite short_rate_sum by lia. reflexivity.
Qed.

Lemma discount_factor_range (self : Single_time_Monte_Carlo) (T : R) :
  0 < timestep self ->
  (Zfloor (T / timestep self) <= Z.of_nat (length (domestic_risk_free_rate_list self)))%Z ->
  exists d,
    discount_factor self T = Ok d
    /\ 0 < d
    /\ ((forall i r, (Z.of_nat i < Zfloor (T / timestep self))%Z ->
           domestic_risk_free_rate_list self !! i = Some r -> 0 <= value r) ->
        d <= 1).
Proof.
  intros Hdt Hend. eexists. split; [apply discount_factor_value; [lra | exact Hend]|].
  split; [apply exp_pos|].
  intros Hpos. rewrite <- exp_0.
  match goal with |- exp (- ?s) <= _ => assert (Hs : 0 <= s) end.
  { apply big_sum_nonneg. intros i Hi.
    destruct (lookup_lt_is_Some_2 (domestic_risk_free_rate_list self) i) as [r Hr]; [lia|].
    rewrite (nth_lookup_Some _ _ _ _ Hr).
    apply Rmult_le_pos; [apply (Hpos i r); [lia | exact Hr] | lra]. }
  destruct Hs as [Hs|Hs]; [left; apply exp_increasing; lra | rewrite <- Hs, Ropp_0; lra].
Qed.

(** The discount factor is always positive, and with a positive time step
    it is at most 1 when none of the rates it reads is negative. *)
Theorem discount_factor_bounds (self : Single_time_Monte_Carlo) (T : R) :
  0 < timestep self ->
  (Zfloor (T / timestep self) <= Z.of_nat (length (domestic_risk_free_rate_list self)))%Z ->
  exists d,
    discount_factor self T = Ok d
    /\ 0 < d
    /\ ((forall i r, (Z.of_nat i < Zfloor (T / timestep self))%Z ->
           domestic_risk_free_rate_list self !! i = Some r -> 0 <= value r) ->
        d <= 1).
Proof.
  exact (discount_factor_range self T).
Qed.

(** When every rate the sum reads is [r], the discount factor is
    [exp(- r * k * timestep)] with [k = floor(T / timestep)] the number of
    terms summed: the exponent covers the grid time [k * timestep] the
    quotient truncates to, not [T] itself. *)
Theorem discount_factor_constant_rate (self : Single_time_Monte_Carlo) (T r : R) :
  timestep self <> 0 ->
  (Zfloor (T / timestep self) <= Z.of_nat (length (domestic_risk_free_rate_list self)))%Z ->
  (forall i x, (Z.of_nat i < Zfloor (T / timestep self))%Z ->
     domestic_risk_free_rate_list self !! i = Some x -> value x = r) ->
  discount_factor self T
  = Ok (exp (- (r * (INR (Z.to_nat (Zfloor (T / timestep self))) * timestep self)))).
Proof.
  intros Hdt Hend Hconst.
  rewrite discount_factor_value by assumption. do 3 f_equal.
  rewrite (big_sum_ext _ _ (fun _ => r * timestep self)).
  - rewrite big_sum_const. lra.
  - intros i Hi.
    destruct (lookup_lt_is_Some_2 (domestic_risk_free_rate_list self) i) as [x Hx]; [lia|].
    rewrite (nth_lookup_Some _ _ _ _ Hx), (Hconst i x); [reflexivity | lia | exact Hx].
Qed.

(** The discount factor at the maturity is a left sum: it never reads the
    last entry of the rate path, so replacing the rate at the maturity by
    any value leaves it unchanged. *)
Theorem discount_factor_ignores_last_rate (self : Single_time_Monte_Carlo) (x : scalar) :
  reachable self -> maturity_T self <> 0 ->
  (1 <= iteration_times self)%Z ->
  discount_factor
    (set_lists self
       (<[Z.to_nat (iteration_times self) := x]> (domestic_risk_free_rate_list self))
       (nikkei_price_list self))
    (maturity_T self)
  = discount_factor self (maturity_T self).
Proof.
  intros Hreach HT HN.
  pose proof (reachable_well_formed self Hreach) as Hwf.
  destruct (index_at_maturity self Hwf HT) as [Hdt Hq].
  pose proof (wf_rates self Hwf) as Lr.
  rewrite !discount_factor_value;
    cbn [timestep domestic_risk_free_rate_list set_lists];
    try exact Hdt; try (rewrite Hq, ZfloorZ, ?length_insert; lia).
  rewrite Hq, ZfloorZ. do 3 f_equal. apply big_sum_ext. intros i Hi.
  rewrite !nth_lookup, list_lookup_insert_ne by lia. reflexivity.
Qed.

(** On a simulated engine the present value is returned and is the discount
    factor times the payoff: it is never negative, and it does not exceed
    the payoff when no rate of the path is negative. *)
Theorem current_price_discounts_payoff (self : Single_time_Monte_Carlo) :
  simulated self ->
  0 < maturity_T self -> 0 <= Delta self <= maturity_T self ->
  exists d v,
    discount_factor self (maturity_T self) = Ok d
    /\ price_Exotic_Option_at_maturity self = Ok v
    /\ current_price_Exotic_Option self = Ok (d * v)
    /\ 0 <= d * v
    /\ ((forall i r, domestic_risk_free_rate_list self !! i = Some r -> 0 <= value r) ->
        d * v <= v).
Proof.
  intros Hsim HT HD.
  destruct (simulated_facts self Hsim) as (Hwf & HN & _).
  pose proof (timestep_positive self Hwf HN HT) as Hdt.
  destruct (index_at_maturity self Hwf) as [_ Hq]; [lra|].
  pose proof (wf_rates self Hwf) as Lr.
  destruct (discount_factor_range self (maturity_T self) Hdt) as (d & Hd & Hdpos & Hle).
  { rewrite Hq, ZfloorZ. lia. }
  destruct (payoff_returns self Hsim HT HD) as (S_T & r_t & _ & _ & _ & Hv).
  pose proof (py_max_floor
                ((S_T / current_nikkei_price self - strike_price_nikkei self)
                 * (strike_price_libor self
                    - libor_ratio_spec (bond_data self) (mean_reversion_speed self)
                        (domestic_risk_free_rate_vol self)
                        (maturity_T self - Delta self) (maturity_T self) (value r_t))))
    as Hvpos.
  eexists d, _. split; [exact Hd|]. split; [exact Hv|].
  split; [unfold current_price_Exotic_Option; rewrite Hd, Hv; reflexivity|].
  split; [apply Rmult_le_pos; lra|].
  intros Hpos. specialize (Hle ltac:(intros i r _; apply Hpos)). nra.
Qed.

End Discounting.

Section EdgeCases.

Context {interpolate : SciPy} {random : NumPyRandom}.

Lemma py_getitem_nil {A : Type} (i : Z) : py_getitem (@nil A) i = Raise IndexError.
Proof.
  unfold py_getitem. change (length (@nil A)) with 0%nat. by rewrite py_index_empty.
Qed.

(** The timeline of a reachable engine is the one the constructor built. *)
Lemma reachable_timeline (self : Single_time_Monte_Carlo) :
  reachable self ->
  timeline self = (fun i : nat => timestep self * INR i) <$> py_range (iteration_times self + 1).
Proof.
  induction 1 as [a self H | self self' w w' _ IH H].
  - unfold __init__ in H. bind_split H. inversion H. reflexivity.
  - destruct (start_monte_carlo_frame _ _ _ _ H) as (Heq & _). rewrite Heq. exact IH.
Qed.

(** The timeline of a reachable engine with at least one step is the grid
    of [iteration_times + 1] equally spaced times [i * timestep]: it starts
    at 0 and, in exact arithmetic, ends at the maturity. *)
Theorem timeline_grid (self : Single_time_Monte_Carlo) :
  reachable self -> (1 <= iteration_times self)%Z ->
  length (timeline self) = Z.to_nat (iteration_times self + 1)
  /\ (forall i, (Z.of_nat i <= iteration_times self)%Z ->
        timeline self !! i = Some (timestep self * INR i))
  /\ timeline self !! 0%nat = Some 0
  /\ timeline self !! Z.to_nat (iteration_times self) = Some (maturity_T self).
Proof.
  intros Hreach HN. pose proof (reachable_well_formed self Hreach) as Hwf.
  rewrite (reachable_timeline self Hreach). unfold py_range.
  assert (Hat : forall i, (Z.of_nat i <= iteration_times self)%Z ->
            ((fun i : nat => timestep self * INR i)
               <$> seq 0 (Z.to_nat (iteration_times self + 1))) !! i
            = Some (timestep self * INR i)).
  { intros i Hi. rewrite list_lookup_fmap.
    assert (Hs : seq 0 (Z.to_nat (iteration_times self + 1)) !! i = Some i)
      by (apply lookup_seq; split; [reflexivity | lia]).
    by rewrite Hs. }
  split; [by rewrite length_fmap, length_seq|]. split; [exact Hat|]. split.
  - rewrite Hat by lia. simpl. by rewrite Rmult_0_r.
  - rewrite Hat by lia. f_equal.
    rewrite INR_IZR_INZ, Z2Nat.id by lia. rewrite (wf_timestep self Hwf). field.
    intros H. apply eq_IZR_R0 in H. lia.
Qed.

(** A negative [iteration_times] is accepted by the constructor, which
    leaves an engine with empty path lists and an empty timeline; on that
    engine every run raises [IndexError], with a non-zero maturity every
    read-out and the payoff raise [IndexError], and the discount factor at
    the maturity is returned as 1 without reading anything. *)
Theorem negative_iteration_times_engine (a : init_args) :
  (arg_iteration_times a < 0)%Z ->
  exists self,
    __init__ a = Ok self
    /\ domestic_risk_free_rate_list self = []
    /\ nikkei_price_list self = []
    /\ timeline self = []
    /\ (forall w, start_monte_carlo self w = Raise IndexError)
    /\ (arg_maturity_T a <> 0 ->
        (forall time,
           get_domestic_risk_free_rate_at_a_specified_time self time = Raise IndexError
           /\ get_nikkei_price_at_a_specified_time self time = Raise IndexError)
        /\ price_Exotic_Option_at_maturity self = Raise IndexError
        /\ discount_factor self (maturity_T self) = Ok 1).
Proof.
  intros HN.
  assert (Hnz : arg_iteration_times a <> 0%Z) by lia.
  exists (constructed a (arg_maturity_T a / IZR (arg_iteration_times a))).
  assert (Hempty : Z.to_nat (arg_iteration_times a + 1) = 0%nat) by lia.
  split; [apply init_ok; exact Hnz|].
  cbn [domestic_risk_free_rate_list nikkei_price_list timeline constructed].
  unfold py_range. rewrite Hempty. cbn [replicate seq fmap list_fmap].
  split; [reflexivity|]. split; [reflexivity|]. split; [reflexivity|].
  split.
  { intros w. apply start_monte_carlo_empty. cbn. rewrite Hempty. reflexivity. }
  intros HT.
  set (self := constructed a (arg_maturity_T a / IZR (arg_iteration_times a))).
  assert (Hwf : well_formed self) by (apply (init_well_formed a), init_ok; exact Hnz).
  destruct (index_at_maturity self Hwf HT) as [Hdt Hq].
  assert (Hacc : forall time,
            get_domestic_risk_free_rate_at_a_specified_time self time = Raise IndexError
            /\ get_nikkei_price_at_a_specified_time self time = Raise IndexError).
  { intros time. destruct (accessors_unfold self time Hdt) as [Hr Hs]. rewrite Hr, Hs.
    cbn [domestic_risk_free_rate_list nikkei_price_list self constructed].
    rewrite Hempty. cbn [replicate]. split; apply py_getitem_nil. }
  split; [exact Hacc|]. split.
  - unfold price_Exotic_Option_at_maturity. rewrite (proj2 (Hacc _)). reflexivity.
  - rewrite discount_factor_value; [|exact Hdt|].
    + rewrite Hq, ZfloorZ. change (iteration_times self) with (arg_iteration_times a).
      replace (Z.to_nat (arg_iteration_times a)) with 0%nat by lia.
      cbn [big_sum]. by rewrite Ropp_0, exp_0.
    + rewrite Hq, ZfloorZ. change (iteration_times self) with (arg_iteration_times a). lia.
Qed.

End EdgeCases.

Section Consistency.

Context {interpolate : SciPy} {random : NumPyRandom}.

(** At time 0, when the short rate read from the path is the curve's
    forward rate at 0, the LIBOR ratio is 1 for every maturity whose price
    differs from [price(0)]: the simulated rate over the period is the one
    the initial curve implies. *)
Theorem libor_rate_ratio_at_par (self : Single_time_Monte_Carlo) (T : R) (r_0 : scalar) :
  mean_reversion_speed self <> 0 ->
  get_domestic_risk_free_rate_at_a_specified_time self 0 = Ok r_0 ->
  value r_0 = get_value_for_forward_rate (bond_data self) 0 ->
  get_value_on_cubic_spline_for_bond_prices (bond_data self) 0 <> 0 ->
  get_value_on_cubic_spline_for_bond_prices (bond_data self) T <> 0 ->
  get_value_on_cubic_spline_for_bond_prices (bond_data self) 0
  <> get_value_on_cubic_spline_for_bond_prices (bond_data self) T ->
  libor_rate_ratio self 0 T = Ok 1.
Proof.
  intros Ha Hr Hfwd Hp0 HpT Hne.
  unfold libor_rate_ratio. rewrite Hr. cbn [mbind result_bind].
  rewrite Hfwd, p_t_T_reproduces_curve_eq by exact Ha. cbn [mbind result_bind].
  f_equal. field. repeat split; try assumption. lra.
Qed.

(** With zero rate and asset volatilities a run leaves the same engine
    whatever the random source and the seed, so the aggregation loop, even
    unseeded, stores the same value at every pass and its cumulative
    average is constant. *)
Theorem zero_volatility_runs_identical
    (self : Single_time_Monte_Carlo) (w : world) (NUM_SIMULATION : Z) :
  reachable self -> (1 <= iteration_times self)%Z ->
  mean_reversion_speed self <> 0 -> seed_accepted (random_seed self) ->
  domestic_risk_free_rate_vol self = 0 -> foreign_asset_vol self = 0 ->
  0 < maturity_T self -> 0 <= Delta self <= maturity_T self ->
  exists (fixed : Single_time_Monte_Carlo) (v : R) (st : aggregation),
    (forall other w0, reachable other -> same_parameters self other ->
       exists w1, start_monte_carlo other w0 = Ok (fixed, w1))
    /\ price_Exotic_Option_at_maturity fixed = Ok v
    /\ simulation_loop NUM_SIMULATION self w = Ok st
    /\ list_of_prices_Exotic_option st = replicate (Z.to_nat NUM_SIMULATION) v
    /\ (forall i, (i < Z.to_nat NUM_SIMULATION)%nat ->
          cumulative_average_of_list (list_of_prices_Exotic_option st) !! i = Some v).
Proof.
  intros Hreach HN Ha Hseed Hvd Hvf HT HD.
  pose proof (reachable_well_formed self Hreach) as Hwf.
  assert (Hrefl : same_parameters self self) by (unfold same_parameters; by destruct self).
  destruct (start_monte_carlo_success self w Hwf HN Ha Hseed)
    as (w1 & w2 & rates & prices & _ & _ & Hrun & L1 & L2 & Hr0 & Hp0 & Hrec).
  set (fixed := set_lists self rates prices).
  assert (Hfwf : well_formed fixed) by (eapply start_monte_carlo_well_formed; eassumption).
  assert (Hfixed : forall other w0, well_formed other -> same_parameters self other ->
            exists w1', start_monte_carlo other w0 = Ok (fixed, w1')).
  { intros other w0 Ho Hsp.
    assert (Pa : mean_reversion_speed other = mean_reversion_speed self) by (rewrite Hsp; reflexivity).
    assert (Pn : iteration_times other = iteration_times self) by (rewrite Hsp; reflexivity).
    assert (Ps : random_seed other = random_seed self) by (rewrite Hsp; reflexivity).
    destruct (start_monte_carlo_success other w0 Ho)
      as (u1 & u2 & rates' & prices' & _ & _ & Hrun' & L1' & L2' & Hr0' & Hp0' & Hrec');
      [lia | congruence | congruence |].
    rewrite Pn in *.
    destruct (zero_volatility_paths self
                (draw_rows (Z.to_nat (iteration_times self)) (np_random w1)).1
                (draw_rows (Z.to_nat (iteration_times self)) (np_random u1)).1
                (Z.to_nat (iteration_times self)) rates prices rates' prices')
      as [E1 E2]; try assumption.
    - rewrite Hr0, Hr0', Hsp. reflexivity.
    - rewrite Hp0, Hp0', Hsp. reflexivity.
    - intros i Hi. destruct (Hrec' i Hi) as (e1 & e2 & r & s0 & H1 & H2 & H3 & H4 & H5).
      exists e1, e2, r, s0.
      split; [exact H1|]. split; [exact H2|]. split; [exact H3|].
      split; [rewrite H4, Hsp; reflexivity | rewrite H5, Hsp; reflexivity].
    - exists u2. rewrite Hrun'. unfold fixed.
      rewrite (E1 Hvd), (E2 Hvf), Hsp. reflexivity. }
  assert (Hsim : simulated fixed) by (eapply simulated_run; eassumption).
  destruct (payoff_returns fixed Hsim HT HD) as (S_T & r_t & _ & _ & _ & Hv).
  destruct (simulation_loop_constant self fixed _ Hfwf eq_refl Hfixed Hv
              (Z.to_nat NUM_SIMULATION) 0
              {| single_time_monte_carlo := self;
                 random_source := w;
                 df_domestic_short_rate_processes := [];
                 list_of_prices_Exotic_option := [] |} Hwf Hrefl)
    as (st & Hloop & _ & Hprices & _).
  cbn in Hprices.
  eexists fixed, _, st.
  split; [intros other w0 Ho; apply Hfixed; by apply reachable_well_formed|].
  split; [exact Hv|]. split; [exact Hloop|]. split; [exact Hprices|].
  intros i Hi. rewrite Hprices. by apply cumulative_average_replicate.
Qed.

End Consistency.

(** * Properties of the market data *)

Section Curve.

Context {interpolate : SciPy}.

(** Where the interpolated price is positive and [splev] with [der=1] and
    [der=2] gives the first and second derivative of the spline, the forward
    rate read-out is [-d/dT ln p(0,T)] and the slope read-out is the
    derivative of the forward rate read-out. *)
Theorem forward_rate_read_outs_are_derivatives (self : Bond_Data) (T : R) :
  0 < get_value_on_cubic_spline_for_bond_prices self T ->
  derivable_pt_lim (fun x => splev x (tck_bond self) 0) T (splev T (tck_bond self) 1) ->
  derivable_pt_lim (fun x => splev x (tck_bond self) 1) T (splev T (tck_bond self) 2) ->
  derivable_pt_lim (fun x => - ln (get_value_on_cubic_spline_for_bond_prices self x)) T
    (get_value_for_forward_rate self T)
  /\ derivable_pt_lim (get_value_for_forward_rate self) T
       (get_value_for_T_derivative_of_forward_rate self T).
Proof.
  unfold get_value_on_cubic_spline_for_bond_prices, get_value_for_forward_rate,
    get_value_for_T_derivative_of_forward_rate.
  set (p := fun x => splev x (tck_bond self) 0).
  set (p1 := fun x => splev x (tck_bond self) 1).
  change (splev T (tck_bond self) 0) with (p T).
  change (splev T (tck_bond self) 1) with (p1 T).
  intros Hp H0 H1. split.
  - pose proof (derivable_pt_lim_opp _ _ _
                  (derivable_pt_lim_comp p ln T _ _ H0 (derivable_pt_lim_ln (p T) Hp))) as Hln.
    apply (derivable_pt_lim_pointwise (- comp ln p)%F); [reflexivity|].
    replace (- p1 T / p T) with (- (/ p T * p1 T)) by (field; lra). exact Hln.
  - pose proof (derivable_pt_lim_div (- p1)%F p T _ _
                  (derivable_pt_lim_opp _ _ _ H1) H0 ltac:(lra)) as Hdiv.
    apply (derivable_pt_lim_pointwise (- p1 / p)%F); [reflexivity|].
    match goal with
    | H : derivable_pt_lim _ _ ?l |- derivable_pt_lim _ _ ?r => replace r with l; [exact H|]
    end.
    unfold opp_fct, Rsqr. field. lra.
Qed.

End Curve.

Section Quotes.

Lemma comprehension_ok {A B : Type} (f : A -> result B) (g : A -> B) (l : list A) :
  (forall x, x ∈ l -> f x = Ok (g x)) -> comprehension f l = Ok (g <$> l).
Proof.
  induction l as [|x l IH]; intros Hf; [reflexivity|].
  cbn [comprehension]. rewrite (Hf x) by left. cbn [mbind result_bind].
  rewrite IH by (intros y Hy; apply Hf; by right). reflexivity.
Qed.

Lemma comprehension_raise {A B : Type} (f : A -> result B) (g : A -> B)
    (l1 : list A) (x : A) (l2 : list A) (e : exn) :
  (forall y, y ∈ l1 -> f y = Ok (g y)) -> f x = Raise e ->
  comprehension f (l1 ++ x :: l2) = Raise e.
Proof.
  induction l1 as [|y l1 IH]; intros Hf Hx.
  - cbn [app comprehension]. by rewrite Hx.
  - cbn [app comprehension]. rewrite (Hf y) by left. cbn [mbind result_bind].
    rewrite IH; [reflexivity | intros z Hz; apply Hf; by right | exact Hx].
Qed.

Lemma years_length : length years = 12%nat.
Proof.
  reflexivity.
Qed.

Lemma years_positive : Forall (fun t => 0 < t) years.
Proof.
  unfold years. repeat constructor; lra.
Qed.

Lemma exp_le_1 (x : R) : x <= 0 -> exp x <= 1.
Proof.
  intros [Hlt | ->]; [|rewrite exp_0; lra].
  rewrite <- exp_0. left. by apply exp_increasing.
Qed.

Lemma get_bond_prices_cases (yields_in_percentage : list R) :
  ((length yields_in_percentage < 12)%nat ->
   get_bond_prices yields_in_percentage = Raise IndexError)
  /\ ((12 <= length yields_in_percentage)%nat ->
      exists bond_prices,
        get_bond_prices yields_in_percentage = Ok bond_prices
        /\ get_bond_prices (take 12 yields_in_percentage) = Ok bond_prices
        /\ length bond_prices = 12%nat
        /\ (forall i y t, yields_in_percentage !! i = Some y -> years !! i = Some t ->
              bond_prices !! i = Some (exp (- y / 100 * t))
              /\ 0 < exp (- y / 100 * t)
              /\ (0 <= y -> exp (- y / 100 * t) <= 1))).
Proof.
  set (g := fun (ys : list R) (i : nat) =>
              exp (- default 0 (ys !! i) / 100 * default 0 (years !! i))).
  assert (Hstep : forall (ys : list R) (i : nat), (i < length ys)%nat -> (i < 12)%nat ->
            (y ← py_getitem ys (Z.of_nat i);
             t ← py_getitem years (Z.of_nat i);
             Ok (exp (- y / 100 * t))) = Ok (g ys i)).
  { intros ys i Hi H12.
    destruct (lookup_lt_is_Some_2 ys i Hi) as [y Hy].
    destruct (lookup_lt_is_Some_2 years i) as [t Ht]; [by rewrite years_length|].
    rewrite (py_getitem_nat _ _ _ Hy). cbn [mbind result_bind].
    rewrite (py_getitem_nat _ _ _ Ht). cbn [mbind result_bind].
    unfold g. by rewrite Hy, Ht. }
  split.
  - intros Hshort. unfold get_bond_prices, py_range.
    change (Z.to_nat 12) with 12%nat.
    set (n := length yields_in_percentage).
    replace 12%nat with (n + S (12 - n - 1))%nat by lia.
    rewrite seq_app. cbn [seq]. change (0 + n)%nat with n.
    apply (comprehension_raise _ (g yields_in_percentage)).
    + intros i Hi. apply elem_of_seq in Hi. apply Hstep; unfold n in *; lia.
    + rewrite (py_getitem_beyond yields_in_percentage) by (unfold n; lia). reflexivity.
  - intros Hlong. exists (g yields_in_percentage <$> seq 0 12).
    assert (Hsame : g (take 12 yields_in_percentage) <$> seq 0 12
                    = g yields_in_percentage <$> seq 0 12).
    { apply list_fmap_ext. intros k i Hk. apply lookup_seq in Hk as [-> Hk].
      unfold g. by rewrite lookup_take_lt by lia. }
    split; [|split; [|split]].
    + unfold get_bond_prices, py_range. change (Z.to_nat 12) with 12%nat.
      apply comprehension_ok. intros i Hi. apply elem_of_seq in Hi.
      apply Hstep; lia.
    + rewrite <- Hsame. unfold get_bond_prices, py_range. change (Z.to_nat 12) with 12%nat.
      apply comprehension_ok. intros i Hi. apply elem_of_seq in Hi.
      apply Hstep; [rewrite length_take|]; lia.
    + by rewrite length_fmap, length_seq.
    + intros i y t Hy Ht.
      assert (Hi : (i < 12)%nat) by (rewrite <- years_length; eapply lookup_lt_Some; exact Ht).
      split; [|split].
      * rewrite list_lookup_fmap.
        assert (Hs : seq 0 12 !! i = Some i) by (apply lookup_seq; split; [reflexivity | exact Hi]).
        rewrite Hs. cbn. unfold g. by rewrite Hy, Ht.
      * apply exp_pos.
      * intros Hy0. apply exp_le_1.
        pose proof years_positive as Hpos.
        rewrite Forall_lookup in Hpos. specialize (Hpos i t Ht). cbv beta in Hpos.
        assert (0 <= y / 100 * t) by (apply Rmult_le_pos; lra). lra.
Qed.

(** [get_bond_prices] needs twelve yields and reads no more than twelve:
    with fewer it raises [IndexError]; otherwise it returns twelve prices
    [exp(-y_i/100 * years_i)], all positive, and at most 1 where the yield
    is not negative. *)
Theorem get_bond_prices_twelve (yields_in_percentage : list R) :
  ((length yields_in_percentage < 12)%nat ->
   get_bond_prices yields_in_percentage = Raise IndexError)
  /\ ((12 <= length yields_in_percentage)%nat ->
      exists bond_prices,
        get_bond_prices yields_in_percentage = Ok bond_prices
        /\ get_bond_prices (take 12 yields_in_percentage) = Ok bond_prices
        /\ length bond_prices = 12%nat
        /\ (forall i y t, yields_in_percentage !! i = Some y -> years !! i = Some t ->
              bond_prices !! i = Some (exp (- y / 100 * t))
              /\ 0 < exp (- y / 100 * t)
              /\ (0 <= y -> exp (- y / 100 * t) <= 1))).
Proof.
  exact (get_bond_prices_cases yields_in_percentage).
Qed.

End Quotes.

Section Document.

Context {parser : PyFloat}.

Lemma outcome_bind_inv {A B : Type} (m : outcome A) (k : A -> outcome B) (b : B) :
  m ≫= k = Return b -> exists a, m = Return a /\ k a = Return b.
Proof.
  destruct m as [a|e]; cbn; [eauto | discriminate].
Qed.

Lemma getitem_key_errors (d : xml) (key : string) (e : py_exn) :
  getitem_key d key = Throw e -> e = KeyError \/ e = TypeError.
Proof.
  unfold getitem_key. destruct d as [s| |items|items]; try (intros [= <-]; by right).
  destruct (assoc items key); [discriminate | intros [= <-]; by left].
Qed.

Lemma weeks_of_month_errors (data : xml) (e : py_exn) :
  weeks_of_month data = Throw e -> e = KeyError \/ e = TypeError.
Proof.
  unfold weeks_of_month.
  destruct (getitem_key data "QR_BC_CM") as [d1|e1] eqn:H1; cbn [mbind outcome_bind];
    [|intros [= <-]; eapply getitem_key_errors; exact H1].
  destruct (getitem_key d1 "LIST_G_WEEK_OF_MONTH") as [d2|e2] eqn:H2; cbn [mbind outcome_bind];
    [|intros [= <-]; eapply getitem_key_errors; exact H2].
  apply getitem_key_errors.
Qed.

Lemma days_of_week_errors (week : xml) (e : py_exn) :
  days_of_week week = Throw e -> e = KeyError \/ e = TypeError.
Proof.
  unfold days_of_week.
  destruct (getitem_key week "LIST_G_NEW_DATE") as [d1|e1] eqn:H1; cbn [mbind outcome_bind];
    [|intros [= <-]; eapply getitem_key_errors; exact H1].
  apply getitem_key_errors.
Qed.

(** The loop leaves its variable bound, and fails only where the handler's
    own look-up does. *)
Lemma week_loop_outcome (data : xml) (indices : list Z) (bound : option xml) :
  (exists week, week_loop data indices bound = Return (Some week))
  \/ (indices = [] /\ week_loop data indices bound = Return bound)
  \/ (exists e, week_loop data indices bound = Throw e /\ (e = KeyError \/ e = TypeError)).
Proof.
  revert bound. induction indices as [|i rest IH]; intros bound.
  - right. left. by split.
  - cbn [week_loop].
    destruct (weeks_of_month data) as [w|e] eqn:Hw; cbn [mbind outcome_bind].
    + destruct (getitem_int w i) as [week|e].
      * left. by exists week.
      * destruct (IH (Some w)) as [Hsome | [[-> Hnil] | Herr]].
        -- by left.
        -- left. by exists w.
        -- by right; right.
    + right. right. exists e. split; [reflexivity | exact (weeks_of_month_errors data e Hw)].
Qed.

(** Whatever the document, [get_data_for_newest_day] fails only with
    [KeyError] or [TypeError]: an index out of range is always caught, and
    the week is bound when the loop ends. *)
Theorem get_data_for_newest_day_errors (data : xml) (e : py_exn) :
  get_data_for_newest_day data = Throw e -> e = KeyError \/ e = TypeError.
Proof.
  unfold get_data_for_newest_day.
  destruct (week_loop_outcome data [4; 3; 2; 1; 0]%Z None)
    as [[week ->] | [[Hnil _] | (e' & -> & He')]]; cbn [mbind outcome_bind].
  - destruct (days_of_week week) as [d|e1] eqn:Hd; cbn [mbind outcome_bind].
    + destruct (getitem_int d (-1)); discriminate.
    + intros [= <-]. exact (days_of_week_errors week e1 Hd).
  - discriminate.
  - by intros [= <-].
Qed.

Lemma getitem_int_list_at (items : list xml) (i : Z) (v : xml) :
  (0 <= i)%Z -> items !! Z.to_nat i = Some v -> getitem_int (XList items) i = Return v.
Proof.
  intros Hi Hv. cbn [getitem_int].
  replace i with (Z.of_nat (Z.to_nat i)) by lia.
  by rewrite (py_getitem_nat _ _ _ Hv).
Qed.

Lemma getitem_int_list_beyond (items : list xml) (i : Z) :
  (Z.of_nat (length items) <= i)%Z -> getitem_int (XList items) i = Throw (Builtin IndexError).
Proof.
  intros Hi. cbn [getitem_int]. by rewrite py_getitem_beyond.
Qed.

Lemma getitem_int_last (items : list xml) (v : xml) :
  last items = Some v -> getitem_int (XList items) (-1) = Return v.
Proof.
  intros Hv. cbn [getitem_int].
  assert (Hlen : (0 < length items)%nat) by (destruct items; [discriminate | cbn; lia]).
  destruct (py_getitem_negative items (-1)) as (v' & Hv' & ->); [lia|].
  rewrite last_lookup in Hv.
  replace (Z.to_nat (Z.of_nat (length items) + -1)) with (pred (length items)) in Hv' by lia.
  rewrite Hv in Hv'. by inversion Hv'.
Qed.

Lemma week_loop_chosen (data entry week : xml) :
  weeks_of_month data = Return entry -> chosen_week entry = Some week ->
  week_loop data [4; 3; 2; 1; 0]%Z None = Return (Some week).
Proof.
  intros Hw Hweek.
  destruct entry as [s| |items|weeks]; try discriminate.
  - cbn [chosen_week] in Hweek. inversion Hweek.
    cbn [week_loop]. rewrite Hw. reflexivity.
  - cbn [chosen_week] in Hweek.
    destruct weeks as [|w0 [|w1 [|w2 [|w3 [|w4 rest]]]]]; cbn in Hweek;
      rewrite ?Nat.min_0_r in Hweek; cbn in Hweek;
      try discriminate; inversion Hweek;
      cbn [week_loop]; rewrite Hw; cbn [mbind outcome_bind];
      repeat first [ rewrite getitem_int_list_beyond by (cbn [length]; lia)
                   | erewrite getitem_int_list_at by (first [lia | reflexivity]) ];
      congruence.
Qed.

(** The entry [get_data_for_newest_day] returns: the last day of the chosen
    week, where the chosen week is the last of up to five listed weeks, the
    fifth when more are listed, or the single week of the month. *)
Theorem get_data_for_newest_day_chosen (data weeks week days day : xml) :
  weeks_of_month data = Return weeks -> chosen_week weeks = Some week ->
  days_of_week week = Return days -> chosen_day days = Some day ->
  get_data_for_newest_day data = Return day.
Proof.
  intros Hw Hweek Hd Hday. unfold get_data_for_newest_day.
  rewrite (week_loop_chosen data weeks week Hw Hweek). cbn [mbind outcome_bind].
  rewrite Hd. cbn [mbind outcome_bind].
  destruct days as [s| |items|items]; try discriminate.
  - by inversion Hday.
  - cbn [chosen_day] in Hday. by rewrite (getitem_int_last _ _ Hday).
Qed.

Lemma floats_length (yields_strings : list xml) (yields_floats : list R) :
  floats yields_strings = Return yields_floats ->
  length yields_floats = length yields_strings.
Proof.
  revert yields_floats. induction yields_strings as [|x rest IH]; intros ys H.
  - by inversion H.
  - cbn [floats] in H.
    apply outcome_bind_inv in H as (y & _ & H).
    apply outcome_bind_inv in H as (ys' & Hrest & H).
    inversion H. cbn [length]. f_equal. by apply IH.
Qed.

Lemma put_all_data_in_list_length (data : xml) (list1 : list xml) :
  put_all_data_in_list data = Return list1 -> length list1 = 14%nat.
Proof.
  unfold put_all_data_in_list. intros H.
  repeat (apply outcome_bind_inv in H as (? & _ & H)).
  by inversion H.
Qed.

(** Whenever [only_yields_in_percentage] returns, it returns twelve yields,
    so the [get_bond_prices] that follows in [Bond_Data.__init__] returns
    twelve positive prices: the constructor never fails there. *)
Theorem only_yields_feed_bond_prices (data : xml) (yields_in_percentage : list R) :
  only_yields_in_percentage data = Return yields_in_percentage ->
  length yields_in_percentage = 12%nat
  /\ exists bond_prices,
       get_bond_prices yields_in_percentage = Ok bond_prices
       /\ length bond_prices = 12%nat
       /\ Forall (fun p => 0 < p) bond_prices.
Proof.
  unfold only_yields_in_percentage. intros H.
  apply outcome_bind_inv in H as (list1 & Hlist & H). cbv zeta in H.
  apply floats_length in H. rewrite length_drop in H.
  rewrite (put_all_data_in_list_length _ _ Hlist) in H.
  split; [exact H|].
  destruct (get_bond_prices_cases yields_in_percentage) as [_ Hlong].
  destruct Hlong as (bond_prices & Hp & _ & Hlen & Hentries); [lia|].
  exists bond_prices. split; [exact Hp|]. split; [exact Hlen|].
  apply Forall_lookup. intros i p Hi.
  assert (Hi12 : (i < 12)%nat) by (rewrite <- Hlen; eapply lookup_lt_Some; exact Hi).
  destruct (lookup_lt_is_Some_2 yields_in_percentage i) as [y Hy]; [lia|].
  destruct (lookup_lt_is_Some_2 years i) as [t Ht]; [by rewrite years_length|].
  destruct (Hentries i y t Hy Ht) as (Hpi & Hpos & _).
  rewrite Hpi in Hi. inversion Hi; subst p. exact Hpos.
Qed.

End Document.

Section Dividend.

Context {parser : PyFloat}.

Lemma pivot_loop_found (cells : list string) (last_update_date : string) (i pivot k : nat) :
  cells !! k = Some last_update_date ->
  (forall j, (j < k)%nat -> cells !! j <> Some last_update_date) ->
  pivot_loop cells last_update_date i pivot = (i + k)%nat.
Proof.
  revert i k. induction cells as [|cell rest IH]; intros i k Hk Hfirst; [discriminate|].
  cbn [pivot_loop]. destruct (String.eqb_spec cell last_update_date) as [->|Hne].
  - destruct k as [|k]; [lia|]. exfalso. apply (Hfirst 0%nat); [lia | reflexivity].
  - destruct k as [|k]; [cbn in Hk; congruence|].
    rewrite (IH (S i) k); [lia | exact Hk |].
    intros j Hj. apply (Hfirst (S j)). lia.
Qed.

Lemma pivot_loop_absent (cells : list string) (last_update_date : string) (i pivot : nat) :
  (forall j, cells !! j <> Some last_update_date) ->
  pivot_loop cells last_update_date i pivot = pivot.
Proof.
  revert i. induction cells as [|cell rest IH]; intros i Habsent; [reflexivity|].
  cbn [pivot_loop]. destruct (String.eqb_spec cell last_update_date) as [->|Hne].
  - exfalso. by apply (Habsent 0%nat).
  - apply IH. intros j. apply (Habsent (S j)).
Qed.

(** When the update date is in the table, the yield is read from the cell
    after its first occurrence; when that occurrence is the last cell the
    call raises [IndexError]. *)
Theorem dividend_yield_after_first_match
    (last_update_date : string) (list_of_html_table_data_cells : list string) (k : nat) :
  list_of_html_table_data_cells !! k = Some last_update_date ->
  (forall j, (j < k)%nat -> list_of_html_table_data_cells !! j <> Some last_update_date) ->
  (forall cell percentage,
     list_of_html_table_data_cells !! S k = Some cell -> float cell = Ok percentage ->
     get_latest_dividend_yield last_update_date list_of_html_table_data_cells
     = Ok (percentage / 100))
  /\ (length list_of_html_table_data_cells = S k ->
      get_latest_dividend_yield last_update_date list_of_html_table_data_cells
      = Raise IndexError).
Proof.
  intros Hk Hfirst. unfold get_latest_dividend_yield.
  rewrite (pivot_loop_found _ _ 0 0 k Hk Hfirst). cbn [Nat.add].
  replace (Z.of_nat k + 1)%Z with (Z.of_nat (S k)) by lia. split.
  - intros cell percentage Hcell Hfloat.
    rewrite (py_getitem_nat _ _ _ Hcell). cbn [mbind result_bind].
    rewrite Hfloat. reflexivity.
  - intros Hlen. rewrite py_getitem_beyond by lia. reflexivity.
Qed.

(** When no cell holds the update date, the search keeps its initial index
    0 and the call reads the second cell of the table without any error;
    it raises [IndexError] only for a table of fewer than two cells. *)
Theorem dividend_yield_without_match
    (last_update_date : string) (list_of_html_table_data_cells : list string) :
  (forall j, list_of_html_table_data_cells !! j <> Some last_update_date) ->
  (forall cell percentage,
     list_of_html_table_data_cells !! 1%nat = Some cell -> float cell = Ok percentage ->
     get_latest_dividend_yield last_update_date list_of_html_table_data_cells
     = Ok (percentage / 100))
  /\ ((length list_of_html_table_data_cells <= 1)%nat ->
      get_latest_dividend_yield last_update_date list_of_html_table_data_cells
      = Raise IndexError).
Proof.
  intros Habsent. unfold get_latest_dividend_yield.
  rewrite (pivot_loop_absent _ _ 0 0 Habsent).
  change (Z.of_nat 0 + 1)%Z with (Z.of_nat 1). split.
  - intros cell percentage Hcell Hfloat.
    rewrite (py_getitem_nat _ _ _ Hcell). cbn [mbind result_bind].
    rewrite Hfloat. reflexivity.
  - intros Hlen. rewrite py_getitem_beyond by lia. reflexivity.
Qed.

End Dividend.

Section FederalFunds.

Context {fred : Fred}.

Lemma new_date_cases (y m d : Z) :
  new_date y m d
  = if decide ((1 <= y <= 9999) /\ (1 <= m <= 12) /\ (1 <= d <= days_in_month y m))%Z
    then Ok {| year := y; month := m; day := d |}
    else Raise ValueError.
Proof.
  unfold new_date.
  destruct (decide _) as [H|H];
    repeat match goal with
           | |- context [(?a <=? ?b)%Z] => destruct (Z.leb_spec a b)
           end; cbn; try reflexivity; lia.
Qed.

Lemma days_in_month_bounds (y m : Z) : (28 <= days_in_month y m <= 31)%Z.
Proof.
  unfold days_in_month.
  destruct (m =? 2)%Z; [destruct (is_leap y); lia|].
  destruct ((m =? 4) || (m =? 6) || (m =? 9) || (m =? 11))%Z; lia.
Qed.

(** On a valid day [today], the call fails with [ValueError] before any
    request in January and on a day the previous month does not have;
    otherwise it asks for the window from the same day of the previous
    month to the first of this month, fails with [ValueError] unless the
    window holds exactly one observation, and returns that one over 100. *)
Theorem federal_funds_rate_window (today : date) :
  valid_date today ->
  ((month today = 1 \/ days_in_month (year today) (month today - 1) < day today)%Z ->
   get_current_federal_funds_rate today = Raise ValueError)
  /\ ((2 <= month today)%Z ->
      (day today <= days_in_month (year today) (month today - 1))%Z ->
      forall series,
        get_series "FEDFUNDS"
          {| year := year today; month := month today - 1; day := day today |}
          {| year := year today; month := month today; day := 1 |} = Ok series ->
        (length series <> 1%nat -> get_current_federal_funds_rate today = Raise ValueError)
        /\ (forall x, series = [Some x] ->
              get_current_federal_funds_rate today = Ok (Some (x / 100)))).
Proof.
  unfold valid_date. rewrite new_date_cases.
  destruct (decide _) as [(Hy & Hm & Hd)|]; [intros _ | discriminate].
  pose proof (days_in_month_bounds (year today) (month today)) as Hdim.
  assert (Hfirst : replace_day today 1
                   = Ok {| year := year today; month := month today; day := 1 |}).
  { unfold replace_day. rewrite new_date_cases. destruct (decide _); [reflexivity | lia]. }
  unfold get_current_federal_funds_rate. rewrite Hfirst. cbn [mbind result_bind]. cbv zeta.
  unfold replace_month. rewrite new_date_cases. split.
  - intros Hbad. destruct (decide _); [lia | reflexivity].
  - intros Hmonth Hday series Hseries.
    destruct (decide _) as [_|Hn]; [|lia]. cbn [mbind result_bind].
    rewrite Hseries. cbn [mbind result_bind]. split.
    + intros Hlen. destruct series as [|x [|x' rest]]; cbn in *; try reflexivity. lia.
    + intros x ->. reflexivity.
Qed.

End FederalFunds.

Section Correlation.

Context {stats : NumPyStats}.

Lemma comprehension_ext {A B : Type} (f g : A -> result B) (l : list A) :
  (forall x, x ∈ l -> f x = g x) -> comprehension f l = comprehension g l.
Proof.
  induction l as [|x l IH]; intros Hfg; [reflexivity|].
  cbn [comprehension]. rewrite (Hfg x) by left.
  rewrite IH by (intros y Hy; apply Hfg; by right). reflexivity.
Qed.

Lemma adjusted_length {A : Type} (l : list A) (m : nat) :
  (m <= length l)%nat -> length (adjusted l m) = m.
Proof.
  intros Hm. unfold adjusted. rewrite length_drop. lia.
Qed.

Lemma adjusted_fmap {A B : Type} (f : A -> B) (l : list A) (m : nat) :
  adjusted (f <$> l) m = f <$> adjusted l m.
Proof.
  unfold adjusted. by rewrite fmap_drop, length_fmap.
Qed.

Lemma target_process_ok (l : list R) (m : nat) :
  (m <= length l)%nat ->
  target_process l m
  = Ok ((fun i : nat =>
           (default 0 (l !! S i) - default 0 (l !! i)) / default 0 (l !! i))
        <$> seq 0 (m - 1)).
Proof.
  intros Hm. unfold target_process, py_range.
  replace (Z.to_nat (Z.of_nat m - 1)) with (m - 1)%nat by lia.
  apply comprehension_ok. intros i Hi. apply elem_of_seq in Hi.
  destruct (lookup_lt_is_Some_2 l i) as [x0 H0]; [lia|].
  destruct (lookup_lt_is_Some_2 l (S i)) as [x1 H1]; [lia|].
  replace (Z.of_nat i + 1)%Z with (Z.of_nat (S i)) by lia.
  rewrite (py_getitem_nat _ _ _ H1). cbn [mbind result_bind].
  rewrite (py_getitem_nat _ _ _ H0). cbn [mbind result_bind].
  by rewrite H0, H1.
Qed.

Lemma list_usd_jpy_inverts (df_jpy_usd : list (option R)) :
  list_usd_jpy df_jpy_usd = (fun x => 1 / x) <$> list_nikkei_prices df_jpy_usd.
Proof.
  unfold list_usd_jpy, list_nikkei_prices.
  induction df_jpy_usd as [|[x|] rest IH]; cbn; [reflexivity | by rewrite IH | exact IH].
Qed.

(** The call never raises.  The two return series it correlates have the
    same length, one less than the shorter of the two series once the
    missing observations are dropped (none when that one is empty); they are
    taken on the most recent observations of each, and the return of the
    inverted rate is [q_i / q_(i+1) - 1] in the quoted rates. *)
Theorem correlation_return_series (df_nikkei_prices df_jpy_usd : list (option R)) :
  let nikkei := list_nikkei_prices df_nikkei_prices in
  let jpy_usd := list_nikkei_prices df_jpy_usd in
  let minimum_length := min (length nikkei) (length jpy_usd) in
  exists target_process_nikkei target_process_usd_jpy,
    get_correlation_foreign_asset_and_exchange_rate df_nikkei_prices df_jpy_usd
    = Ok (corrcoef target_process_nikkei target_process_usd_jpy)
    /\ length target_process_nikkei = (minimum_length - 1)%nat
    /\ length target_process_usd_jpy = (minimum_length - 1)%nat
    /\ (forall i s0 s1,
          adjusted nikkei minimum_length !! i = Some s0 ->
          adjusted nikkei minimum_length !! S i = Some s1 ->
          target_process_nikkei !! i = Some ((s1 - s0) / s0))
    /\ (forall i q0 q1,
          adjusted jpy_usd minimum_length !! i = Some q0 ->
          adjusted jpy_usd minimum_length !! S i = Some q1 ->
          q0 <> 0 -> q1 <> 0 ->
          target_process_usd_jpy !! i = Some (q0 / q1 - 1)).
Proof.
  intros nikkei jpy_usd minimum_length.
  unfold get_correlation_foreign_asset_and_exchange_rate. cbv zeta.
  rewrite list_usd_jpy_inverts. fold nikkei. fold jpy_usd.
  rewrite length_fmap. fold minimum_length.
  assert (Hn : length (adjusted nikkei minimum_length) = minimum_length)
    by (apply adjusted_length; unfold minimum_length; lia).
  assert (Hq : length (adjusted jpy_usd minimum_length) = minimum_length)
    by (apply adjusted_length; unfold minimum_length; lia).
  rewrite adjusted_fmap.
  rewrite (target_process_ok (adjusted nikkei minimum_length)) by lia.
  cbn [mbind result_bind].
  rewrite (target_process_ok (_ <$> adjusted jpy_usd minimum_length))
    by (rewrite length_fmap; lia).
  cbn [mbind result_bind].
  eexists _, _. split; [reflexivity|].
  split; [by rewrite length_fmap, length_seq|].
  split; [by rewrite length_fmap, length_seq|].
  assert (Hidx : forall (l : list R) i x1, l !! S i = Some x1 -> length l = minimum_length ->
            seq 0 (minimum_length - 1) !! i = Some i).
  { intros l i x1 H1 Hl. apply lookup_seq. split; [reflexivity|].
    apply lookup_lt_Some in H1. lia. }
  split.
  - intros i s0 s1 H0 H1. rewrite list_lookup_fmap, (Hidx _ _ _ H1 Hn). cbn.
    by rewrite H0, H1.
  - intros i q0 q1 H0 H1 Hq0 Hq1. rewrite list_lookup_fmap, (Hidx _ _ _ H1 Hq). cbn.
    rewrite !list_lookup_fmap, H0, H1. cbn. f_equal. field. by split.
Qed.

Lemma list_nikkei_prices_scale (c : R) (df : list (option R)) :
  list_nikkei_prices (option_map (Rmult c) <$> df) = Rmult c <$> list_nikkei_prices df.
Proof.
  unfold list_nikkei_prices.
  induction df as [|[x|] rest IH]; cbn; [reflexivity | by rewrite IH | exact IH].
Qed.

Lemma list_nikkei_prices_nonzero (df : list (option R)) :
  Forall (fun x => x <> Some 0) df -> Forall (fun x => x <> 0) (list_nikkei_prices df).
Proof.
  unfold list_nikkei_prices.
  induction 1 as [|[x|] rest Hx _ IH]; cbn; [constructor | | exact IH].
  constructor; [congruence | exact IH].
Qed.

Lemma py_getitem_fmap {A B : Type} (f : A -> B) (l : list A) (i : Z) :
  py_getitem (f <$> l) i = f <$> py_getitem l i.
Proof.
  unfold py_getitem. rewrite length_fmap.
  destruct (py_index (length l) i) as [k|e]; [|reflexivity].
  cbn [mbind result_bind]. rewrite list_lookup_fmap.
  by destruct (l !! k).
Qed.

Lemma py_getitem_elem_of {A : Type} (l : list A) (i : Z) (x : A) :
  py_getitem l i = Ok x -> x ∈ l.
Proof.
  unfold py_getitem. destruct (py_index (length l) i) as [k|e]; [|discriminate].
  cbn [mbind result_bind]. destruct (l !! k) as [v|] eqn:Hv; [|discriminate].
  intros [= <-]. by eapply list_elem_of_lookup_2.
Qed.

(** Simple returns do not see the unit of the quotes. *)
Lemma target_process_scale (c : R) (l : list R) (m : nat) :
  c <> 0 -> Forall (fun x => x <> 0) l ->
  target_process (Rmult c <$> l) m = target_process l m.
Proof.
  intros Hc Hl. unfold target_process. apply comprehension_ext. intros i _.
  rewrite !py_getitem_fmap.
  destruct (py_getitem l (Z.of_nat i + 1)) as [x1|e1]; [|reflexivity].
  destruct (py_getitem l (Z.of_nat i)) as [x0|e0] eqn:H0; [|reflexivity].
  cbn. f_equal.
  apply py_getitem_elem_of in H0. rewrite Forall_forall in Hl. specialize (Hl x0 H0).
  field. by split.
Qed.

(** Rescaling either downloaded series by a non-zero factor (another unit
    for the index, or for the exchange rate) leaves the two return series,
    hence the correlation, unchanged. *)
Theorem correlation_scale_invariant
    (c_nikkei c_jpy : R) (df_nikkei_prices df_jpy_usd : list (option R)) :
  c_nikkei <> 0 -> c_jpy <> 0 ->
  Forall (fun x => x <> Some 0) df_nikkei_prices ->
  Forall (fun x => x <> Some 0) df_jpy_usd ->
  get_correlation_foreign_asset_and_exchange_rate
    (option_map (Rmult c_nikkei) <$> df_nikkei_prices)
    (option_map (Rmult c_jpy) <$> df_jpy_usd)
  = get_correlation_foreign_asset_and_exchange_rate df_nikkei_prices df_jpy_usd.
Proof.
  intros Hc1 Hc2 H1 H2.
  apply list_nikkei_prices_nonzero in H1, H2.
  unfold get_correlation_foreign_asset_and_exchange_rate. cbv zeta.
  rewrite !list_usd_jpy_inverts, !list_nikkei_prices_scale, !length_fmap.
  set (m := min _ _).
  assert (Hinv : (fun x => 1 / x) <$> (Rmult c_jpy <$> list_nikkei_prices df_jpy_usd)
                 = Rmult (1 / c_jpy) <$> ((fun x => 1 / x) <$> list_nikkei_prices df_jpy_usd)).
  { rewrite <- !list_fmap_compose. apply Forall_fmap_ext_1.
    eapply Forall_impl; [exact H2|]. intros x Hx. cbn. field. by split. }
  rewrite Hinv, !adjusted_fmap.
  rewrite (target_process_scale c_nikkei) by (try assumption; by apply Forall_drop).
  rewrite (target_process_scale (1 / c_jpy)); [reflexivity | |].
  - unfold Rdiv. rewrite Rmult_1_l. by apply Rinv_neq_0_compat.
  - apply Forall_fmap. apply Forall_drop.
    eapply Forall_impl; [exact H2|]. intros x Hx. cbn.
    unfold Rdiv. rewrite Rmult_1_l. by apply Rinv_neq_0_compat.
Qed.

End Correlation.

Section Averages.

Lemma foldr_Rplus_bounds (lo hi : R) (l : list R) :
  Forall (fun x => lo <= x <= hi) l ->
  INR (length l) * lo <= foldr Rplus 0 l <= INR (length l) * hi.
Proof.
  induction 1 as [|x l Hx _ IH]; [cbn; lra|].
  cbn [foldr length]. rewrite S_INR. lra.
Qed.

(** Every cumulative average lies between the bounds of the values
    averaged: the printed price estimate is never below the smallest nor
    above the largest simulated payoff. *)
Theorem cumulative_average_bounds (lo hi : R) (listt : list R) :
  Forall (fun x => lo <= x <= hi) listt ->
  Forall (fun average => lo <= average <= hi) (cumulative_average_of_list listt).
Proof.
  intros Hl. apply Forall_lookup. intros i average Hi.
  assert (Hlt : (i < length listt)%nat).
  { rewrite <- cumulative_average_length. eapply lookup_lt_Some. exact Hi. }
  rewrite (cumulative_average_lookup _ _ Hlt) in Hi. injection Hi as <-.
  rewrite py_sum_foldr.
  pose proof (foldr_Rplus_bounds lo hi (take (i + 1) listt) (Forall_take _ _ _ Hl)) as Hb.
  rewrite length_take in Hb. replace (Nat.min (i + 1) (length listt)) with (i + 1)%nat in Hb by lia.
  assert (Hpos : 0 < INR (i + 1)) by (apply lt_0_INR; lia).
  split.
  - apply (Rmult_le_reg_l (INR (i + 1))); [exact Hpos|].
    replace (INR (i + 1) * (foldr Rplus 0 (take (i + 1) listt) / INR (i + 1)))
      with (foldr Rplus 0 (take (i + 1) listt)) by (field; lra). lra.
  - apply (Rmult_le_reg_l (INR (i + 1))); [exact Hpos|].
    replace (INR (i + 1) * (foldr Rplus 0 (take (i + 1) listt) / INR (i + 1)))
      with (foldr Rplus 0 (take (i + 1) listt)) by (field; lra). lra.
Qed.

End Averages.

(** * The further properties at the concrete data *)

Section EngineExamples.

#[local] Existing Instance flat_curve.
#[local] Existing Instance counter_generator.

Lemma sample_engine_well_formed : well_formed sample_engine.
Proof.
  apply reachable_well_formed, (reachable_init sample_args), (init_ok sample_args). discriminate.
Qed.

Lemma sample_run :
  exists self' w',
    start_monte_carlo sample_engine sample_world = Ok (self', w')
    /\ reachable sample_engine.
Proof.
  assert (Hreach : reachable sample_engine)
    by (apply (reachable_init sample_args), (init_ok sample_args); discriminate).
  destruct (start_monte_carlo_success sample_engine sample_world sample_engine_well_formed)
    as (w1 & w2 & rates & prices & _ & _ & Hrun & _).
  - cbn. lia.
  - cbn. lra.
  - cbn. lia.
  - eexists _, _. split; [exact Hrun | exact Hreach].
Qed.

Lemma quiet_engine_reachable : reachable quiet_engine.
Proof.
  apply (reachable_init quiet_args), (init_ok quiet_args). discriminate.
Qed.

Lemma quiet_run (w : world) :
  exists self' w', start_monte_carlo quiet_engine w = Ok (self', w').
Proof.
  destruct (start_monte_carlo_success quiet_engine w
              (reachable_well_formed _ quiet_engine_reachable))
    as (w1 & w2 & rates & prices & _ & _ & Hrun & _).
  - cbn. lia.
  - cbn. lra.
  - exact I.
  - eexists _, _. exact Hrun.
Qed.

Lemma Theta_is_hull_white_drift_witness :
  Theta sample_engine 1 = Ok (hull_white_drift (bond_data sample_engine) 0.03 0.015 1).
Proof.
  apply (Theta_is_hull_white_drift sample_engine 1). cbn. lra.
Defined.

Lemma first_derivative_of_G_is_derivative_witness :
  exists g g' : R -> R,
    (forall t, G sample_engine t = Ok (g t))
    /\ (forall t, first_derivative_of_G sample_engine t = Ok (g' t))
    /\ (forall t, derivable_pt_lim g t (g' t)).
Proof.
  apply (first_derivative_of_G_is_derivative sample_engine). cbn. lra.
Defined.

Lemma B_t_T_bounds_witness :
  exists b, B_t_T sample_engine 1 3 = Ok b /\ 0 <= b < 1 / 0.03.
Proof.
  destruct (B_t_T_bounds sample_engine 1 3) as (b & Hb & Hrange & _).
  - cbn. lra.
  - lra.
  - exists b. split; [exact Hb | exact Hrange].
Defined.

Lemma p_t_T_at_maturity_witness : p_t_T sample_engine 1 1 0.01 = Ok 1.
Proof.
  apply (p_t_T_at_maturity sample_engine 1 0.01).
  - cbn. lra.
  - cbn. lra.
Defined.

Lemma start_monte_carlo_returns_iff_witness :
  is_Ok (start_monte_carlo sample_engine sample_world).
Proof.
  destruct (start_monte_carlo_returns_iff sample_engine sample_world) as [[_ Hreturns] _].
  - apply (reachable_init sample_args), (init_ok sample_args). discriminate.
  - apply Hreturns. cbn. repeat split; try lia; lra.
Defined.

Lemma start_monte_carlo_rewrites_only_paths_witness :
  exists self' w',
    start_monte_carlo sample_engine sample_world = Ok (self', w')
    /\ same_parameters sample_engine self'
    /\ timeline self' = timeline sample_engine
    /\ entropy_reads w' = 0%nat.
Proof.
  destruct sample_run as (self' & w' & Hrun & _).
  destruct (start_monte_carlo_rewrites_only_paths sample_engine self' sample_world w' Hrun)
    as (Hsame & Htimeline & _ & _ & _ & Hreads).
  exists self', w'. split; [exact Hrun|]. split; [exact Hsame|]. split; [exact Htimeline|].
  exact Hreads.
Defined.

Lemma asset_path_is_product_witness :
  exists self' w' w1,
    start_monte_carlo sample_engine sample_world = Ok (self', w')
    /\ np_random_seed (Some 7%Z) sample_world = Ok w1
    /\ value <$> (nikkei_price_list self' !! 0%nat) = Some (100 * 1).
Proof.
  destruct sample_run as (self' & w' & Hrun & Hreach).
  destruct (asset_path_is_product sample_engine self' sample_world w' Hreach Hrun)
    as (w1 & Hseed & Hpath).
  exists self', w', w1. split; [exact Hrun|]. split; [exact Hseed|].
  apply (Hpath 0%nat). cbn. lia.
Defined.

Lemma asset_path_without_volatility_witness :
  exists self' w',
    start_monte_carlo quiet_engine sample_world = Ok (self', w')
    /\ value <$> (nikkei_price_list self' !! 2%nat)
       = Some (100 * (1 + (-0.001 - 0.02) * (3 / 2)) ^ 2).
Proof.
  destruct (quiet_run sample_world) as (self' & w' & Hrun).
  exists self', w'. split; [exact Hrun|].
  apply (asset_path_without_volatility quiet_engine self' sample_world w'
           quiet_engine_reachable Hrun).
  - reflexivity.
  - cbn. lia.
Defined.

Lemma rate_path_without_volatility_witness :
  exists self1 other1 w1 w1',
    start_monte_carlo quiet_engine sample_world = Ok (self1, w1)
    /\ start_monte_carlo quiet_engine later_world = Ok (other1, w1')
    /\ domestic_risk_free_rate_list self1 = domestic_risk_free_rate_list other1.
Proof.
  destruct (quiet_run sample_world) as (self1 & w1 & Hrun).
  destruct (quiet_run later_world) as (other1 & w1' & Hrun').
  exists self1, other1, w1, w1'. split; [exact Hrun|]. split; [exact Hrun'|].
  destruct (rate_path_without_volatility quiet_engine quiet_engine self1 other1
              sample_world later_world w1 w1'
              quiet_engine_reachable quiet_engine_reachable) as [Hsame _].
  - reflexivity.
  - reflexivity.
  - exact Hrun.
  - exact Hrun'.
  - exact Hsame.
Defined.

Lemma accessors_past_maturity_witness :
  (exists r, get_domestic_risk_free_rate_at_a_specified_time sample_engine 4 = Ok r)
  /\ get_nikkei_price_at_a_specified_time sample_engine 5 = Raise IndexError.
Proof.
  split.
  - destruct (accessors_past_maturity sample_engine 4) as [Hlast _].
    + apply (reachable_init sample_args), (init_ok sample_args). discriminate.
    + cbn. lia.
    + cbn. lra.
    + destruct Hlast as (r & s & _ & _ & Hr & _); [cbn; lra|].
      exists r. exact Hr.
  - destruct (accessors_past_maturity sample_engine 5) as [_ Hbeyond].
    + apply (reachable_init sample_args), (init_ok sample_args). discriminate.
    + cbn. lia.
    + cbn. lra.
    + destruct Hbeyond as [_ Hs]; [cbn; lra|]. exact Hs.
Defined.

Lemma accessors_at_negative_time_witness :
  (exists r, get_domestic_risk_free_rate_at_a_specified_time sample_engine (-1) = Ok r)
  /\ get_nikkei_price_at_a_specified_time sample_engine (-7) = Raise IndexError.
Proof.
  split.
  - destruct (accessors_at_negative_time sample_engine (-1)) as [Hfirst _].
    + apply (reachable_init sample_args), (init_ok sample_args). discriminate.
    + cbn. lia.
    + cbn. lra.
    + destruct Hfirst as (r & s & _ & _ & Hr & _); [cbn; lra|].
      exists r. exact Hr.
  - destruct (accessors_at_negative_time sample_engine (-7)) as (_ & _ & Hbeyond).
    + apply (reachable_init sample_args), (init_ok sample_args). discriminate.
    + cbn. lia.
    + cbn. lra.
    + destruct Hbeyond as [_ Hs]; [cbn; lra|]. exact Hs.
Defined.

Lemma sample_floor : Zfloor (3 / timestep sample_engine) = 2%Z.
Proof.
  replace (3 / timestep sample_engine) with (IZR 2) by (cbn; lra). apply ZfloorZ.
Qed.

Lemma discount_factor_bounds_witness :
  exists d, discount_factor sample_engine 3 = Ok d /\ 0 < d.
Proof.
  destruct (discount_factor_bounds sample_engine 3) as (d & Hd & Hpos & _).
  - cbn. lra.
  - rewrite sample_floor. change (2 <= 3)%Z. lia.
  - exists d. split; [exact Hd | exact Hpos].
Defined.

Lemma discount_factor_constant_rate_witness :
  discount_factor
    (set_lists sample_engine [NpNum 0.02; NpNum 0.02; NpNum 0.02]
       (nikkei_price_list sample_engine)) 2
  = Ok (exp (- (0.02 * (INR 1 * (3 / 2))))).
Proof.
  assert (Hfloor : Zfloor (2 / (3 / 2)) = 1%Z).
  { apply Zfloor_eq. simpl. lra. }
  pose proof (discount_factor_constant_rate
                (set_lists sample_engine [NpNum 0.02; NpNum 0.02; NpNum 0.02]
                   (nikkei_price_list sample_engine)) 2 0.02) as H.
  cbn [timestep set_lists sample_engine constructed domestic_risk_free_rate_list] in H.
  rewrite Hfloor in H. apply H.
  - lra.
  - cbn [length]. lia.
  - intros i x Hi. destruct i as [|i]; [|lia]. cbn. intros [= <-]. reflexivity.
Defined.

Lemma discount_factor_ignores_last_rate_witness :
  discount_factor
    (set_lists sample_engine [PyNum 0; PyNum 0; PyNum 5] (nikkei_price_list sample_engine)) 3
  = discount_factor sample_engine 3.
Proof.
  apply (discount_factor_ignores_last_rate sample_engine (PyNum 5)).
  - apply (reachable_init sample_args), (init_ok sample_args). discriminate.
  - cbn. lra.
  - cbn. lia.
Defined.

Lemma current_price_discounts_payoff_witness :
  exists self' w' d v,
    start_monte_carlo sample_engine sample_world = Ok (self', w')
    /\ current_price_Exotic_Option self' = Ok (d * v)
    /\ 0 <= d * v.
Proof.
  destruct sample_run as (self' & w' & Hrun & Hreach).
  destruct (start_monte_carlo_frame sample_engine self' sample_world w' Hrun) as [Hself _].
  destruct (current_price_discounts_payoff self') as (d & v & _ & _ & Hprice & Hpos & _).
  - exact (simulated_run sample_engine self' sample_world w' Hreach Hrun).
  - rewrite Hself. cbn. lra.
  - rewrite Hself. cbn. lra.
  - exists self', w', d, v. split; [exact Hrun|]. split; [exact Hprice | exact Hpos].
Defined.

Lemma timeline_grid_witness :
  length (timeline sample_engine) = 3%nat
  /\ timeline sample_engine !! 2%nat = Some 3.
Proof.
  destruct (timeline_grid sample_engine) as (Hlen & _ & _ & Hlast).
  - apply (reachable_init sample_args), (init_ok sample_args). discriminate.
  - cbn. lia.
  - split; [exact Hlen | exact Hlast].
Defined.

Lemma negative_iteration_times_engine_witness :
  exists self,
    __init__ unchecked_args = Ok self
    /\ timeline self = []
    /\ (forall w, start_monte_carlo self w = Raise IndexError)
    /\ discount_factor self (maturity_T self) = Ok 1.
Proof.
  destruct (negative_iteration_times_engine unchecked_args)
    as (self & Hinit & _ & _ & Htimeline & Hrun & Hrest).
  - cbn. lia.
  - destruct Hrest as (_ & _ & Hdiscount); [cbn; lra|].
    exists self. split; [exact Hinit|]. split; [exact Htimeline|].
    split; [exact Hrun | exact Hdiscount].
Defined.

Lemma zero_volatility_runs_identical_witness :
  exists st v,
    simulation_loop 3 quiet_engine sample_world = Ok st
    /\ list_of_prices_Exotic_option st = [v; v; v].
Proof.
  destruct (zero_volatility_runs_identical quiet_engine sample_world 3
              quiet_engine_reachable)
    as (fixed & v & st & _ & _ & Hloop & Hprices & _).
  - cbn. lia.
  - cbn. lra.
  - exact I.
  - reflexivity.
  - reflexivity.
  - cbn. lra.
  - cbn. lra.
  - exists st, v. split; [exact Hloop | exact Hprices].
Defined.

End EngineExamples.

Section CurveExamples.

#[local] Existing Instance linear_curve.
#[local] Existing Instance counter_generator.

Lemma sloped_engine_reachable : reachable sloped_engine.
Proof.
  apply (reachable_init sloped_args), (init_ok sloped_args). discriminate.
Qed.

Lemma sloped_run :
  exists rates prices w',
    start_monte_carlo sloped_engine sloped_world = Ok (set_lists sloped_engine rates prices, w')
    /\ rates !! 0%nat = Some (PyNum 0.01).
Proof.
  destruct (start_monte_carlo_success sloped_engine sloped_world
              (reachable_well_formed _ sloped_engine_reachable))
    as (w1 & w2 & rates & prices & _ & _ & Hrun & _ & _ & Hr0 & _).
  - cbn. lia.
  - cbn. lra.
  - cbn. lia.
  - exists rates, prices, w2. split; [exact Hrun | exact Hr0].
Qed.

Lemma libor_rate_ratio_at_par_witness :
  exists self' w',
    start_monte_carlo sloped_engine sloped_world = Ok (self', w')
    /\ libor_rate_ratio self' 0 3 = Ok 1.
Proof.
  destruct sloped_run as (rates & prices & w' & Hrun & Hr0).
  exists (set_lists sloped_engine rates prices), w'. split; [exact Hrun|].
  apply (libor_rate_ratio_at_par (set_lists sloped_engine rates prices) 3 (PyNum 0.01)).
  - cbn. lra.
  - destruct (accessors_unfold (set_lists sloped_engine rates prices) 0) as [-> _];
      [cbn; lra|].
    replace (0 / timestep (set_lists sloped_engine rates prices)) with (IZR 0)
      by (cbn; lra).
    rewrite py_int_nonneg by (simpl; lra). rewrite ZfloorZ.
    exact (py_getitem_nat rates 0 _ Hr0).
  - cbn. unfold get_value_for_forward_rate. cbn. replace (1 - 0 / 100) with 1 by lra. lra.
  - cbn. lra.
  - cbn. lra.
  - cbn. lra.
Defined.

Lemma linear_price_derivative (T : R) :
  derivable_pt_lim (fun x => linear_splev x tt 0) T (linear_splev T tt 1).
Proof.
  apply (derivable_pt_lim_pointwise (fct_cte 1 - mult_real_fct (/ 100) id)%F).
  - intros x. unfold minus_fct, fct_cte, mult_real_fct, id. cbn. lra.
  - replace (linear_splev T tt 1) with (0 - / 100 * 1) by (cbn; lra).
    apply derivable_pt_lim_minus; [apply derivable_pt_lim_const|].
    apply derivable_pt_lim_scal, derivable_pt_lim_id.
Qed.

Lemma forward_rate_read_outs_are_derivatives_witness :
  derivable_pt_lim (get_value_for_forward_rate (bond_data sloped_engine)) 1
    (get_value_for_T_derivative_of_forward_rate (bond_data sloped_engine) 1).
Proof.
  destruct (forward_rate_read_outs_are_derivatives (bond_data sloped_engine) 1) as [_ H].
  - cbn. lra.
  - exact (linear_price_derivative 1).
  - apply (derivable_pt_lim_pointwise (fct_cte (- (1 / 100)))); [reflexivity|].
    apply derivable_pt_lim_const.
  - exact H.
Defined.

End CurveExamples.

Section MarketExamples.

#[local] Existing Instance decimal_parser.
#[local] Existing Instance sample_fred.
#[local] Existing Instance pearson_stats.

Lemma get_data_for_newest_day_errors_witness :
  get_data_for_newest_day XNone = Throw TypeError
  /\ (TypeError = KeyError \/ TypeError = TypeError).
Proof.
  split; [reflexivity|].
  apply (get_data_for_newest_day_errors XNone TypeError). reflexivity.
Defined.

Lemma get_data_for_newest_day_chosen_witness :
  get_data_for_newest_day sample_document = Return (sample_day "09-MAY-22" "MONDAY" "3.19").
Proof.
  apply (get_data_for_newest_day_chosen sample_document
           (XList [sample_week (XList [sample_day "05-MAY-22" "THURSDAY" "3.15";
                                       sample_day "06-MAY-22" "FRIDAY" "3.23"]);
                   sample_week (sample_day "09-MAY-22" "MONDAY" "3.19")])
           (sample_week (sample_day "09-MAY-22" "MONDAY" "3.19"))
           (sample_day "09-MAY-22" "MONDAY" "3.19"));
    reflexivity.
Defined.

Lemma only_yields_feed_bond_prices_witness :
  exists yields_in_percentage bond_prices,
    only_yields_in_percentage (sample_day "09-MAY-22" "MONDAY" "3.19")
    = Return yields_in_percentage
    /\ length yields_in_percentage = 12%nat
    /\ get_bond_prices yields_in_percentage = Ok bond_prices
    /\ length bond_prices = 12%nat.
Proof.
  destruct (only_yields_in_percentage (sample_day "09-MAY-22" "MONDAY" "3.19"))
    as [yields_in_percentage|e] eqn:Hyields; [|discriminate].
  destruct (only_yields_feed_bond_prices _ _ Hyields)
    as (Hlen & bond_prices & Hprices & Hlen' & _).
  exists yields_in_percentage, bond_prices.
  split; [reflexivity|]. split; [exact Hlen|]. split; [exact Hprices | exact Hlen'].
Defined.

Lemma dividend_yield_after_first_match_witness :
  get_latest_dividend_yield "May/06/2022" sample_cells = Ok (198 / 10 ^ 2 / 100).
Proof.
  destruct (dividend_yield_after_first_match "May/06/2022" sample_cells 2) as [Hnext _].
  - reflexivity.
  - intros [|[|j]] Hj; [discriminate | discriminate | lia].
  - apply (Hnext "1.98"%string); reflexivity.
Defined.

Lemma dividend_yield_without_match_witness :
  get_latest_dividend_yield "May/09/2022" sample_cells = Ok (201 / 10 ^ 2 / 100).
Proof.
  destruct (dividend_yield_without_match "May/09/2022" sample_cells) as [Hsecond _].
  - intros [|[|[|[|j]]]]; discriminate.
  - apply (Hsecond "2.01"%string); reflexivity.
Defined.

Lemma federal_funds_rate_window_witness :
  get_current_federal_funds_rate {| year := 2022; month := 5; day := 7 |}
  = Ok (Some (0.33 / 100))
  /\ get_current_federal_funds_rate {| year := 2022; month := 1; day := 15 |}
     = Raise ValueError
  /\ get_current_federal_funds_rate {| year := 2022; month := 3; day := 30 |}
     = Raise ValueError.
Proof.
  split; [|split].
  - destruct (federal_funds_rate_window {| year := 2022; month := 5; day := 7 |})
      as [_ Hwindow]; [reflexivity|].
    destruct (Hwindow ltac:(cbn; lia) ltac:(vm_compute; discriminate) [Some 0.33] eq_refl)
      as [_ Hone].
    exact (Hone 0.33 eq_refl).
  - destruct (federal_funds_rate_window {| year := 2022; month := 1; day := 15 |})
      as [Hdate _]; [reflexivity|].
    apply Hdate. left. reflexivity.
  - destruct (federal_funds_rate_window {| year := 2022; month := 3; day := 30 |})
      as [Hdate _]; [reflexivity|].
    apply Hdate. right. reflexivity.
Defined.

Lemma correlation_scale_invariant_witness :
  get_correlation_foreign_asset_and_exchange_rate
    [Some 52000; None; Some 53000; Some 52500] [Some 1.3; Some 1.31; Some 1.29]
  = get_correlation_foreign_asset_and_exchange_rate
      [Some 26000; None; Some 26500; Some 26250] [Some 130; Some 131; Some 129].
Proof.
  pose proof (correlation_scale_invariant 2 (/ 100)
                [Some 26000; None; Some 26500; Some 26250] [Some 130; Some 131; Some 129])
    as H.
  cbn [fmap list_fmap option_map] in H.
  replace (2 * 26000) with 52000 in H by lra.
  replace (2 * 26500) with 53000 in H by lra.
  replace (2 * 26250) with 52500 in H by lra.
  replace (/ 100 * 130) with 1.3 in H by lra.
  replace (/ 100 * 131) with 1.31 in H by lra.
  replace (/ 100 * 129) with 1.29 in H by lra.
  apply H.
  - lra.
  - lra.
  - repeat constructor; intros [= Hx]; lra.
  - repeat constructor; intros [= Hx]; lra.
Defined.

Lemma cumulative_average_bounds_witness :
  Forall (fun average => 1 <= average <= 3) (cumulative_average_of_list [1; 2; 3]).
Proof.
  apply (cumulative_average_bounds 1 3 [1; 2; 3]).
  repeat constructor; lra.
Defined.

End MarketExamples.
